(** * spike_yolo: the layer generators, the block generator and its forward pass

    A shallow embedding of [models/modules.py]: the layer generators
    ([LayerGen] and its subclasses), the recursive block generator
    ([BlockGen.__init__], [BlockGen._make_branch]), the state-threading
    forward pass ([BlockGen.forward]) and the preset lookup of
    [ModelGen.__init__].

    Python exceptions are values of [exn]; a computation that may raise
    returns a [result].  Python lists that the code updates in place live in
    a store of list objects, addressed by location.

    The first part holds the definitions: the embedding of the code, the
    same forward pass on state containers seen as trees, and the predicates
    of the statements.  The second part holds the lemmas and the theorems.

    Beside [models/modules.py] the file embeds the ResNet backbone of
    [models/backbone/resnet.py] (its construction and its forward pass), the
    anchor generator of [utils/anchors.py] and the progress board of
    [utils/progress_board.py]. *)

From stdpp Require Import base numbers list strings gmap sets.

Open Scope Z_scope.

Set Warnings "-clear-no-such-hyp".

(** * Definitions *)

(** ** Exceptions and results

    [Unmodelled] is not a Python exception: it marks a step that leaves the
    model, because a value of the wrong kind has reached torch or norse (a
    norse state iterated or indexed as if it were a list, a list handed to a
    spiking cell, the pair returned by a stateful layer used as a tensor).
    Nothing is claimed about what Python does from there on. *)

Inductive exn : Type :=
| TypeError
| AttributeError
| IndexError
| RuntimeError
| ValueError
| NotImplementedError
| KeyError (key : string)
| Unmodelled.

Inductive result (A : Type) : Type :=
| Ok (a : A)
| Raise (e : exn).

Arguments Ok {A} a.
Arguments Raise {A} e.

Definition bind {A B : Type} (r : result A) (k : A -> result B) : result B :=
  match r with
  | Ok a => k a
  | Raise e => Raise e
  end.

Notation "'do' x <- r ; k" := (bind r (fun x => k))
  (at level 10, x name, r at level 100, k at level 200).
Notation "'do' ' p <- r ; k" := (bind r (fun x => match x with p => k end))
  (at level 10, p pattern, r at level 100, k at level 200).

(** ** Modules (executable layers)

    Every constructor call of an [nn.Module] subclass makes a new object; the
    object is named by [oid], the value of an allocation counter, so that two
    layers with the same constructor arguments are still two layers (each
    with its own weights).  [Block] is a nested [BlockGen]. *)

#[warnings="-register-all"]
Inductive module : Type :=
| Conv2d (oid : nat) (in_channels out_channels kernel_size padding stride : Z)
| AvgPool2d (oid : nat) (kernel_size stride : Z)
| MaxPool2d (oid : nat) (kernel_size stride : Z)
| SumPool2d (oid : nat) (kernel_size stride padding : Z)
| BatchNorm2d (oid : nat) (num_features : Z)
| LIFCell (oid : nat)
| Storage (oid : nat)
| Block (b : BlockGen)
with BlockGen : Type :=
| mkBlockGen (net : list (list module)) (branch_state : list (list bool))
             (out_channels : option Z).

Definition net (b : BlockGen) : list (list module) :=
  match b with mkBlockGen n _ _ => n end.
Definition branch_state (b : BlockGen) : list (list bool) :=
  match b with mkBlockGen _ f _ => f end.
(** [out_channels] is a class-level annotation without a value: it is [None]
    until [__init__] assigns it, and reading it then raises. *)
Definition out_channels (b : BlockGen) : option Z :=
  match b with mkBlockGen _ _ c => c end.

(** What [LayerGen.get] hands back as its first component: a module instance,
    or, for [Pass], the class object [nn.Identity] itself. *)
Inductive pyobj : Type :=
| Instance (m : module)
| IdentityClass.

(** norse's [_is_module_stateful]: true when the [forward] of its argument
    has a parameter named [state].  That holds for [LIFCell] and for
    [BlockGen] ([forward(self, X, state=None)]), not for the torch layers,
    [SumPool2d], [Storage] or [nn.Identity.forward]. *)
Definition _is_module_stateful (layer : pyobj) : bool :=
  match layer with
  | Instance (LIFCell _) => true
  | Instance (Block _) => true
  | _ => false
  end.

(** [nn.ModuleList(layer_list)]: [add_module] raises [TypeError] for an
    element that is not an [nn.Module] instance. *)
Fixpoint ModuleList (layer_list : list pyobj) : result (list module) :=
  match layer_list with
  | [] => Ok []
  | Instance m :: rest => do ms <- ModuleList rest; Ok (m :: ms)
  | IdentityClass :: _ => Raise TypeError
  end.

(** ** Layer generators *)

Inductive pool_class : Type := AvgPool | MaxPool | SumPool.

Inductive LayerGen : Type :=
| Pass
| Conv (out_channels kernel_size stride : Z)
| Pool (pool : pool_class) (kernel_size stride : Z)
| Norm
| LIF
| Return.

(** [Pool.__init__]: the [match type] statement. *)
Definition Pool_init (type : string) (kernel_size stride : Z) : result LayerGen :=
  if decide (type = "A"%string) then Ok (Pool AvgPool kernel_size stride)
  else if decide (type = "M"%string) then Ok (Pool MaxPool kernel_size stride)
  else if decide (type = "S"%string) then Ok (Pool SumPool kernel_size stride)
  else Raise ValueError.

(** [get(in_channels)], with the allocation counter [next] threaded through:
    every variant but [Pass] constructs an object (the torch constructors
    are taken to accept their arguments).  [padding] is
    [int(kernel_size / 2)]; the batch normalisation layer is made without
    bias, which is a setting of that object and is not tracked. *)
Definition get (g : LayerGen) (in_channels : Z) (next : nat) : pyobj * Z * nat :=
  match g with
  | Pass => (IdentityClass, in_channels, next)
  | Conv out_channels kernel_size stride =>
      (Instance (Conv2d next in_channels out_channels kernel_size
                        (Z.quot kernel_size 2) stride),
       out_channels, S next)
  | Pool AvgPool kernel_size stride =>
      (Instance (AvgPool2d next kernel_size stride), in_channels, S next)
  | Pool MaxPool kernel_size stride =>
      (Instance (MaxPool2d next kernel_size stride), in_channels, S next)
  | Pool SumPool kernel_size stride =>
      (Instance (SumPool2d next kernel_size stride 0), in_channels, S next)
  | Norm => (Instance (BatchNorm2d next in_channels), in_channels, S next)
  | LIF => (Instance (LIFCell next), in_channels, S next)
  | Return => (Instance (Storage next), in_channels, S next)
  end.

(** ** Configuration lists

    [type ListGen = List[LayerGen | ListGen]]: an element of a configuration
    list is a layer generator or a list again. *)
#[warnings="-register-all"]
Inductive cfg : Type :=
| Gen (g : LayerGen)
| Cfgs (l : list cfg).

(** ** The block generator *)

(** The loop of [BlockGen.__init__] over [cfgs], for a given
    [_make_branch(in_channels, .)]; [oc] is the current value of
    [self.out_channels], overwritten by every branch. *)
Definition init_loop
    (make : cfg -> nat -> result (list module * list bool * Z * nat)) :
    list cfg -> option Z -> nat -> result (BlockGen * nat) :=
  fix loop (cfgs : list cfg) (oc : option Z) (next : nat) :=
    match cfgs with
    | [] => Ok (mkBlockGen [] [] oc, next)
    | branch_cfg :: rest =>
        do '(layer_list, state_layers, channels, next1) <- make branch_cfg next;
        do '(b, next2) <- loop rest (Some channels) next1;
        Ok (mkBlockGen (layer_list :: net b) (state_layers :: branch_state b)
                       (out_channels b), next2)
    end.

(** The loop of [_make_branch] over the elements of [cfg], for a given
    block constructor: a nested list becomes a nested [BlockGen] whose
    [out_channels] is read afterwards (and raises when it was never
    assigned); any other element is asked for its layer. *)
Definition branch_loop
    (block : Z -> list cfg -> nat -> result (BlockGen * nat)) :
    list cfg -> Z -> nat -> result (list pyobj * list bool * Z * nat) :=
  fix loop (l : list cfg) (channels : Z) (next : nat) :=
    match l with
    | [] => Ok ([], [], channels, next)
    | layer_gen :: rest =>
        do '(layer, channels1, next1) <-
          match layer_gen with
          | Cfgs sub =>
              do '(b, next1) <- block channels sub next;
              match out_channels b with
              | Some ch => Ok (Instance (Block b), ch, next1)
              | None => Raise AttributeError
              end
          | Gen g => Ok (get g channels next)
          end;
        do '(layer_list, state_layers, channels2, next2) <- loop rest channels1 next1;
        Ok (layer :: layer_list, _is_module_stateful layer :: state_layers,
            channels2, next2)
    end.

(** [_make_branch(in_channels, cfg)].  Iterating a [cfg] that is a layer
    generator, not a list, raises [TypeError]; the module list is built when
    the loop is over. *)
Fixpoint _make_branch (in_channels : Z) (c : cfg) (next : nat)
    : result (list module * list bool * Z * nat) :=
  match c with
  | Gen _ => Raise TypeError
  | Cfgs l =>
      do '(layer_list, state_layers, channels, next1) <-
        branch_loop (fun ch sub n => init_loop (_make_branch ch) sub None n)
                    l in_channels next;
      do ml <- ModuleList layer_list;
      Ok (ml, state_layers, channels, next1)
  end.

(** [BlockGen(in_channels, cfgs)]. *)
Definition BlockGen_init (in_channels : Z) (cfgs : list cfg) (next : nat)
    : result (BlockGen * nat) :=
  init_loop (_make_branch in_channels) cfgs None next.

(** ** The model generator *)

(** [ModelGen._load_cfg] of the base class; a subclass overrides it to fill
    [default_cfgs]. *)
Definition ModelGen_load_cfg : result (gmap string (list cfg)) :=
  Raise NotImplementedError.

(** [ModelGen.__init__(cfg, in_channels)], given what [self._load_cfg()]
    did: the registry [default_cfgs] it has left, or the exception it has
    raised.  [cfg] is a preset name or a configuration list; looking up a
    name that is not a key of the dictionary raises [KeyError(name)].  The
    optional re-initialisation of the weights ([init_weights]) leaves the
    block as it is and is left out. *)
Definition ModelGen_init (_load_cfg : result (gmap string (list cfg)))
    (cfg : string + list cfg) (in_channels : Z) (next : nat)
    : result (BlockGen * Z * nat) :=
  do default_cfgs <- _load_cfg;
  do tree <-
    match cfg with
    | inr l => Ok l
    | inl name =>
        match default_cfgs !! name with
        | Some l => Ok l
        | None => Raise (KeyError name)
        end
    end;
  do '(net, next') <- BlockGen_init in_channels [Cfgs tree] next;
  match out_channels net with
  | Some c => Ok (net, c, next')
  | None => Raise AttributeError
  end.

(** The names that an exception carries in its message. *)
Definition names_in (e : exn) : list string :=
  match e with
  | KeyError key => [key]
  | _ => []
  end.

(** ** The numeric back end

    The tensors and the numeric layers are torch's and norse's; the forward
    pass only moves tensors between them.  [torch_call m Y] is [m(Y)] for a
    torch layer [m] (it may depend on [m]'s own weights, hence on its [oid]),
    [lif_call oid Y s] is the spiking cell called on [Y] and its previous
    state ([None] on the first step), [tadd] is element-wise addition and
    [same_shape] compares shapes. *)
Record Backend : Type := {
  Tensor : Type;
  LIFState : Type;
  torch_call : module -> Tensor -> result Tensor;
  avg_pool2d : Tensor -> Z -> Z -> Z -> result Tensor;
  tmul : Tensor -> Z -> Tensor;
  lif_call : nat -> Tensor -> option LIFState -> result (Tensor * LIFState);
  tadd : Tensor -> Tensor -> Tensor;
  same_shape : Tensor -> Tensor -> bool
}.

(** ** State containers

    [type ListState = List[torch.Tensor | None | ListState]].  A list is a
    Python object: it is named by its location in the store, and two
    occurrences of one location are one list. *)
Abbreviation loc := nat (only parsing).

Inductive value (S : Type) : Type :=
| VNone
| VState (s : S)
| VList (l : loc).

Arguments VNone {S}.
Arguments VState {S} s.
Arguments VList {S} l.

Section Runtime.

Context (B : Backend).

#[local] Abbreviation T := (Tensor B).
#[local] Abbreviation val := (value (LIFState B)).
#[local] Abbreviation store := (list (list val)).

(** [torch.stack(out).sum(dim=0)], in exact arithmetic: stacking needs at
    least one tensor and equal shapes. *)
Definition stack_sum (out : list T) : result T :=
  match out with
  | [] => Raise RuntimeError
  | Y :: rest =>
      if forallb (same_shape B Y) rest then Ok (foldl (tadd B) Y rest)
      else Raise RuntimeError
  end.

(** [layer(Y)], for a position whose flag is false.  [SumPool2d.forward] and
    [Storage.forward] are the repository's own (the tensor that [Storage]
    keeps in its attribute is not part of the state container and is not
    tracked).  A spiking cell or a block called this way returns a pair, which
    would go on as [Y]: that is outside the model (in a block that
    [_make_branch] has made, their flag is true). *)
Definition call (layer : module) (Y : T) : result T :=
  match layer with
  | SumPool2d _ kernel_size stride padding =>
      do A <- avg_pool2d B Y kernel_size stride padding;
      Ok (tmul B (tmul B A kernel_size) kernel_size)
  | Storage _ => Ok Y
  | LIFCell _ | Block _ => Raise Unmodelled
  | m => torch_call B m Y
  end.

(** [layer(Y, state)], for a position whose flag is true, given the forward
    pass [fwd] of nested blocks.  The spiking cell returns its output and its
    new state, a new value; the layers without a [state] parameter refuse the
    second argument. *)
Definition call_state
    (fwd : BlockGen -> T -> val -> store -> result (T * val * store))
    (layer : module) (Y : T) (state : val) (h : store)
    : result (T * val * store) :=
  match layer with
  | Block b => fwd b Y state h
  | LIFCell oid =>
      match state with
      | VNone => do '(Y1, s1) <- lif_call B oid Y None; Ok (Y1, VState s1, h)
      | VState s => do '(Y1, s1) <- lif_call B oid Y (Some s); Ok (Y1, VState s1, h)
      | VList _ => Raise Unmodelled
      end
  | _ => Raise TypeError
  end.

(** [branch_state[idx]]: out of range, a list raises [IndexError]. *)
Definition getitem (h : store) (branch_state : val) (idx : nat) : result val :=
  match branch_state with
  | VList l =>
      match h !! l with
      | Some slots =>
          match slots !! idx with
          | Some v => Ok v
          | None => Raise IndexError
          end
      | None => Raise Unmodelled
      end
  | VNone => Raise TypeError
  | VState _ => Raise Unmodelled
  end.

(** [branch_state[idx] = v]: the list at that location is updated in place. *)
Definition setitem (h : store) (branch_state : val) (idx : nat) (v : val)
    : result store :=
  match branch_state with
  | VList l =>
      match h !! l with
      | Some slots =>
          if decide (idx < length slots)%nat
          then Ok (<[l := <[idx := v]> slots]> h)
          else Raise IndexError
      | None => Raise Unmodelled
      end
  | VNone => Raise TypeError
  | VState _ => Raise Unmodelled
  end.

(** The inner loop of [forward]:
    [for idx, (layer, is_state) in enumerate(zip(branch, state_flags))]. *)
Definition run_layers
    (fwd : BlockGen -> T -> val -> store -> result (T * val * store))
    (branch_state : val) :
    list module -> list bool -> nat -> T -> store -> result (T * store) :=
  fix loop (branch : list module) (state_flags : list bool) (idx : nat)
           (Y : T) (h : store) :=
    match branch, state_flags with
    | layer :: branch', is_state :: state_flags' =>
        if is_state then
          do old <- getitem h branch_state idx;
          do '(Y1, new, h1) <- call_state fwd layer Y old h;
          do h2 <- setitem h1 branch_state idx new;
          loop branch' state_flags' (S idx) Y1 h2
        else
          do Y1 <- call layer Y;
          loop branch' state_flags' (S idx) Y1 h
    | _, _ => Ok (Y, h)
    end.

(** The [i]-th element that iterating [state] yields, read when the loop
    gets there: [state] is the local [[None] * n] when the argument was
    [None], and the caller's list otherwise. *)
Definition state_next (h : store) (state : val) (n i : nat)
    : result (option val) :=
  match state with
  | VNone => Ok (if decide (i < n)%nat then Some VNone else None)
  | VList l =>
      match h !! l with
      | Some entries => Ok (entries !! i)
      | None => Raise Unmodelled
      end
  | VState _ => Raise Unmodelled
  end.

(** [[None] * len(branch) if branch_state is None else branch_state]: a new
    list is put at the next free location, an incoming one is used as it
    is. *)
Definition branch_state_or_new (h : store) (branch : list module)
    (branch_state : val) : val * store :=
  match branch_state with
  | VNone => (VList (length h), h ++ [replicate (length branch) VNone])
  | _ => (branch_state, h)
  end.

(** The outer loop of [forward]:
    [for branch, state_flags, branch_state in zip(self.net, self.branch_state, state)],
    which stops with the shortest of the three.  [out] and [out_state] are
    local lists that nothing else refers to while the loop runs: they are
    returned as values. *)
Definition run_branches
    (fwd : BlockGen -> T -> val -> store -> result (T * val * store))
    (X : T) (state : val) (n : nat) :
    list (list module) -> list (list bool) -> nat -> store ->
    result (list T * list val * store) :=
  fix loop (net : list (list module)) (flags : list (list bool)) (i : nat)
           (h : store) :=
    match net, flags with
    | branch :: net', state_flags :: flags' =>
        do e <- state_next h state n i;
        match e with
        | None => Ok ([], [], h)
        | Some e =>
            let '(bs, h0) := branch_state_or_new h branch e in
            do '(Y, h1) <- run_layers fwd bs branch state_flags 0 X h0;
            do '(out, out_state, h2) <- loop net' flags' (S i) h1;
            Ok (Y :: out, bs :: out_state, h2)
        end
    | _, _ => Ok ([], [], h)
    end.

(** [BlockGen.forward(X, state)]: the output tensor, the returned state
    container ([out_state], which enters the store as a new list when it is
    returned) and the store after the call. *)
Fixpoint forward (b : BlockGen) (X : T) (state : val) (h : store)
    : result (T * val * store) :=
  match b with
  | mkBlockGen net flags _ =>
      do '(out, out_state, h1) <-
        run_branches forward X state (length net) net flags 0 h;
      do Y <- stack_sum out;
      Ok (Y, VList (length h1), h1 ++ [out_state])
  end.

(** The caller's loop over the time steps: every call is given the
    container that the previous call returned. *)
Fixpoint run_steps (b : BlockGen) (Xs : list T) (state : val) (h : store)
    : result (val * store) :=
  match Xs with
  | [] => Ok (state, h)
  | X :: Xs' =>
      do '(_, state', h') <- forward b X state h;
      run_steps b Xs' state' h'
  end.

End Runtime.

(** ** State containers as trees

    The same forward pass on a state container seen as a value: a tree whose
    nodes are lists.  This is the reading of a container in which no list
    object occurs at two places.  [forward_t] returns the new container
    instead of updating the old one. *)

#[warnings="-register-all"]
Inductive tree (S : Type) : Type :=
| TNone
| TState (s : S)
| TList (ts : list (tree S)).

Arguments TNone {S}.
Arguments TState {S} s.
Arguments TList {S} ts.

Section TreeRuntime.

Context (B : Backend).

#[local] Abbreviation T := (Tensor B).
#[local] Abbreviation tr := (tree (LIFState B)).

(** The definitions of the forward pass again, with the branch entry
    handed on as a value instead of being updated in the store. *)
Definition call_state_t (fwd : BlockGen -> T -> tr -> result (T * tr))
    (layer : module) (Y : T) (state : tr) : result (T * tr) :=
  match layer with
  | Block b => fwd b Y state
  | LIFCell oid =>
      match state with
      | TNone => do '(Y1, s1) <- lif_call B oid Y None; Ok (Y1, TState s1)
      | TState s => do '(Y1, s1) <- lif_call B oid Y (Some s); Ok (Y1, TState s1)
      | TList _ => Raise Unmodelled
      end
  | _ => Raise TypeError
  end.

Definition getitem_t (branch_state : tr) (idx : nat) : result tr :=
  match branch_state with
  | TList slots =>
      match slots !! idx with
      | Some t => Ok t
      | None => Raise IndexError
      end
  | TNone => Raise TypeError
  | TState _ => Raise Unmodelled
  end.

Definition setitem_t (branch_state : tr) (idx : nat) (t : tr) : result tr :=
  match branch_state with
  | TList slots =>
      if decide (idx < length slots)%nat
      then Ok (TList (<[idx := t]> slots))
      else Raise IndexError
  | TNone => Raise TypeError
  | TState _ => Raise Unmodelled
  end.

Definition run_layers_t (fwd : BlockGen -> T -> tr -> result (T * tr)) :
    list module -> list bool -> nat -> T -> tr -> result (T * tr) :=
  fix loop (branch : list module) (state_flags : list bool) (idx : nat)
           (Y : T) (branch_state : tr) :=
    match branch, state_flags with
    | layer :: branch', is_state :: state_flags' =>
        if is_state then
          do old <- getitem_t branch_state idx;
          do '(Y1, new) <- call_state_t fwd layer Y old;
          do bs1 <- setitem_t branch_state idx new;
          loop branch' state_flags' (S idx) Y1 bs1
        else
          do Y1 <- call B layer Y;
          loop branch' state_flags' (S idx) Y1 branch_state
    | _, _ => Ok (Y, branch_state)
    end.

Definition state_next_t (state : tr) (n i : nat) : result (option tr) :=
  match state with
  | TNone => Ok (if decide (i < n)%nat then Some TNone else None)
  | TList entries => Ok (entries !! i)
  | TState _ => Raise Unmodelled
  end.

Definition branch_state_or_new_t (branch : list module) (branch_state : tr) : tr :=
  match branch_state with
  | TNone => TList (replicate (length branch) TNone)
  | _ => branch_state
  end.

Definition run_branches_t (fwd : BlockGen -> T -> tr -> result (T * tr))
    (X : T) (state : tr) (n : nat) :
    list (list module) -> list (list bool) -> nat -> result (list T * list tr) :=
  fix loop (net : list (list module)) (flags : list (list bool)) (i : nat) :=
    match net, flags with
    | branch :: net', state_flags :: flags' =>
        do e <- state_next_t state n i;
        match e with
        | None => Ok ([], [])
        | Some e =>
            do '(Y, bs) <- run_layers_t fwd branch state_flags 0 X
                                        (branch_state_or_new_t branch e);
            do '(out, out_state) <- loop net' flags' (S i);
            Ok (Y :: out, bs :: out_state)
        end
    | _, _ => Ok ([], [])
    end.

Fixpoint forward_t (b : BlockGen) (X : T) (state : tr) : result (T * tr) :=
  match b with
  | mkBlockGen net flags _ =>
      do '(out, out_state) <-
        run_branches_t forward_t X state (length net) net flags 0;
      do Y <- stack_sum B out;
      Ok (Y, TList out_state)
  end.

(** [rep h v t F]: in the store [h], the value [v] is the root of the tree
    [t], whose lists are the locations [F], each of them met once. *)
Inductive rep (h : list (list (value (LIFState B)))) :
    value (LIFState B) -> tr -> gset loc -> Prop :=
| rep_none : rep h VNone TNone ∅
| rep_state s : rep h (VState s) (TState s) ∅
| rep_list l vs ts F :
    h !! l = Some vs -> reps h vs ts F -> l ∉ F ->
    rep h (VList l) (TList ts) ({[l]} ∪ F)
with reps (h : list (list (value (LIFState B)))) :
    list (value (LIFState B)) -> list tr -> gset loc -> Prop :=
| reps_nil : reps h [] [] ∅
| reps_cons v t Fv vs ts F :
    rep h v t Fv -> reps h vs ts F -> Fv ## F ->
    reps h (v :: vs) (t :: ts) (Fv ∪ F).

Scheme rep_mut := Induction for rep Sort Prop
  with reps_mut := Induction for reps Sort Prop.
Combined Scheme rep_reps_mutind from rep_mut, reps_mut.

End TreeRuntime.

(** ** Induction over nested blocks *)

Definition on_block (P : BlockGen -> Prop) (m : module) : Prop :=
  match m with
  | Block b => P b
  | _ => True
  end.

Section BlockGen_nested_ind.

Variable P : BlockGen -> Prop.
Hypothesis Hblock : forall net flags oc,
  Forall (Forall (on_block P)) net -> P (mkBlockGen net flags oc).

Fixpoint BlockGen_nested_ind (b : BlockGen) : P b :=
  match b with
  | mkBlockGen net flags oc =>
      Hblock net flags oc
        ((fix go_net (n : list (list module)) : Forall (Forall (on_block P)) n :=
            match n with
            | [] => List.Forall_nil _
            | branch :: n' =>
                List.Forall_cons _ _ _
                  ((fix go_branch (l : list module) : Forall (on_block P) l :=
                      match l with
                      | [] => List.Forall_nil _
                      | m :: l' =>
                          List.Forall_cons _ _ _
                            (match m return on_block P m with
                             | Block b' => BlockGen_nested_ind b'
                             | _ => I
                             end)
                            (go_branch l')
                      end) branch)
                  (go_net n')
            end) net)
  end.

End BlockGen_nested_ind.

Section cfg_nested_ind.

Variable P : cfg -> Prop.
Hypothesis Hgen : forall g, P (Gen g).
Hypothesis Hcfgs : forall l, Forall P l -> P (Cfgs l).

Fixpoint cfg_nested_ind (c : cfg) : P c :=
  match c with
  | Gen g => Hgen g
  | Cfgs l =>
      Hcfgs l
        ((fix go (l : list cfg) : Forall P l :=
            match l with
            | [] => List.Forall_nil _
            | c' :: l' => List.Forall_cons _ _ _ (cfg_nested_ind c') (go l')
            end) l)
  end.

End cfg_nested_ind.

(** ** Shapes *)

(** A test on the pairs of two lists of the same length. *)
Fixpoint forall2b {A C : Type} (f : A -> C -> bool) (l1 : list A) (l2 : list C) : bool :=
  match l1, l2 with
  | [], [] => true
  | a :: l1', c :: l2' => f a c && forall2b f l1' l2'
  | _, _ => false
  end.

(** The flag that [_make_branch] records for a module. *)
Definition stateful (m : module) : bool := _is_module_stateful (Instance m).

(** The mask of a block is the one [_make_branch] computes: one flag per
    layer, at every depth. *)
Fixpoint flags_ok (b : BlockGen) : bool :=
  match b with
  | mkBlockGen net flags _ =>
      forall2b
        (fun branch state_flags =>
           forall2b
             (fun m f =>
                bool_decide (stateful m = f) &&
                match m with Block b' => flags_ok b' | _ => true end)
             branch state_flags)
        net flags
  end.

(** The test of [flags_ok] at one position. *)
Definition slot_flag_ok (m : module) (f : bool) : bool :=
  bool_decide (stateful m = f) &&
  match m with Block b' => flags_ok b' | _ => true end.

(** No spiking cell at any depth. *)
Fixpoint no_lif (b : BlockGen) : bool :=
  match b with
  | mkBlockGen net _ _ =>
      forallb
        (forallb (fun m => match m with
                           | LIFCell _ => false
                           | Block b' => no_lif b'
                           | _ => true
                           end))
        net
  end.

(** The test of [no_lif] at one position. *)
Definition lif_free (m : module) : bool :=
  match m with
  | LIFCell _ => false
  | Block b' => no_lif b'
  | _ => true
  end.

Definition is_TState {S : Type} (t : tree S) : bool :=
  match t with TState _ => true | _ => false end.
Definition is_TNone {S : Type} (t : tree S) : bool :=
  match t with TNone => true | _ => false end.
Definition is_leaf {S : Type} (t : tree S) : bool :=
  match t with TList _ => false | _ => true end.

Section Shape.

Context {S : Type}.

(** [absent]: may a list of the container be [None]?  [lif_slot]: what the
    slot of a spiking cell may hold. *)
Variable absent : bool.
Variable lif_slot : tree S -> bool.

(** The slot of a nested block has the shape of that block ([sh]); the slot
    of a layer without state is [None]. *)
Definition slot_shape (sh : BlockGen -> tree S -> bool) (m : module) (s : tree S)
    : bool :=
  match m with
  | Block b' => sh b' s
  | LIFCell _ => lif_slot s
  | _ => is_TNone s
  end.

(** The entry of a branch: a list with one slot per layer. *)
Definition entry_shape (sh : BlockGen -> tree S -> bool) (branch : list module)
    (e : tree S) : bool :=
  match e with
  | TNone => absent
  | TState _ => false
  | TList slots => forall2b (slot_shape sh) branch slots
  end.

(** [shape b t]: the container [t] has one entry per branch of [b]. *)
Fixpoint shape (b : BlockGen) (t : tree S) : bool :=
  match b with
  | mkBlockGen net _ _ =>
      match t with
      | TNone => absent
      | TState _ => false
      | TList entries => forall2b (entry_shape shape) net entries
      end
  end.

End Shape.

(** The container that a forward pass returns: every list present, a state
    in the slot of every spiking cell. *)
Definition mirrors {S : Type} : BlockGen -> tree S -> bool := shape false is_TState.
(** A container that a forward pass can take: lists may be absent, the slot
    of a spiking cell holds [None] or a state. *)
Definition accepts {S : Type} : BlockGen -> tree S -> bool := shape true is_leaf.
(** Every list present, every leaf [None]. *)
Definition leaves_none {S : Type} : BlockGen -> tree S -> bool := shape false is_TNone.

(** A block that [BlockGen.__init__] has produced. *)
Definition compiled (b : BlockGen) : Prop :=
  exists in_channels cfgs next next', BlockGen_init in_channels cfgs next = Ok (b, next').

(** ** Reordering the branches *)

(** [select p l]: the elements of [l] at the indices [p], in the order of
    [p]; for a permutation [p] of the indices of [l], [l] reordered. *)
Definition select {A : Type} (p : list nat) (l : list A) : list A :=
  omap (fun i => l !! i) p.

(** Addition of tensors is exact (commutative and associative) and having
    the same shape is symmetric and transitive. *)
Definition exact_arithmetic (B : Backend) : Prop :=
  (forall x y, tadd B x y = tadd B y x) /\
  (forall x y z, tadd B (tadd B x y) z = tadd B x (tadd B y z)) /\
  (forall x y, same_shape B x y = same_shape B y x) /\
  (forall x y z, same_shape B x y = true -> same_shape B y z = true ->
                 same_shape B x z = true).

(** The numeric layers never fail, and any two tensors can be stacked. *)
Definition total_backend (B : Backend) : Prop :=
  (forall m Y, exists Y', torch_call B m Y = Ok Y') /\
  (forall Y k s p, exists Y', avg_pool2d B Y k s p = Ok Y') /\
  (forall oid Y s, exists r, lif_call B oid Y s = Ok r) /\
  (forall x y, same_shape B x y = true).

(** At every depth, a block has at least one branch. *)
Fixpoint has_branches (b : BlockGen) : bool :=
  match b with
  | mkBlockGen net _ _ =>
      match net with
      | [] => false
      | _ =>
          forallb
            (forallb (fun m => match m with
                               | Block b' => has_branches b'
                               | _ => true
                               end))
            net
      end
  end.

(** The test of [has_branches] at one position. *)
Definition branched (m : module) : bool :=
  match m with
  | Block b' => has_branches b'
  | _ => true
  end.

(** ** Relating the store and the trees *)

Section Relations.

Context (B : Backend).

#[local] Abbreviation T := (Tensor B).
#[local] Abbreviation val := (value (LIFState B)).
#[local] Abbreviation tr := (tree (LIFState B)).
#[local] Abbreviation store := (list (list val)).

(** Every location of [F'] is in [F] or was allocated after [h]. *)
Definition grown (h : store) (F F' : gset loc) : Prop :=
  forall l, l ∈ F' -> l ∈ F \/ (length h <= l)%nat.

(** The lists of [h] outside [F] are the same in [h']. *)
Definition frame (h h' : store) (F : gset loc) : Prop :=
  forall l, (l < length h)%nat -> l ∉ F -> h' !! l = h !! l.

(** The outcome [r] of a forward pass on the store [h], given a container
    of locations [F], against the outcome [rt] of the forward pass on its
    tree: the same exception, or the same tensor and, in the new store, the
    tree that [rt] returns, made of locations of [F] and new ones, nothing
    outside [F] being touched. *)
Definition sim_forward (h : store) (F : gset loc)
    (r : result (T * val * store)) (rt : result (T * tr)) : Prop :=
  match r with
  | Ok (Y, v', h') =>
      exists t' F', rt = Ok (Y, t') /\ rep B h' v' t' F' /\
        (length h <= length h')%nat /\ grown h F F' /\ frame h h' F
  | Raise e => rt = Raise e
  end.

(** The same for the loop over the layers of one branch, whose branch entry
    [bs] is updated in place. *)
Definition sim_layers (h : store) (bs : val) (F : gset loc)
    (r : result (T * store)) (rt : result (T * tr)) : Prop :=
  match r with
  | Ok (Y, h') =>
      exists tb' F', rt = Ok (Y, tb') /\ rep B h' bs tb' F' /\
        (length h <= length h')%nat /\ grown h F F' /\ frame h h' F
  | Raise e => rt = Raise e
  end.

(** An entry of the returned container is the incoming entry itself, unless
    that was [None]. *)
Definition reused (e bs : val) : Prop := e = VNone \/ bs = e.

(** The same for the loop over the branches, given the incoming entries
    [es] that are still to come. *)
Definition sim_branches (h : store) (F : gset loc) (es : list val)
    (r : result (list T * list val * store)) (rt : result (list T * list tr)) : Prop :=
  match r with
  | Ok (out, out_state, h') =>
      exists touts F', rt = Ok (out, touts) /\ reps B h' out_state touts F' /\
        (length h <= length h')%nat /\ grown h F F' /\ frame h h' F /\
        Forall2 reused (take (length out_state) es) out_state
  | Raise e => rt = Raise e
  end.

(** On a container that is a tree in the store, [forward] does what
    [forward_t] does on the tree. *)
Definition refines (b : BlockGen) : Prop :=
  forall X v h t F, rep B h v t F ->
    sim_forward h F (forward B b X v h) (forward_t B b X t).

(** The entries that iterating [state] yields. *)
Definition entries_at (h : store) (state : val) (n : nat) (es : list val) : Prop :=
  match state with
  | VNone => es = replicate n VNone
  | VList l => h !! l = Some es
  | VState _ => False
  end.

(** The same on trees. *)
Definition entries_t (state : tr) (n : nat) (tes : list tr) : Prop :=
  match state with
  | TNone => tes = replicate n TNone
  | TList ts => tes = ts
  | TState _ => False
  end.

(** From a container of an acceptable shape, [forward_t] returns one that
    mirrors the block. *)
Definition keeps_shape (b : BlockGen) : Prop :=
  flags_ok b = true ->
  forall X (t : tr) Y t',
    accepts b t = true -> forward_t B b X t = Ok (Y, t') -> mirrors b t' = true.

(** On a container of an acceptable shape, [forward_t] returns. *)
Definition returns_t (b : BlockGen) : Prop :=
  flags_ok b = true -> has_branches b = true ->
  forall X (t : tr), accepts b t = true -> exists Y t', forward_t B b X t = Ok (Y, t').

(** Every list of [h] is still there in [h'], with the same length. *)
Definition lens_kept (h h' : store) : Prop :=
  forall l xs, h !! l = Some xs ->
    exists xs', h' !! l = Some xs' /\ length xs' = length xs.

(** [forward] changes the length of no list. *)
Definition keeps_lengths (b : BlockGen) : Prop :=
  forall X v (h : store) Y v' h',
    forward B b X v h = Ok (Y, v', h') -> lens_kept h h'.

(** One branch of the forward pass, on trees. *)
Definition branch_t (X : T) (c : list module * list bool * tr) : result (T * tr) :=
  let '(branch, state_flags, e) := c in
  run_layers_t B (forward_t B) branch state_flags 0 X
               (branch_state_or_new_t B branch e).

(** The branches one after the other, each with its flags and its entry. *)
Fixpoint run_triples (X : T) (l : list (list module * list bool * tr))
    : result (list T * list tr) :=
  match l with
  | [] => Ok ([], [])
  | c :: l' =>
      do '(Y, bs) <- branch_t X c;
      do '(out, out_state) <- run_triples X l';
      Ok (Y :: out, bs :: out_state)
  end.

(** The incoming containers of the two runs: both absent, or two lists of
    which the second holds the entries of the first, reordered by [p]. *)
Definition permuted_state (p : list nat) (n : nat) (h : store) (v v2 : val) : Prop :=
  (v = VNone /\ v2 = VNone) \/
  (exists l l2 es, v = VList l /\ v2 = VList l2 /\ h !! l = Some es /\
     h !! l2 = Some (select p es) /\ length es = n).

End Relations.

(** ** Examples: a back end of one-number tensors *)

(** Tensors are integers, every torch layer doubles and adds one, pooling is
    the identity, the spiking cell adds its previous state to its input and
    keeps the sum. *)
Definition ZBackend : Backend := {|
  Tensor := Z;
  LIFState := Z;
  torch_call := fun _ Y => Ok (2 * Y + 1);
  avg_pool2d := fun Y _ _ _ => Ok Y;
  tmul := Z.mul;
  lif_call := fun _ Y s =>
    match s with
    | None => Ok (Y, Y)
    | Some v => Ok (Y + v, Y + v)
    end;
  tadd := Z.add;
  same_shape := fun _ _ => true
|}.

(** [[[Conv(8), LIF(), [[Norm(), LIF()], []]], [Conv(8)]]] *)
Definition example_cfgs : list cfg :=
  [Cfgs [Gen (Conv 8 3 1); Gen LIF; Cfgs [Cfgs [Gen Norm; Gen LIF]; Cfgs []]];
   Cfgs [Gen (Conv 8 3 1)]].

Definition example_block : BlockGen :=
  mkBlockGen
    [[Conv2d 0 4 8 3 1 1; LIFCell 1;
      Block (mkBlockGen [[BatchNorm2d 2 8; LIFCell 3]; []] [[false; true]; []] (Some 8))];
     [Conv2d 4 4 8 3 1 1]]
    [[false; true; true]; [false]] (Some 8).

(** [[[Return(), [[Pool("S")], []]], [Norm()]]]: no spiking cell. *)
Definition stateless_cfgs : list cfg :=
  [Cfgs [Gen Return; Cfgs [Cfgs [Gen (Pool SumPool 2 2)]; Cfgs []]];
   Cfgs [Gen Norm]].

Definition stateless_block : BlockGen :=
  mkBlockGen
    [[Storage 0; Block (mkBlockGen [[SumPool2d 1 2 2 0]; []] [[false]; []] (Some 2))];
     [BatchNorm2d 2 2]]
    [[false; true]; [false]] (Some 2).

(** [[[Conv(8)], [LIF(), Conv(8)]]], run on the containers [[[None], [None, None]]]
    and [[[None, None], [None]]] that hold the same two lists. *)
Definition two_branch_block : BlockGen :=
  mkBlockGen [[Conv2d 0 4 8 3 1 1]; [LIFCell 1; Conv2d 2 4 8 3 1 1]]
             [[false]; [true; false]] (Some 8).

Definition two_branch_store : list (list (value Z)) :=
  [[VNone]; [VNone; VNone]; [VList 0%nat; VList 1%nat]; [VList 1%nat; VList 0%nat]].

(** [[[LIF(), Return()], [LIF(), Conv(1)]]], run on a container whose two
    entries are one and the same list. *)
Definition shared_entry_block : BlockGen :=
  mkBlockGen [[LIFCell 0; Storage 1]; [LIFCell 2; Conv2d 3 1 1 3 1 1]]
             [[true; false]; [true; false]] (Some 1).

Definition shared_entry_store : list (list (value Z)) :=
  [[VNone; VNone]; [VList 0%nat; VList 0%nat]].

(** [[[LIF()]]], and the store after a first forward pass on 5 with state
    [None], whose returned container is the list at location 1. *)
Definition lif_block : BlockGen := mkBlockGen [[LIFCell 0]] [[true]] (Some 3).

Definition lif_store : list (list (value Z)) := [[VState 5]; [VList 0%nat]].

(** Reading a tree off a concrete store. *)
Ltac build_rep :=
  lazymatch goal with
  | |- rep _ _ VNone _ _ => apply rep_none
  | |- rep _ _ (VState _) _ _ => apply rep_state
  | |- rep _ _ (VList _) _ _ =>
      eapply rep_list; [vm_compute; reflexivity | build_rep | set_solver]
  | |- reps _ _ [] _ _ => apply reps_nil
  | |- reps _ _ (_ :: _) _ _ =>
      eapply reps_cons; [build_rep | build_rep | set_solver]
  end.

(** ** What a constructed block is made of *)

(** The layer objects of a module, a nested block opened up, in the order
    of the branches and of the layers. *)
Fixpoint block_oids (b : BlockGen) : list nat :=
  match b with
  | mkBlockGen net _ _ =>
      concat (map (fun branch =>
        concat (map (fun m =>
          match m with
          | Conv2d oid _ _ _ _ _ | AvgPool2d oid _ _ | MaxPool2d oid _ _
          | SumPool2d oid _ _ _ | BatchNorm2d oid _ | LIFCell oid | Storage oid =>
              [oid]
          | Block b' => block_oids b'
          end) branch)) net)
  end.

Definition module_oids (m : module) : list nat :=
  match m with
  | Conv2d oid _ _ _ _ _ | AvgPool2d oid _ _ | MaxPool2d oid _ _
  | SumPool2d oid _ _ _ | BatchNorm2d oid _ | LIFCell oid | Storage oid => [oid]
  | Block b' => block_oids b'
  end.

Definition layers_oids (branch : list module) : list nat :=
  concat (map module_oids branch).

(** The channel count that leaves a branch when [c] channels enter it, each
    layer checked against what reaches it: a convolution was built for the
    count that arrives and sets the count, a batch normalisation was built
    for the count that arrives, a nested block ([blk] is the test of blocks)
    hands on its [out_channels]; the other layers take any count.  [None]
    when a layer was built for another count. *)
Definition layers_channels (blk : BlockGen -> Z -> bool) :
    list module -> Z -> option Z :=
  fix go (branch : list module) (c : Z) :=
    match branch with
    | [] => Some c
    | m :: branch' =>
        match m with
        | Conv2d _ i o _ _ _ => if decide (i = c) then go branch' o else None
        | BatchNorm2d _ n => if decide (n = c) then go branch' c else None
        | Block b =>
            if blk b c then
              match out_channels b with
              | Some ch => go branch' ch
              | None => None
              end
            else None
        | _ => go branch' c
        end
    end.

(** Every branch of the list is wired for [c] channels, and [oc] is the
    count that leaves the last of them ([last] when there is none). *)
Definition branches_wired (lc : list module -> Z -> option Z) (c : Z)
    (oc : option Z) : list (list module) -> option Z -> bool :=
  fix go (net : list (list module)) (last : option Z) :=
    match net with
    | [] => bool_decide (oc = last)
    | branch :: net' =>
        match lc branch c with
        | Some ch => go net' (Some ch)
        | None => false
        end
    end.

(** [wired b c]: the block [b] is wired for an input of [c] channels, at
    every depth, and its [out_channels] is the count that leaves its last
    branch. *)
Fixpoint wired (b : BlockGen) (c : Z) : bool :=
  match b with
  | mkBlockGen net _ oc => branches_wired (layers_channels wired) c oc net None
  end.



(** The generators of a configuration, nested lists opened up. *)
Fixpoint generators (c : cfg) : list LayerGen :=
  match c with
  | Gen g => [g]
  | Cfgs l => concat (map generators l)
  end.

(** The output channel count of the last convolution among the generators
    [gs], or [c] when there is none. *)
Definition last_conv (c : Z) (gs : list LayerGen) : Z :=
  foldl (fun acc g => match g with Conv o _ _ => o | _ => acc end) c gs.

(** ** Blocks without spiking cells *)


(** A container for [example_block] that is filled in part: the first
    branch entry holds a state for the spiking cell and nothing for the
    nested block, the second branch entry is absent. *)
Definition partial_store : list (list (value Z)) :=
  [[VNone; VState 3; VNone]; [VList 0%nat; VNone]].



(** ** [Storage] and its attribute

    The attribute [storage] of a [Storage] module is annotated in the class
    and set by [forward]: [self] is what the instance holds, [None] before
    the first call. *)

Definition Storage_forward {T : Type} (self : option T) (X : T) : T * option T :=
  (X, Some X).

Definition Storage_get_storage {T : Type} (self : option T) : result T :=
  match self with
  | Some X => Ok X
  | None => Raise AttributeError
  end.

(** ** The ResNet backbone ([models/backbone/resnet.py]): the forward pass

    The backbone calls the spiking cells of norse, its own [SumPool2d] and
    torch layers; the torch layers are functions on tensors that may
    raise. *)

(** What the state variables of the backbone hold: [None], the state of a
    spiking cell, a tuple, a list. *)
#[warnings="-register-all"]
Inductive pyval (S : Type) : Type :=
| PNone
| PState (s : S)
| PTuple (items : list (pyval S))
| PList (items : list (pyval S)).

Arguments PNone {S}.
Arguments PState {S} s.
Arguments PTuple {S} items.
Arguments PList {S} items.

Section PyValues.

Context (B : Backend).

#[local] Abbreviation T := (Tensor B).
#[local] Abbreviation pv := (pyval (LIFState B)).

(** [v[i]]. *)
Definition py_getitem (v : pv) (i : nat) : result pv :=
  match v with
  | PTuple items | PList items =>
      match items !! i with
      | Some x => Ok x
      | None => Raise IndexError
      end
  | PNone => Raise TypeError
  | PState _ => Raise Unmodelled
  end.

(** [v[i] = x]: a tuple does not support item assignment. *)
Definition py_setitem (v : pv) (i : nat) (x : pv) : result pv :=
  match v with
  | PList items =>
      if decide (i < length items)%nat then Ok (PList (<[i := x]> items))
      else Raise IndexError
  | PTuple _ => Raise TypeError
  | PNone => Raise TypeError
  | PState _ => Raise Unmodelled
  end.

(** [cell(Y, s)] for a spiking cell and what a state variable holds. *)
Definition lif_apply (oid : nat) (Y : T) (s : pv) : result (T * pv) :=
  match s with
  | PNone => do '(Y1, s1) <- lif_call B oid Y None; Ok (Y1, PState s1)
  | PState s0 => do '(Y1, s1) <- lif_call B oid Y (Some s0); Ok (Y1, PState s1)
  | PTuple _ | PList _ => Raise Unmodelled
  end.

(** [torch.stack(spikes)]: stacking needs at least one tensor; [stack] is
    torch's stacking of a first tensor and the others. *)
Definition torch_stack (stack : T -> list T -> result T) (spikes : list T)
    : result T :=
  match spikes with
  | [] => Raise RuntimeError
  | Y :: rest => stack Y rest
  end.

End PyValues.

Module BasicBlock.

(** The layers that [BasicBlock.__init__] sets: torch layers, the spiking
    cells [lif1] and [lif2] by their identity, and [downsample], which may be
    [None]. *)
Record t (B : Backend) : Type := mk {
  conv1 : Tensor B -> result (Tensor B);
  bn1 : Tensor B -> result (Tensor B);
  lif1 : nat;
  conv2 : Tensor B -> result (Tensor B);
  bn2 : Tensor B -> result (Tensor B);
  downsample : option (Tensor B -> result (Tensor B));
  lif2 : nat
}.

Arguments conv1 {B} _ _.
Arguments bn1 {B} _ _.
Arguments lif1 {B} _.
Arguments conv2 {B} _ _.
Arguments bn2 {B} _ _.
Arguments downsample {B} _.
Arguments lif2 {B} _.

(** [BasicBlock.forward(x, state)]; [iadd] is torch's [out += identity]. *)
Definition forward (B : Backend)
    (iadd : Tensor B -> Tensor B -> result (Tensor B))
    (self : t B) (x : Tensor B) (state : pyval (LIFState B))
    : result (Tensor B * pyval (LIFState B)) :=
  let state := match state with PNone => PTuple [PNone; PNone] | _ => state end in
  let new_state := PTuple [PNone; PNone] in
  let identity := x in
  do out <- conv1 self x;
  do out <- bn1 self out;
  do s <- py_getitem B state 0;
  do '(out, s') <- lif_apply B (lif1 self) out s;
  do new_state <- py_setitem B new_state 0 s';
  do out <- conv2 self out;
  do out <- bn2 self out;
  do identity <-
    match downsample self with
    | Some d => d x
    | None => Ok identity
    end;
  do out <- iadd out identity;
  do s <- py_getitem B state 1;
  do '(out, s') <- lif_apply B (lif2 self) out s;
  do new_state <- py_setitem B new_state 1 s';
  Ok (out, new_state).

End BasicBlock.

Module Bottleneck.

(** The layers that [Bottleneck.__init__] sets. *)
Record t (B : Backend) : Type := mk {
  conv1 : Tensor B -> result (Tensor B);
  bn1 : Tensor B -> result (Tensor B);
  lif1 : nat;
  conv2 : Tensor B -> result (Tensor B);
  bn2 : Tensor B -> result (Tensor B);
  lif2 : nat;
  conv3 : Tensor B -> result (Tensor B);
  bn3 : Tensor B -> result (Tensor B);
  lif3 : nat;
  downsample : option (Tensor B -> result (Tensor B))
}.

Arguments conv1 {B} _ _.
Arguments bn1 {B} _ _.
Arguments lif1 {B} _.
Arguments conv2 {B} _ _.
Arguments bn2 {B} _ _.
Arguments lif2 {B} _.
Arguments conv3 {B} _ _.
Arguments bn3 {B} _ _.
Arguments lif3 {B} _.
Arguments downsample {B} _.

(** [Bottleneck.forward(x, state)]. *)
Definition forward (B : Backend)
    (iadd : Tensor B -> Tensor B -> result (Tensor B))
    (self : t B) (x : Tensor B) (state : pyval (LIFState B))
    : result (Tensor B * pyval (LIFState B)) :=
  let state :=
    match state with PNone => PTuple [PNone; PNone; PNone] | _ => state end in
  let new_state := PTuple [PNone; PNone; PNone] in
  let identity := x in
  do out <- conv1 self x;
  do out <- bn1 self out;
  do s <- py_getitem B state 0;
  do '(out, s') <- lif_apply B (lif1 self) out s;
  do new_state <- py_setitem B new_state 0 s';
  do out <- conv2 self out;
  do out <- bn2 self out;
  do s <- py_getitem B state 1;
  do '(out, s') <- lif_apply B (lif2 self) out s;
  do new_state <- py_setitem B new_state 1 s';
  do out <- conv3 self out;
  do out <- bn3 self out;
  do identity <-
    match downsample self with
    | Some d => d x
    | None => Ok identity
    end;
  do out <- iadd out identity;
  do s <- py_getitem B state 2;
  do '(out, s') <- lif_apply B (lif3 self) out s;
  do new_state <- py_setitem B new_state 2 s';
  Ok (out, new_state).

End Bottleneck.

Module ResNetBackbone.

(** A block of a layer: a [BasicBlock] or a [Bottleneck]. *)
Inductive block (B : Backend) : Type :=
| Basic (b : BasicBlock.t B)
| Bottle (b : Bottleneck.t B).

Arguments Basic {B} b.
Arguments Bottle {B} b.

(** The layers that [ResNetBackbone.__init__] sets and that the forward
    pass uses; [sumpool] is the [SumPool2d] of [models/modules.py]. *)
Record t (B : Backend) : Type := mk {
  conv1 : Tensor B -> result (Tensor B);
  bn1 : Tensor B -> result (Tensor B);
  lif : nat;
  sumpool : module;
  layer1 : list (block B);
  layer2 : list (block B);
  layer3 : list (block B);
  layer4 : list (block B);
  avgpool : Tensor B -> result (Tensor B)
}.

Arguments conv1 {B} _ _.
Arguments bn1 {B} _ _.
Arguments lif {B} _.
Arguments sumpool {B} _.
Arguments layer1 {B} _.
Arguments layer2 {B} _.
Arguments layer3 {B} _.
Arguments layer4 {B} _.
Arguments avgpool {B} _ _.

Section Forward.

Context (B : Backend).

#[local] Abbreviation T := (Tensor B).
#[local] Abbreviation pv := (pyval (LIFState B)).

(** torch's [out += identity], its stacking of one tensor and more, and the
    slices that iterating a tensor yields. *)
Variable iadd : T -> T -> result T.
Variable stack : T -> list T -> result T.
Variable slices : T -> result (list T).

(** [block(out, state)]. *)
Definition call_block (blk : block B) (out : T) (state : pv) : result (T * pv) :=
  match blk with
  | Basic b => BasicBlock.forward B iadd b out state
  | Bottle b => Bottleneck.forward B iadd b out state
  end.

(** The loop of [_process_layer]: [state] is assigned what the block
    returns, and is indexed again for the next block. *)
Fixpoint process_loop (layer : list (block B)) (idx : nat) (out : T) (state : pv)
    (spikes : list T) (new_state : list pv) : result (list T * list pv) :=
  match layer with
  | [] => Ok (spikes, new_state)
  | blk :: rest =>
      do s <- py_getitem B state idx;
      do '(out1, state1) <- call_block blk out s;
      process_loop rest (S idx) out1 state1 (spikes ++ [out1]) (new_state ++ [state1])
  end.

(** [_process_layer(x, layer, state)]. *)
Definition _process_layer (x : T) (layer : list (block B)) (state : pv)
    : result (T * pv) :=
  let state :=
    match state with
    | PNone => PList (replicate (length layer) PNone)
    | _ => state
    end in
  do '(spikes, new_state) <- process_loop layer 0 x state [] [];
  do Y <- torch_stack B stack spikes;
  Ok (Y, PList new_state).

(** The loop of [_forward_impl] over the slices [x] of [X], with the state
    variables [s0] to [s4] and the outputs so far. *)
Fixpoint forward_loop (self : t B) (X : list T) (s0 s1 s2 s3 s4 : pv)
    (spikes : list T) : result (list T) :=
  match X with
  | [] => Ok spikes
  | x :: X' =>
      do x <- conv1 self x;
      do x <- bn1 self x;
      do '(x, s0) <- lif_apply B (lif self) x s0;
      do x <- call B (sumpool self) x;
      do '(x, s1) <- _process_layer x (layer1 self) s1;
      do '(x, s2) <- _process_layer x (layer2 self) s2;
      do '(x, s3) <- _process_layer x (layer3 self) s3;
      do '(x, s4) <- _process_layer x (layer4 self) s4;
      do x <- avgpool self x;
      forward_loop self X' s0 s1 s2 s3 s4 (spikes ++ [x])
  end.

(** [_forward_impl(X)]. *)
Definition _forward_impl (self : t B) (X : T) : result T :=
  do xs <- slices X;
  do spikes <- forward_loop self xs PNone PNone PNone PNone PNone [];
  torch_stack B stack spikes.

(** [forward(x)]. *)
Definition forward (self : t B) (x : T) : result T := _forward_impl self x.

End Forward.

End ResNetBackbone.

(** ** The ResNet backbone: construction

    What the constructors of [models/backbone/resnet.py] build, with the
    torch constructors taken to accept their arguments, [norm_layer] left
    at its default ([nn.BatchNorm2d], kept as its number of features) and
    the initialisation of the weights, which changes no layer, left out. *)

(** The arguments of an [nn.Conv2d] ([bias] is [False] throughout). *)
Inductive nn_Conv2d : Type :=
| mk_Conv2d (in_channels out_channels kernel_size stride padding groups dilation : Z).

Definition conv3x3 (in_planes out_planes stride groups dilation : Z) : nn_Conv2d :=
  mk_Conv2d in_planes out_planes 3 stride dilation groups dilation.

Definition conv1x1 (in_planes out_planes stride : Z) : nn_Conv2d :=
  mk_Conv2d in_planes out_planes 1 stride 0 1 1.

(** The two classes of residual blocks and their class attribute
    [expansion]. *)
Inductive block_class : Type := BasicBlockClass | BottleneckClass.

Definition expansion (block : block_class) : Z :=
  match block with
  | BasicBlockClass => 1
  | BottleneckClass => 4
  end.

(** A constructed block: its convolutions, its normalisations, its
    [downsample] (a convolution and a normalisation, or [None]) and its
    [stride]. *)
Inductive res_block : Type :=
| mk_BasicBlock (conv1 : nn_Conv2d) (bn1 : Z) (conv2 : nn_Conv2d) (bn2 : Z)
                (downsample : option (nn_Conv2d * Z)) (stride : Z)
| mk_Bottleneck (conv1 : nn_Conv2d) (bn1 : Z) (conv2 : nn_Conv2d) (bn2 : Z)
                (conv3 : nn_Conv2d) (bn3 : Z)
                (downsample : option (nn_Conv2d * Z)) (stride : Z).

(** [BasicBlock.__init__]. *)
Definition BasicBlock_init (inplanes planes stride : Z)
    (downsample : option (nn_Conv2d * Z)) (groups base_width dilation : Z)
    : result res_block :=
  if decide (groups <> 1 \/ base_width <> 64) then Raise ValueError
  else if decide (1 < dilation) then Raise NotImplementedError
  else Ok (mk_BasicBlock (conv3x3 inplanes planes stride 1 1) planes
                         (conv3x3 planes planes 1 1 1) planes downsample stride).

(** [Bottleneck.__init__]; [width] is
    [int(planes * (base_width / 64.0)) * groups], the product taken to be
    exact. *)
Definition Bottleneck_init (inplanes planes stride : Z)
    (downsample : option (nn_Conv2d * Z)) (groups base_width dilation : Z)
    : result res_block :=
  let width := Z.quot (planes * base_width) 64 * groups in
  Ok (mk_Bottleneck (conv1x1 inplanes width 1) width
                    (conv3x3 width width stride groups dilation) width
                    (conv1x1 width (planes * 4) 1) (planes * 4) downsample stride).

Definition block_init (block : block_class) :=
  match block with
  | BasicBlockClass => BasicBlock_init
  | BottleneckClass => Bottleneck_init
  end.

(** The loop [for _ in range(1, blocks)] of [_make_layer], [k] blocks to
    go. *)
Fixpoint more_blocks (block : block_class) (k : nat)
    (inplanes planes groups base_width dilation : Z) : result (list res_block) :=
  match k with
  | O => Ok []
  | S k' =>
      do b <- block_init block inplanes planes 1 None groups base_width dilation;
      do bs <- more_blocks block k' inplanes planes groups base_width dilation;
      Ok (b :: bs)
  end.

(** [_make_layer(block, planes, blocks, stride, dilate)], on the attributes
    [inplanes], [dilation], [groups] and [base_width] of [self]; it returns
    the blocks and the new [inplanes] and [dilation]. *)
Definition _make_layer (block : block_class) (groups base_width : Z)
    (inplanes dilation : Z) (planes blocks stride : Z) (dilate : bool)
    : result (list res_block * Z * Z) :=
  let previous_dilation := dilation in
  let '(dilation, stride) :=
    if dilate then (dilation * stride, 1) else (dilation, stride) in
  let downsample :=
    if decide (stride <> 1 \/ inplanes <> planes * expansion block)
    then Some (conv1x1 inplanes (planes * expansion block) stride,
               planes * expansion block)
    else None in
  do first <- block_init block inplanes planes stride downsample groups base_width
                         previous_dilation;
  let inplanes := planes * expansion block in
  do rest <- more_blocks block (Z.to_nat (blocks - 1)) inplanes planes groups
                         base_width dilation;
  Ok (first :: rest, inplanes, dilation).

(** [ResNetBackbone.cfgs]: block class, blocks per layer, groups, width per
    group. *)
Definition ResNetBackbone_cfgs : list (string * (block_class * list Z * Z * Z)) :=
  [("18", (BasicBlockClass, [2; 2; 2; 2], 1, 64));
   ("34", (BasicBlockClass, [3; 4; 6; 3], 1, 64));
   ("50", (BottleneckClass, [3; 4; 6; 3], 1, 64));
   ("101", (BottleneckClass, [3; 4; 23; 3], 1, 64));
   ("152", (BottleneckClass, [3; 8; 36; 3], 1, 64));
   ("50_32x4d", (BottleneckClass, [3; 4; 6; 3], 32, 4));
   ("101_32x8d", (BottleneckClass, [3; 4; 23; 3], 32, 8));
   ("101_64x4d", (BottleneckClass, [3; 4; 23; 3], 64, 4));
   ("50_2", (BottleneckClass, [3; 4; 6; 3], 1, 64 * 2));
   ("101_2", (BottleneckClass, [3; 4; 23; 3], 1, 64 * 2))]%string.

(** What [ResNetBackbone.__init__] sets. *)
Record ResNetBackbone_layers : Type := mk_ResNetBackbone {
  rn_conv1 : nn_Conv2d;
  rn_bn1 : Z;
  rn_sumpool : Z * Z * Z;
  rn_layer1 : list res_block;
  rn_layer2 : list res_block;
  rn_layer3 : list res_block;
  rn_layer4 : list res_block;
  rn_fc : Z * Z;
  rn_inplanes : Z;
  rn_dilation : Z
}.

(** [seq[i]] on a Python list. *)
Definition list_getitem {A : Type} (l : list A) (i : nat) : result A :=
  match l !! i with
  | Some a => Ok a
  | None => Raise IndexError
  end.

(** [ResNetBackbone.__init__(type, num_classes, replace_stride_with_dilation)]. *)
Definition ResNetBackbone_init (type : string) (num_classes : Z)
    (replace_stride_with_dilation : option (list bool))
    : result ResNetBackbone_layers :=
  match (list_to_map ResNetBackbone_cfgs : gmap string _) !! type with
  | None => Raise (KeyError type)
  | Some (block, layers, groups, width_per_group) =>
      let inplanes := 64 in
      let dilation := 1 in
      let replace_stride_with_dilation :=
        match replace_stride_with_dilation with
        | None => [false; false; false]
        | Some l => l
        end in
      if decide (length replace_stride_with_dilation <> 3%nat) then Raise ValueError
      else
        let conv1 := mk_Conv2d 3 inplanes 7 2 3 1 1 in
        let bn1 := inplanes in
        let sumpool := (3, 2, 1) in
        do n0 <- list_getitem layers 0;
        do '(layer1, inplanes, dilation) <-
          _make_layer block groups width_per_group inplanes dilation 64 n0 1 false;
        do n1 <- list_getitem layers 1;
        do d0 <- list_getitem replace_stride_with_dilation 0;
        do '(layer2, inplanes, dilation) <-
          _make_layer block groups width_per_group inplanes dilation 128 n1 2 d0;
        do n2 <- list_getitem layers 2;
        do d1 <- list_getitem replace_stride_with_dilation 1;
        do '(layer3, inplanes, dilation) <-
          _make_layer block groups width_per_group inplanes dilation 256 n2 2 d1;
        do n3 <- list_getitem layers 3;
        do d2 <- list_getitem replace_stride_with_dilation 2;
        do '(layer4, inplanes, dilation) <-
          _make_layer block groups width_per_group inplanes dilation 512 n3 2 d2;
        Ok (mk_ResNetBackbone conv1 bn1 sumpool layer1 layer2 layer3 layer4
                              (512 * expansion block, num_classes) inplanes dilation)
  end.

(** The channels of a constructed block: the count it was built for, and
    the count it gives, when its layers fit one another and what
    [out += identity] adds has the channels and the stride of [out]. *)
Definition conv_fits (c : nn_Conv2d) (i : Z) : option Z :=
  match c with
  | mk_Conv2d in_channels out_channels _ _ _ _ _ =>
      if decide (in_channels = i) then Some out_channels else None
  end.

Definition conv_stride (c : nn_Conv2d) : Z :=
  match c with mk_Conv2d _ _ _ stride _ _ _ => stride end.

(** The product of the strides on the path of [out], and the channels that
    leave it. *)
Definition main_path (b : res_block) (i : Z) : option (Z * Z) :=
  match b with
  | mk_BasicBlock conv1 bn1 conv2 bn2 _ _ =>
      c1 ← conv_fits conv1 i;
      (if decide (bn1 = c1) then Some tt else None) ≫= fun _ =>
      c2 ← conv_fits conv2 c1;
      (if decide (bn2 = c2) then Some tt else None) ≫= fun _ =>
      Some (c2, conv_stride conv1 * conv_stride conv2)
  | mk_Bottleneck conv1 bn1 conv2 bn2 conv3 bn3 _ _ =>
      c1 ← conv_fits conv1 i;
      (if decide (bn1 = c1) then Some tt else None) ≫= fun _ =>
      c2 ← conv_fits conv2 c1;
      (if decide (bn2 = c2) then Some tt else None) ≫= fun _ =>
      c3 ← conv_fits conv3 c2;
      (if decide (bn3 = c3) then Some tt else None) ≫= fun _ =>
      Some (c3, conv_stride conv1 * conv_stride conv2 * conv_stride conv3)
  end.

(** The channels and the stride of [identity]. *)
Definition identity_path (b : res_block) (i : Z) : option (Z * Z) :=
  match b with
  | mk_BasicBlock _ _ _ _ downsample _
  | mk_Bottleneck _ _ _ _ _ _ downsample _ =>
      match downsample with
      | None => Some (i, 1)
      | Some (c, bn) =>
          co ← conv_fits c i;
          if decide (bn = co) then Some (co, conv_stride c) else None
      end
  end.

(** [block_fits b i]: built for [i] channels, the block adds an [identity]
    of the channels and the stride of [out]; the channels that leave it. *)
Definition block_fits (b : res_block) (i : Z) : option Z :=
  '(co, so) ← main_path b i;
  '(ci, si) ← identity_path b i;
  if decide (co = ci /\ so = si) then Some co else None.

(** The blocks of a layer fit one after the other. *)
Fixpoint layer_fits (layer : list res_block) (i : Z) : option Z :=
  match layer with
  | [] => Some i
  | b :: layer' => o ← block_fits b i; layer_fits layer' o
  end.

(** ** Anchor boxes ([utils/anchors.py])

    The arithmetic is Python's and torch's: [F] stands for the Python
    floats, [R] for the elements of the tensors, and every operation on them
    is a function of its own. *)

Section AnchorGenerator.

Context {F R : Type}.

(** [1.0 / n] for an integer [n] (it raises for 0), [0.5], the element of
    [torch.tensor], the element [i] of [torch.arange(n) + f], and the
    operations between tensors, floats and integers. *)
Variable inv_int : nat -> result F.
Variable half : F.
Variable tensor : F -> R.
Variable arange_plus : nat -> F -> R.
Variable tmul_f : R -> F -> R.
Variable fmul_t : F -> R -> R.
Variable fdiv_t : F -> R -> R.
Variable tmul : R -> R -> R.
Variable tdiv : R -> R -> R.
Variable tadd : R -> R -> R.
Variable tneg : R -> R.
Variable tsqrt : R -> R.
Variable tmul_int : R -> nat -> R.
Variable tdiv_int : R -> nat -> R.

(** [(torch.arange(n) + 0.5) * steps]. *)
Definition centers (n : nat) (steps : F) : list R :=
  map (fun i => tmul_f (arange_plus i half) steps) (seq 0 n).

(** The rows [(-w, -h, w, h)] of [torch.stack((-w, -h, w, h)).T]. *)
Definition half_boxes (w h : list R) : list (list R) :=
  zip_with (fun wk hk => [tneg wk; tneg hk; wk; hk]) w h.

(** [cal_anchors(X)] as a function of [self.sizes], [self.ratios] and the
    shape of [X]; what it assigns to [self.anchors], as the list of its
    rows. *)
Definition cal_anchors (sizes ratios : list F) (shape : list nat)
    : result (list (list R)) :=
  match rev shape with
  | in_width :: in_height :: _ =>
      let num_sizes := length sizes in
      let num_ratios := length ratios in
      let boxes_per_pixel := (num_sizes + num_ratios - 1)%nat in
      let size_tensor := map tensor sizes in
      let ratio_tensor := map tensor ratios in
      do steps_h <- inv_int in_height;
      do steps_w <- inv_int in_width;
      let center_h := centers in_height steps_h in
      let center_w := centers in_width steps_w in
      let shift_y := flat_map (fun cy => map (fun _ => cy) center_w) center_h in
      let shift_x := flat_map (fun _ => center_w) center_h in
      do r0 <- list_getitem ratio_tensor 0;
      do s0 <- list_getitem sizes 0;
      let w :=
        map (fun x => tdiv_int (tmul_int x in_height) in_width)
            (map (fun s => tmul s (tsqrt r0)) size_tensor
             ++ map (fun r => fmul_t s0 (tsqrt r)) (drop 1 ratio_tensor)) in
      do r0' <- list_getitem ratio_tensor 0;
      do s0' <- list_getitem sizes 0;
      let h :=
        map (fun s => tdiv s (tsqrt r0')) size_tensor
        ++ map (fun r => fdiv_t s0' (tsqrt r)) (drop 1 ratio_tensor) in
      let anchor_manipulations :=
        map (map (fun x => tdiv_int x 2))
            (concat (replicate (in_height * in_width) (half_boxes w h))) in
      let out_grid :=
        flat_map (fun '(sx, sy) => replicate boxes_per_pixel [sx; sy; sx; sy])
                 (zip shift_x shift_y) in
      Ok (zip_with (zip_with tadd) out_grid anchor_manipulations)
  | _ => Raise ValueError
  end.

(** [__call__(X)]: [anchors] is the attribute of that name, [None] while
    it is not set. *)
Definition AnchorGenerator_call (sizes ratios : list F)
    (anchors : option (list (list R))) (shape : list nat)
    : result (list (list R) * option (list (list R))) :=
  do anchors <-
    match anchors with
    | None => do a <- cal_anchors sizes ratios shape; Ok (Some a)
    | Some _ => Ok anchors
    end;
  match anchors with
  | Some a => Ok (a, anchors)
  | None => Raise AttributeError
  end.

(** Calls one after the other, each on the attribute that the call before
    has left. *)
Fixpoint AnchorGenerator_calls (sizes ratios : list F)
    (anchors : option (list (list R))) (shapes : list (list nat))
    : result (list (list (list R))) :=
  match shapes with
  | [] => Ok []
  | shape :: shapes' =>
      do '(a, anchors') <- AnchorGenerator_call sizes ratios anchors shape;
      do rest <- AnchorGenerator_calls sizes ratios anchors' shapes';
      Ok (a :: rest)
  end.

End AnchorGenerator.

(** An arithmetic of integers for the examples: every float and every
    tensor element is an integer, [1.0 / n] is 1 (it raises for 0) and a
    square root is the number itself. *)
Definition example_inv (n : nat) : result Z :=
  match n with
  | O => Raise Unmodelled
  | S _ => Ok 1
  end.

Definition example_cal_anchors : list Z -> list Z -> list nat -> result (list (list Z)) :=
  cal_anchors example_inv 0 id (fun i f => Z.of_nat i + f) Z.mul Z.mul Z.mul
              Z.mul Z.mul Z.add Z.opp id
              (fun x n => x * Z.of_nat n) (fun x n => x * Z.of_nat n).

Definition example_anchor_calls
    : list Z -> list Z -> option (list (list Z)) -> list (list nat) ->
      result (list (list (list Z))) :=
  AnchorGenerator_calls example_inv 0 id (fun i f => Z.of_nat i + f) Z.mul Z.mul Z.mul
                        Z.mul Z.mul Z.add Z.opp id
                        (fun x n => x * Z.of_nat n) (fun x n => x * Z.of_nat n).

(** ** The progress board ([utils/progress_board.py])

    The board keeps its points in dictionaries and draws with matplotlib.
    The calls made on matplotlib are kept in a log, in their order; what
    [get_xlim] and [get_ylim] answer is a function of that log. *)

Inductive plt_call (N : Type) : Type :=
| plt_ion
| plt_subplots (figsize : Z * Z)
| set_xlabel (xlabel : option string)
| set_ylabel (ylabel : option string)
| set_xscale (xscale : string)
| set_yscale (yscale : string)
| axes_plot (x y : N) (linestyle color : string)
| set_xdata (label : string) (xs : list N)
| set_ydata (label : string) (ys : list N)
| set_xlim (left right : N)
| set_ylim (bottom top : N)
| axes_legend (labels : list string)
| canvas_draw
| flush_events.

Arguments plt_ion {N}.
Arguments plt_subplots {N} figsize.
Arguments set_xlabel {N} xlabel.
Arguments set_ylabel {N} ylabel.
Arguments set_xscale {N} xscale.
Arguments set_yscale {N} yscale.
Arguments axes_plot {N} x y linestyle color.
Arguments set_xdata {N} label xs.
Arguments set_ydata {N} label ys.
Arguments set_xlim {N} left right.
Arguments set_ylim {N} bottom top.
Arguments axes_legend {N} labels.
Arguments canvas_draw {N}.
Arguments flush_events {N}.

(** The attributes of a board: [raw_points] and [data] map a label to its
    list of points, [lines] maps a label to its line, here the line style
    and the colour it was plotted with, in the order of insertion.  With
    [display] false the three dictionaries are never made, and never
    read. *)
Record ProgressBoard (N : Type) : Type := mk_ProgressBoard {
  ls : list string;
  colors : list string;
  display : bool;
  every_n : Z;
  raw_points : gmap string (list (N * N));
  data : gmap string (list (N * N));
  lines : list (string * (string * string));
  plt_calls : list (plt_call N)
}.

Arguments mk_ProgressBoard {N} _ _ _ _ _ _ _ _.
Arguments ls {N} _.
Arguments colors {N} _.
Arguments display {N} _.
Arguments every_n {N} _.
Arguments raw_points {N} _.
Arguments data {N} _.
Arguments lines {N} _.
Arguments plt_calls {N} _.

(** [d[key]] on a dictionary. *)
Definition dict_getitem {A : Type} (d : gmap string A) (key : string) : result A :=
  match d !! key with
  | Some a => Ok a
  | None => Raise (KeyError key)
  end.

Section ProgressBoard.

(** The numbers that are plotted, with Python's [sum(x)], the division by
    a length, [>] and [<]; what matplotlib answers to [get_xlim()] and
    [get_ylim()] after the calls made so far. *)
Context {N : Type}.
Variable sum_ : list N -> N.
Variable div_len : N -> nat -> N.
Variable gt : N -> N -> bool.
Variable lt : N -> N -> bool.
Variable get_xlim : list (plt_call N) -> N * N.
Variable get_ylim : list (plt_call N) -> N * N.

(** [ProgressBoard(xlabel, ylabel, ylim, xscale, yscale, ls, colors,
    figsize, display, every_n)]. *)
Definition ProgressBoard_init (xlabel ylabel : option string) (ylim : N * N)
    (xscale yscale : string) (ls colors : list string) (figsize : Z * Z)
    (display : bool) (every_n : Z) : ProgressBoard N :=
  if negb display then mk_ProgressBoard ls colors display every_n ∅ ∅ [] []
  else
    mk_ProgressBoard ls colors display every_n ∅ ∅ []
      [plt_ion; plt_subplots figsize; set_xlabel xlabel; set_ylabel ylabel;
       set_xscale xscale; set_yscale yscale; set_ylim ylim.2 ylim.1].

(** [mean = lambda x: sum(x) / len(x)]. *)
Definition mean (x : list N) : N := div_len (sum_ x) (length x).

(** [seq[-1]] on a Python list. *)
Definition list_last {A : Type} (l : list A) : result A :=
  match last l with
  | Some a => Ok a
  | None => Raise IndexError
  end.

(** [draw(x, y, label)]: the board after the call. *)
Definition draw (self : ProgressBoard N) (x y : N) (label : string)
    : result (ProgressBoard N) :=
  if negb (display self) then Ok self
  else
    let '(raw, dat) :=
      if decide (label ∈ dom (raw_points self)) then (raw_points self, data self)
      else (<[label := []]> (raw_points self), <[label := []]> (data self)) in
    do points <- dict_getitem raw label;
    do linep <- dict_getitem dat label;
    let points := points ++ [(x, y)] in
    let raw := <[label := points]> raw in
    if decide (Z.of_nat (length points) <> every_n self) then
      Ok (mk_ProgressBoard (ls self) (colors self) (display self) (every_n self)
                           raw dat (lines self) (plt_calls self))
    else
      let linep := linep ++ [(mean (points.*1), mean (points.*2))] in
      let dat := <[label := linep]> dat in
      let raw := <[label := []]> raw in
      if decide (label ∈ (lines self).*1) then
        let line_calls :=
          [set_xdata label (linep.*1); set_ydata label (linep.*2);
           set_ydata label (linep.*2)] in
        let calls := plt_calls self ++ line_calls in
        let '(left_, right_) := get_xlim calls in
        do p <- list_last linep;
        let calls :=
          calls ++ [set_xlim (if gt p.1 left_ then left_ else p.1)
                             (if lt p.1 right_ then right_ else p.1)] in
        let '(bottom, top) := get_ylim calls in
        let calls :=
          calls ++ [set_ylim (if gt p.2 bottom then bottom else p.2)
                             (if lt p.2 top then top else p.2);
                    axes_legend ((lines self).*1); canvas_draw; flush_events] in
        Ok (mk_ProgressBoard (ls self) (colors self) (display self) (every_n self)
                             raw dat (lines self) calls)
      else
        do p0 <- list_getitem linep 0;
        do linestyle <- list_getitem (ls self) (length (lines self) mod 4);
        do color <- list_getitem (colors self) (length (lines self) mod 4);
        Ok (mk_ProgressBoard (ls self) (colors self) (display self) (every_n self)
                             raw dat (lines self ++ [(label, (linestyle, color))])
                             (plt_calls self ++ [axes_plot p0.1 p0.2 linestyle color])).

(** Calls of [draw] one after the other. *)
Fixpoint draws (self : ProgressBoard N) (calls : list (N * N * string))
    : result (ProgressBoard N) :=
  match calls with
  | [] => Ok self
  | (x, y, label) :: calls' =>
      do self' <- draw self x y label;
      draws self' calls'
  end.

End ProgressBoard.

(** The points drawn under [label], in the order of the calls. *)
Definition points_of {N : Type} (label : string) (calls : list (N * N * string))
    : list (N * N) :=
  omap (fun c => if decide (c.2 = label) then Some c.1 else None) calls.

(** A board of integers for the examples: the mean is the integer quotient
    of the sum, and matplotlib always answers the limits 0 and 100. *)
Definition example_board (display : bool) (every_n : Z) : ProgressBoard Z :=
  ProgressBoard_init (Some "x"%string) (Some "y"%string) (100, 0)
                     "linear"%string "linear"%string
                     ["-"; "--"; "-."; ":"]%string ["C0"; "C1"; "C2"; "C3"]%string
                     (6, 6) display every_n.

Definition example_draws : ProgressBoard Z -> list (Z * Z * string) ->
                           result (ProgressBoard Z) :=
  draws (foldr Z.add 0) (fun s n => s `div` Z.of_nat n) Z.gtb Z.ltb
        (fun _ => (0, 100)) (fun _ => (0, 100)).

Definition example_calls : list (Z * Z * string) :=
  [(1, 10, "a"); (7, 70, "b"); (3, 30, "a"); (5, 50, "a"); (9, 90, "b")]%string.

(** * Lemmas and theorems *)

Lemma bind_Ok_inv {A B : Type} (r : result A) (k : A -> result B) (b : B) :
  bind r k = Ok b -> exists a, r = Ok a /\ k a = Ok b.
Proof. destruct r as [a|e]; simpl; [eauto | discriminate]. Qed.

(** ** Facts about [rep] *)

Section RepFacts.

Context (B : Backend).

#[local] Abbreviation val := (value (LIFState B)).
#[local] Abbreviation tr := (tree (LIFState B)).
#[local] Abbreviation store := (list (list val)).

Lemma rep_reps_valid (h : store) :
  (forall v t F, rep B h v t F -> forall l, l ∈ F -> (l < length h)%nat) /\
  (forall vs ts F, reps B h vs ts F -> forall l, l ∈ F -> (l < length h)%nat).
Proof.
  split.
  - intros v t F H.
    induction H using rep_mut with
      (P0 := fun vs ts F _ => forall l, l ∈ F -> (l < length h)%nat);
      intros l0 Hl0; try set_solver.
    rewrite elem_of_union, elem_of_singleton in Hl0.
    destruct Hl0 as [->|Hl0]; [by eapply lookup_lt_Some|by auto].
  - intros vs ts F H.
    induction H using reps_mut with
      (P := fun v t F _ => forall l, l ∈ F -> (l < length h)%nat);
      intros l0 Hl0; try set_solver.
    rewrite elem_of_union, elem_of_singleton in Hl0.
    destruct Hl0 as [->|Hl0]; [by eapply lookup_lt_Some|by auto].
Qed.

Lemma rep_valid (h : store) v t F l :
  rep B h v t F -> l ∈ F -> (l < length h)%nat.
Proof. intros H. by apply (proj1 (rep_reps_valid h) _ _ _ H). Qed.

Lemma reps_valid (h : store) vs ts F l :
  reps B h vs ts F -> l ∈ F -> (l < length h)%nat.
Proof. intros H. by apply (proj2 (rep_reps_valid h) _ _ _ H). Qed.

(** A tree does not change when the store changes elsewhere. *)
Lemma rep_reps_frame (h h' : store) :
  (forall v t F, rep B h v t F ->
     (forall l, l ∈ F -> h' !! l = h !! l) -> rep B h' v t F) /\
  (forall vs ts F, reps B h vs ts F ->
     (forall l, l ∈ F -> h' !! l = h !! l) -> reps B h' vs ts F).
Proof.
  split.
  - intros v t F H.
    induction H using rep_mut with
      (P0 := fun vs ts F _ =>
               (forall l, l ∈ F -> h' !! l = h !! l) -> reps B h' vs ts F);
      intros Hfr; try (by constructor).
    + apply rep_list with (vs := vs); [|apply IHrep; set_solver|done].
      rewrite Hfr; [done|set_solver].
    + constructor; [apply IHrep|apply IHrep0|done]; set_solver.
  - intros vs ts F H.
    induction H using reps_mut with
      (P := fun v t F _ =>
              (forall l, l ∈ F -> h' !! l = h !! l) -> rep B h' v t F);
      intros Hfr; try (by constructor).
    + apply rep_list with (vs := vs); [|apply IHreps; set_solver|done].
      rewrite Hfr; [done|set_solver].
    + constructor; [apply IHreps|apply IHreps0|done]; set_solver.
Qed.

Lemma rep_frame (h h' : store) v t F :
  rep B h v t F -> (forall l, l ∈ F -> h' !! l = h !! l) -> rep B h' v t F.
Proof. apply rep_reps_frame. Qed.

Lemma reps_frame (h h' : store) vs ts F :
  reps B h vs ts F -> (forall l, l ∈ F -> h' !! l = h !! l) -> reps B h' vs ts F.
Proof. apply rep_reps_frame. Qed.

Lemma reps_length (h : store) vs ts F :
  reps B h vs ts F -> length vs = length ts.
Proof. induction 1; simpl; congruence. Qed.

Lemma reps_replicate (h : store) n :
  reps B h (replicate n VNone) (replicate n TNone) ∅.
Proof.
  induction n as [|n IH]; simpl; [constructor|].
  replace (∅ : gset loc) with ((∅ : gset loc) ∪ ∅) by set_solver.
  constructor; [constructor|done|set_solver].
Qed.

(** Taking one slot out of a list of trees, and putting a tree back. *)
Lemma reps_focus (h : store) vs ts F i v :
  reps B h vs ts F -> vs !! i = Some v ->
  exists t Fv Fr,
    ts !! i = Some t /\ rep B h v t Fv /\ Fv ## Fr /\ F = Fv ∪ Fr /\
    forall (h' : store) v' t' Fv',
      rep B h' v' t' Fv' -> Fv' ## Fr ->
      (forall l, l ∈ Fr -> h' !! l = h !! l) ->
      reps B h' (<[i := v']> vs) (<[i := t']> ts) (Fv' ∪ Fr).
Proof.
  intros H. revert i. induction H as [|v0 t0 Fv0 vs ts F Hv Hvs IH Hd]; intros i Hi.
  - done.
  - destruct i as [|i]; simpl in Hi.
    + injection Hi as ->. exists t0, Fv0, F. repeat split; try done.
      intros h' v' t' Fv' Hv' Hd' Hfr. simpl. constructor; [done| |done].
      by eapply reps_frame.
    + destruct (IH i Hi) as (t & Fv & Fr & Ht & Hrep & Hdis & -> & Hput).
      exists t, Fv, (Fv0 ∪ Fr). repeat split; try done; [set_solver|set_solver|].
      intros h' v' t' Fv' Hv' Hd' Hfr. simpl.
      replace (Fv' ∪ (Fv0 ∪ Fr)) with (Fv0 ∪ (Fv' ∪ Fr)) by set_solver.
      constructor; [|apply Hput; set_solver|set_solver].
      eapply rep_frame; [done|]. intros l Hl. apply Hfr. set_solver.
Qed.

Lemma reps_lookup_None (h : store) vs ts F i :
  reps B h vs ts F -> vs !! i = None -> ts !! i = None.
Proof.
  intros H Hi. apply lookup_ge_None. apply lookup_ge_None in Hi.
  by rewrite <- (reps_length _ _ _ _ H).
Qed.

End RepFacts.

(** ** The forward pass on the store and on trees agree

    When the incoming container is a tree in the store (no list object at
    two places), [forward] computes the tensor of [forward_t], leaves the
    tree of [forward_t] in the store, and touches no list outside the
    container. *)

Section Refinement.

Context (B : Backend).

#[local] Abbreviation T := (Tensor B).
#[local] Abbreviation val := (value (LIFState B)).
#[local] Abbreviation tr := (tree (LIFState B)).
#[local] Abbreviation store := (list (list val)).

Lemma call_state_refines (layer : module) (Y : T) (old : val) (h : store) t F :
  on_block (refines B) layer -> rep B h old t F ->
  sim_forward B h F (call_state B (forward B) layer Y old h)
                  (call_state_t B (forward_t B) layer Y t).
Proof.
  intros Hl Hrep. destruct layer; simpl; try done.
  - inversion Hrep; subst; simpl; try done.
    + destruct (lif_call B oid Y None) as [[Y1 s1]|e]; simpl; [|done].
      exists (TState s1), ∅. split_and!; [done|constructor|lia|done|done].
    + destruct (lif_call B oid Y (Some s)) as [[Y1 s1]|e]; simpl; [|done].
      exists (TState s1), ∅. split_and!; [done|constructor|lia|done|done].
  - by apply Hl.
Qed.

Lemma run_layers_refines (branch : list module) :
  Forall (on_block (refines B)) branch ->
  forall flags idx Y (h : store) bs tb F,
    rep B h bs tb F ->
    sim_layers B h bs F (run_layers B (forward B) bs branch flags idx Y h)
                      (run_layers_t B (forward_t B) branch flags idx Y tb).
Proof.
  induction 1 as [|layer branch Hl Hbr IH]; intros flags idx Y h bs tb F Hrep.
  { simpl. exists tb, F. split_and!; [done|done|lia|by left|done]. }
  destruct flags as [|is_state flags]; simpl.
  { exists tb, F. split_and!; [done|done|lia|by left|done]. }
  destruct is_state.
  2:{ destruct (call B layer Y) as [Y1|e]; simpl; [|done]. by apply IH. }
  inversion Hrep as [| s | l vs ts F0 Hl0 Hvs Hnin]; subst; simpl; try done.
  rewrite Hl0. destruct (vs !! idx) as [old|] eqn:Hidx.
  2:{ by rewrite (reps_lookup_None _ _ _ _ _ _ Hvs Hidx). }
  destruct (reps_focus _ _ _ _ _ _ _ Hvs Hidx)
    as (t & Fv & Fr & Ht & Hrv & Hdis & -> & Hput).
  rewrite Ht. simpl.
  pose proof (call_state_refines layer Y old h t Fv Hl Hrv) as Hc.
  destruct (call_state B (forward B) layer Y old h) as [[[Y1 new] h1]|e];
    simpl in *; [|by rewrite Hc].
  destruct Hc as (t1 & F1 & -> & Hr1 & Hlen1 & Hg1 & Hf1). simpl.
  assert (l < length h)%nat as Hlh by (by eapply lookup_lt_Some).
  assert (forall x, x ∈ Fr -> (x < length h)%nat) as HvalFr.
  { intros x Hx. eapply reps_valid; [exact Hvs|set_solver]. }
  assert (h1 !! l = Some vs) as Hl1.
  { rewrite Hf1; [done|done|set_solver]. }
  rewrite Hl1.
  assert (idx < length vs)%nat as Hidxlt by (by eapply lookup_lt_Some).
  rewrite decide_True by done. simpl.
  rewrite decide_True by (by rewrite <- (reps_length _ _ _ _ _ Hvs)). simpl.
  assert (forall x, x ∈ F1 -> x ≠ l /\ x ∉ Fr) as HF1.
  { intros x Hx. destruct (Hg1 x Hx) as [Hin|Hge].
    - split; set_solver.
    - split; [lia|]. intros Hxr. apply HvalFr in Hxr. lia. }
  set (h2 := <[l := <[idx := new]> vs]> h1).
  assert (rep B h2 (VList l) (TList (<[idx := t1]> ts)) ({[l]} ∪ (F1 ∪ Fr)))
    as Hrep2.
  { apply rep_list with (vs := <[idx := new]> vs).
    - apply list_lookup_insert_eq. lia.
    - apply Hput.
      + eapply rep_frame; [done|]. intros x Hx.
        apply list_lookup_insert_ne. by destruct (HF1 x Hx) as [? _].
      + intros x Hx1 Hx2. by destruct (HF1 x Hx1) as [_ ?].
      + intros x Hx. unfold h2. rewrite list_lookup_insert_ne by set_solver.
        apply Hf1; [by apply HvalFr|set_solver].
    - intros Hin. apply elem_of_union in Hin as [Hin|Hin]; [|set_solver].
      by destruct (HF1 l Hin) as [? _]. }
  specialize (IH flags (S idx) Y1 h2 (VList l) _ _ Hrep2).
  assert (length h2 = length h1) as Hlen2 by apply length_insert.
  destruct (run_layers B (forward B) (VList l) branch flags (S idx) Y1 h2)
    as [[Y' h']|e]; simpl in *; [|done].
  destruct IH as (tb' & F' & Heq & Hr' & Hlen' & Hg' & Hf').
  exists tb', F'. split_and!; [done|done|lia| |].
  - intros x Hx. destruct (Hg' x Hx) as [Hin|Hge]; [|right; lia].
    apply elem_of_union in Hin as [Hin|Hin]; [left; set_solver|].
    apply elem_of_union in Hin as [Hin|Hin]; [|left; set_solver].
    destruct (Hg1 x Hin); [left; set_solver|by right].
  - intros x Hx Hnx. rewrite Hf'; [|lia|].
    + unfold h2. rewrite list_lookup_insert_ne by set_solver.
      apply Hf1; [done|set_solver].
    + intros Hin. apply elem_of_union in Hin as [Hin|Hin]; [set_solver|].
      apply elem_of_union in Hin as [Hin|Hin]; [|set_solver].
      destruct (Hg1 x Hin); [set_solver|lia].
Qed.

Lemma lookup_replicate_decide {A : Type} (x : A) (n i : nat) :
  replicate n x !! i = if decide (i < n)%nat then Some x else None.
Proof.
  case_decide.
  - by apply lookup_replicate_2.
  - apply lookup_replicate_None. lia.
Qed.

Lemma state_next_at (h : store) state n es i :
  entries_at B h state n es -> state_next B h state n i = Ok (es !! i).
Proof.
  destruct state; simpl; [intros ->|done|intros ->; done].
  by rewrite lookup_replicate_decide.
Qed.

Lemma state_next_t_at (state : tr) n tes i :
  entries_t B state n tes -> state_next_t B state n i = Ok (tes !! i).
Proof.
  destruct state; simpl; [intros ->|done|intros ->; done].
  by rewrite lookup_replicate_decide.
Qed.

Lemma drop_cons_inv {A : Type} (l : list A) i x l' :
  drop i l = x :: l' -> l !! i = Some x /\ drop (S i) l = l'.
Proof.
  revert l. induction i as [|i IH]; intros [|y l]; simpl; try done.
  - intros [= -> ->]. split; [done|by rewrite drop_0].
  - apply IH.
Qed.

Lemma branch_state_or_new_rep (h : store) (branch : list module) e te Fe :
  rep B h e te Fe ->
  exists Fb,
    rep B (branch_state_or_new B h branch e).2 (branch_state_or_new B h branch e).1
        (branch_state_or_new_t B branch te) Fb /\
    (length h <= length (branch_state_or_new B h branch e).2)%nat /\
    grown B h Fe Fb /\
    frame B h (branch_state_or_new B h branch e).2 ∅ /\
    reused B e (branch_state_or_new B h branch e).1.
Proof.
  intros Hrep. inversion Hrep as [| s | l vs ts F0 Hl0 Hvs Hnin]; subst; simpl.
  - exists ({[length h]} ∪ ∅). split_and!.
    + apply rep_list with (vs := replicate (length branch) VNone).
      * by apply list_lookup_middle.
      * apply reps_replicate.
      * set_solver.
    + rewrite length_app. lia.
    + intros x Hx. right. assert (x = length h) as -> by set_solver. lia.
    + intros x Hx _. by apply lookup_app_l.
    + by left.
  - exists ∅. split_and!; [constructor|lia|done|done|by right].
  - exists ({[l]} ∪ F0). split_and!; [done|lia|by left|done|by right].
Qed.

Lemma run_branches_refines (net : list (list module)) :
  Forall (Forall (on_block (refines B))) net ->
  forall flags i (h : store) X state tstate n es tes Fr,
    entries_at B h state n es -> entries_t B tstate n tes ->
    (forall l, state = VList l -> l ∉ Fr) ->
    reps B h (drop i es) (drop i tes) Fr ->
    sim_branches B h Fr (drop i es)
      (run_branches B (forward B) X state n net flags i h)
      (run_branches_t B (forward_t B) X tstate n net flags i).
Proof.
  induction 1 as [|branch net Hbr Hnet IH];
    intros flags i h X state tstate n es tes Fr Hes Htes Hanchor Hreps.
  { simpl. exists [], ∅. split_and!; [done|constructor|lia|done|done|constructor]. }
  destruct flags as [|state_flags flags]; simpl.
  { exists [], ∅. split_and!; [done|constructor|lia|done|done|constructor]. }
  rewrite (state_next_at _ _ _ _ _ Hes), (state_next_t_at _ _ _ _ Htes). simpl.
  destruct (es !! i) as [e|] eqn:Hi.
  2:{ assert (tes !! i = None) as ->.
      { apply lookup_ge_None. apply lookup_ge_None in Hi.
        apply reps_length in Hreps. rewrite !length_drop in Hreps. lia. }
      exists [], ∅. split_and!; [done|constructor|lia|done|done|constructor]. }
  rewrite (drop_S _ _ _ Hi) in Hreps |- *.
  inversion Hreps as [|e' te Fe vs' ts' Fr' Hre Hrs Hdis Heq1 Heq2 HeqF]; subst.
  symmetry in Heq2. apply drop_cons_inv in Heq2 as [Hti Hdrop]. subst ts'.
  rewrite Hti.
  destruct (branch_state_or_new_rep h branch e te Fe Hre)
    as (Fb & Hrb & Hlen0 & Hg0 & Hf0 & Hreuse0).
  destruct (branch_state_or_new B h branch e) as [bs h0]. simpl in *.
  assert (forall x, x ∈ Fr' -> (x < length h)%nat) as HvalFr.
  { intros x Hx. by eapply reps_valid. }
  assert (forall x, x ∈ Fe -> (x < length h)%nat) as HvalFe.
  { intros x Hx. by eapply rep_valid. }
  assert (forall x, x ∈ Fb -> x ∉ Fr') as HFb.
  { intros x Hx Hx'. destruct (Hg0 x Hx); [set_solver|]. apply HvalFr in Hx'. lia. }
  pose proof (run_layers_refines branch Hbr state_flags 0%nat X h0 bs _ Fb Hrb) as Hl.
  destruct (run_layers B (forward B) bs branch state_flags 0 X h0) as [[Y h1]|e0];
    simpl in *; [|by rewrite Hl].
  destruct Hl as (tb' & Fb' & -> & Hrb' & Hlen1 & Hg1 & Hf1). simpl.
  assert (forall x, (x < length h)%nat -> x ∉ Fe -> h1 !! x = h !! x) as Hf01.
  { intros x Hx Hnx. rewrite Hf1; [by apply Hf0|lia|].
    intros Hin. destruct (Hg0 x Hin); [done|lia]. }
  assert (forall x, x ∈ Fb' -> x ∉ Fr') as HFb'.
  { intros x Hx Hx'. destruct (Hg1 x Hx) as [Hin|Hge]; [by apply (HFb x)|].
    apply HvalFr in Hx'. lia. }
  assert (sim_branches B h1 Fr' (drop (S i) es)
            (run_branches B (forward B) X state n net flags (S i) h1)
            (run_branches_t B (forward_t B) X tstate n net flags (S i))) as Hrec.
  { apply IH with (es := es) (tes := tes); [|done| |].
    - destruct state as [|s|l]; simpl in *; [done|done|].
      rewrite Hf01; [done|by eapply lookup_lt_Some|].
      intros Hin. apply (Hanchor l eq_refl). set_solver.
    - intros l ->. specialize (Hanchor l eq_refl). set_solver.
    - eapply reps_frame; [exact Hrs|]. intros x Hx.
      apply Hf01; [by apply HvalFr|]. intros Hin. by apply (Hdis x). }
  destruct (run_branches B (forward B) X state n net flags (S i) h1)
    as [[[out out_state] h2]|e0]; simpl in *; [|by rewrite Hrec].
  destruct Hrec as (touts & Fo & -> & Hro & Hlen2 & Hg2 & Hf2 & Hreuse). simpl.
  exists (tb' :: touts), (Fb' ∪ Fo). split_and!; [done| |lia| | |by constructor].
  - constructor; [|done|].
    + eapply rep_frame; [exact Hrb'|]. intros x Hx.
      apply Hf2; [by eapply rep_valid|by apply HFb'].
    + intros x Hx1 Hx2. destruct (Hg2 x Hx2) as [Hin|Hge]; [by apply (HFb' x)|].
      pose proof (rep_valid _ _ _ _ _ _ Hrb' Hx1). lia.
  - intros x Hx. apply elem_of_union in Hx as [Hx|Hx].
    + destruct (Hg1 x Hx) as [Hin|Hge]; [|right; lia].
      destruct (Hg0 x Hin); [left; set_solver|by right].
    + destruct (Hg2 x Hx) as [Hin|Hge]; [left; set_solver|right; lia].
  - intros x Hx Hnx. rewrite Hf2; [|lia|set_solver].
    apply Hf01; [done|set_solver].
Qed.

Lemma sim_branches_weaken (h : store) (F F2 : gset loc) es r rt :
  F ⊆ F2 -> sim_branches B h F es r rt -> sim_branches B h F2 es r rt.
Proof.
  intros Hsub. destruct r as [[[out out_state] h']|e]; simpl; [|done].
  intros (touts & F' & ? & ? & ? & Hg & Hf & ?). exists touts, F'.
  split_and!; [done|done|done| | |done].
  - intros x Hx. destruct (Hg x Hx); [left; set_solver|by right].
  - intros x Hx Hnx. apply Hf; [done|set_solver].
Qed.

Theorem forward_refines (b : BlockGen) : refines B b.
Proof.
  induction b as [net flags oc Hnet] using BlockGen_nested_ind.
  intros X v h t F Hrep. simpl.
  assert (exists es,
            sim_branches B h F es
              (run_branches B (forward B) X v (length net) net flags 0 h)
              (run_branches_t B (forward_t B) X t (length net) net flags 0))
    as (es & Hbr).
  { inversion Hrep as [| s | l vs ts F0 Hl0 Hvs Hnin]; subst.
    - exists (drop 0 (replicate (length net) VNone)).
      apply run_branches_refines with (tes := replicate (length net) TNone);
        try done.
      rewrite !drop_0. apply reps_replicate.
    - exists [].
      destruct net as [|branch net]; [|destruct flags as [|fl flags]]; simpl;
        try done; exists [], ∅;
        split_and!; [done|constructor|lia|done|done|constructor
                    |done|constructor|lia|done|done|constructor].
    - exists (drop 0 vs).
      apply sim_branches_weaken with (F := F0); [set_solver|].
      apply run_branches_refines with (tes := ts); try done.
      intros l' [= ->]. done. }
  destruct (run_branches B (forward B) X v (length net) net flags 0 h)
    as [[[out out_state] h1]|e]; simpl in *; [|by rewrite Hbr].
  destruct Hbr as (touts & Fo & -> & Hro & Hlen & Hg & Hf & _). simpl.
  destruct (stack_sum B out) as [Y|e]; simpl; [|done].
  exists (TList touts), ({[length h1]} ∪ Fo). split_and!; [done| | | |].
  - apply rep_list with (vs := out_state).
    + by apply list_lookup_middle.
    + eapply reps_frame; [exact Hro|]. intros x Hx. apply lookup_app_l.
      by eapply reps_valid.
    + intros Hin. pose proof (reps_valid _ _ _ _ _ _ Hro Hin). lia.
  - rewrite length_app. lia.
  - intros x Hx. apply elem_of_union in Hx as [Hx|Hx]; [|by apply Hg].
    right. assert (x = length h1) as -> by set_solver. done.
  - intros x Hx Hnx. rewrite lookup_app_l by lia. by apply Hf.
Qed.

(** What [forward] does to a container that it is given as a list: the
    returned outer list is new, the incoming outer list is not written, the
    incoming branch lists are the entries of the returned container, and no
    list outside the incoming container is touched. *)
Lemma forward_list_state (b : BlockGen) (X : T) (h : store) (l : loc) es t F Y v' h' :
  rep B h (VList l) t F -> h !! l = Some es ->
  forward B b X (VList l) h = Ok (Y, v', h') ->
  exists l' out_state,
    v' = VList l' /\ (length h <= l')%nat /\ h' !! l' = Some out_state /\
    h' !! l = Some es /\
    Forall2 (reused B) (take (length out_state) es) out_state /\
    frame B h h' F.
Proof.
  intros Hrep Hl Hfwd. destruct b as [net flags oc]. simpl in Hfwd.
  inversion Hrep as [| | l0 vs ts F0 Hl0 Hvs Hnin]; subst.
  assert (vs = es) as -> by congruence.
  assert (sim_branches B h F0 (drop 0 es)
            (run_branches B (forward B) X (VList l) (length net) net flags 0 h)
            (run_branches_t B (forward_t B) X (TList ts) (length net) net flags 0))
    as Hbr.
  { apply run_branches_refines with (tes := ts); try done.
    - apply Forall_forall. intros branch _. apply Forall_forall. intros m _.
      destruct m; try done. apply forward_refines.
    - by intros l' [= ->]. }
  rewrite drop_0 in Hbr.
  apply bind_Ok_inv in Hfwd as ([[out out_state] h1] & Hrun & Hfwd).
  apply bind_Ok_inv in Hfwd as (Y0 & _ & [= <- <- <-]).
  rewrite Hrun in Hbr. destruct Hbr as (touts & Fo & _ & Hro & Hlen & Hg & Hf & Hre).
  assert (l < length h)%nat as Hlh by (by eapply lookup_lt_Some).
  exists (length h1), out_state. split_and!; [done|lia| | |done|].
  - by apply list_lookup_middle.
  - rewrite lookup_app_l by lia. by rewrite Hf.
  - intros x Hx Hnx. rewrite lookup_app_l by lia. apply Hf; [done|set_solver].
Qed.

End Refinement.

Lemma forall2b_Forall2 {A C : Type} (f : A -> C -> bool) l1 l2 :
  forall2b f l1 l2 = true <-> Forall2 (fun a c => f a c = true) l1 l2.
Proof.
  revert l2. induction l1 as [|a l1 IH]; intros [|c l2]; simpl;
    try (split; [done|by inversion 1]).
  rewrite andb_true_iff, IH. split.
  - intros [? ?]. by constructor.
  - by inversion 1.
Qed.

Lemma forallb_Forall_true {A : Type} (f : A -> bool) l :
  forallb f l = true <-> Forall (fun x => f x = true) l.
Proof.
  induction l as [|x l IH]; simpl; [by split; [constructor|]|].
  rewrite andb_true_iff, IH. split; [intros [? ?]; by constructor|by inversion 1].
Qed.

(** ** What the block generator produces *)

Lemma ModuleList_Ok layer_list ml :
  ModuleList layer_list = Ok ml -> layer_list = map Instance ml.
Proof.
  revert ml. induction layer_list as [|[m|] l IH]; intros ml; simpl; try done.
  - by intros [= <-].
  - intros H. apply bind_Ok_inv in H as (ms & Hms & [= <-]).
    simpl. by rewrite (IH ms Hms).
Qed.

Lemma flags_ok_unfold net flags oc :
  flags_ok (mkBlockGen net flags oc) = forall2b (forall2b slot_flag_ok) net flags.
Proof. done. Qed.

Lemma init_loop_flags_ok make cfgs :
  Forall (fun c => forall n ml sl ch n',
            make c n = Ok (ml, sl, ch, n') -> forall2b slot_flag_ok ml sl = true) cfgs ->
  forall oc n b n', init_loop make cfgs oc n = Ok (b, n') -> flags_ok b = true.
Proof.
  induction 1 as [|c cfgs Hc Hcs IH]; intros oc n b n'; simpl.
  - by intros [= <- <-].
  - intros H. apply bind_Ok_inv in H as ([[[ml sl] ch] n1] & Hm & H).
    apply bind_Ok_inv in H as ([b0 n2] & Hrec & [= <- <-]).
    rewrite flags_ok_unfold. simpl. rewrite (Hc _ _ _ _ _ Hm). simpl.
    specialize (IH _ _ _ _ Hrec). destruct b0. by rewrite flags_ok_unfold in IH.
Qed.

Lemma get_flag_ok g c n m ch n' :
  get g c n = (Instance m, ch, n') -> slot_flag_ok m (stateful m) = true.
Proof.
  destruct g as [| | [] | | |]; simpl; intros [= <- <- <-]; done.
Qed.

Lemma make_branch_flags_ok (c : cfg) :
  (forall ch n ml sl ch' n',
     _make_branch ch c n = Ok (ml, sl, ch', n') -> forall2b slot_flag_ok ml sl = true) /\
  (forall sub, c = Cfgs sub -> forall ch oc n b n',
     init_loop (_make_branch ch) sub oc n = Ok (b, n') -> flags_ok b = true).
Proof.
  induction c as [g|l IH] using cfg_nested_ind; split; try done.
  - intros ch n ml sl ch' n'. simpl. intros H.
    apply bind_Ok_inv in H as ([[[ll sl0] ch0] n0] & Hloop & H).
    apply bind_Ok_inv in H as (ml0 & Hml & [= <- <- <- <-]).
    apply ModuleList_Ok in Hml as ->.
    revert ch n ml0 sl0 ch0 n0 Hloop.
    induction IH as [|c l Hc Hl IHl]; intros ch n ml0 sl0 ch0 n0; simpl.
    + intros [= Hll <- <- <-]. by destruct ml0.
    + intros H. apply bind_Ok_inv in H as ([[layer ch1] n1] & Hlayer & H).
      apply bind_Ok_inv in H as ([[[ll sl1] ch2] n2] & Hrec & [= Hll <- <- <-]).
      destruct ml0 as [|m ml0]; [done|]. simpl in Hll. injection Hll as -> ->.
      simpl. rewrite (IHl _ _ _ _ _ _ Hrec), andb_true_r.
      destruct c as [g|sub].
      * injection Hlayer as Hget. by eapply get_flag_ok.
      * apply bind_Ok_inv in Hlayer as ([b n3] & Hb & Hlayer).
        destruct (out_channels b) as [och|] eqn:Hoc; [|done].
        injection Hlayer as <- <- <-.
        unfold slot_flag_ok. simpl.
        exact (proj2 Hc sub eq_refl _ _ _ _ _ Hb).
  - intros sub [= <-] ch oc n b n'. apply init_loop_flags_ok.
    eapply Forall_impl; [exact IH|]. intros c [Hc _] n0 ml sl ch0 n0'. apply Hc.
Qed.

Lemma compiled_flags_ok (b : BlockGen) : compiled b -> flags_ok b = true.
Proof.
  intros (c & cfgs & n & n' & H).
  exact (proj2 (make_branch_flags_ok (Cfgs cfgs)) cfgs eq_refl _ _ _ _ _ H).
Qed.

Lemma has_branches_unfold net flags oc :
  has_branches (mkBlockGen net flags oc)
  = negb (bool_decide (net = [])) && forallb (forallb branched) net.
Proof. by destruct net. Qed.

Lemma init_loop_net make cfgs :
  forall oc n b n',
    init_loop make cfgs oc n = Ok (b, n') ->
    length (net b) = length cfgs /\ (cfgs = [] -> out_channels b = oc).
Proof.
  induction cfgs as [|c cfgs IH]; intros oc n b n'; simpl.
  - intros [= <- <-]. by split.
  - intros H. apply bind_Ok_inv in H as ([[[ll sl] ch] n1] & _ & H).
    apply bind_Ok_inv in H as ([b0 n2] & Hrec & [= <- <-]).
    destruct (IH _ _ _ _ Hrec) as [Hlen _]. simpl. by rewrite Hlen.
Qed.

Lemma init_loop_branched make cfgs :
  Forall (fun c => forall n ml sl ch n',
            make c n = Ok (ml, sl, ch, n') -> forallb branched ml = true) cfgs ->
  forall oc n b n', init_loop make cfgs oc n = Ok (b, n') ->
    forallb (forallb branched) (net b) = true.
Proof.
  induction 1 as [|c cfgs Hc Hcs IH]; intros oc n b n'; simpl.
  - by intros [= <- <-].
  - intros H. apply bind_Ok_inv in H as ([[[ml sl] ch] n1] & Hm & H).
    apply bind_Ok_inv in H as ([b0 n2] & Hrec & [= <- <-]).
    simpl. by rewrite (Hc _ _ _ _ _ Hm), (IH _ _ _ _ Hrec).
Qed.

(** The nested blocks that [_make_branch] makes have branches: the
    [out_channels] of a block without branches cannot be read. *)
Lemma make_branch_branched (c : cfg) :
  (forall ch n ml sl ch' n',
     _make_branch ch c n = Ok (ml, sl, ch', n') -> forallb branched ml = true) /\
  (forall sub, c = Cfgs sub -> forall ch oc n b n',
     init_loop (_make_branch ch) sub oc n = Ok (b, n') ->
     forallb (forallb branched) (net b) = true).
Proof.
  induction c as [g|l IH] using cfg_nested_ind; split; try done.
  - intros ch n ml sl ch' n'. simpl. intros H.
    apply bind_Ok_inv in H as ([[[ll sl0] ch0] n0] & Hloop & H).
    apply bind_Ok_inv in H as (ml0 & Hml & [= <- <- <- <-]).
    apply ModuleList_Ok in Hml as ->.
    revert ch n ml0 sl0 ch0 n0 Hloop.
    induction IH as [|c l Hc Hl IHl]; intros ch n ml0 sl0 ch0 n0; simpl.
    + intros [= Hll <- <- <-]. by destruct ml0.
    + intros H. apply bind_Ok_inv in H as ([[layer ch1] n1] & Hlayer & H).
      apply bind_Ok_inv in H as ([[[ll sl1] ch2] n2] & Hrec & [= Hll <- <- <-]).
      destruct ml0 as [|m ml0]; [done|]. simpl in Hll. injection Hll as -> ->.
      simpl. rewrite (IHl _ _ _ _ _ _ Hrec), andb_true_r.
      destruct c as [g|sub].
      * injection Hlayer as Hget.
        destruct g as [| | [] | | |]; simpl in Hget; by simplify_eq.
      * apply bind_Ok_inv in Hlayer as ([b n3] & Hb & Hlayer).
        destruct (out_channels b) as [och|] eqn:Hoc; [|done].
        injection Hlayer as <- <- <-. simpl. destruct b as [bnet bflags boc].
        rewrite has_branches_unfold.
        pose proof (proj2 Hc sub eq_refl _ _ _ _ _ Hb) as Hbr. simpl in Hbr.
        rewrite Hbr, andb_true_r.
        destruct (init_loop_net _ sub None n _ n3 Hb) as [Hlen Hnil].
        apply negb_true_iff, bool_decide_eq_false. intros ->. simpl in *.
        destruct sub; [|done]. specialize (Hnil eq_refl). congruence.
  - intros sub [= <-] ch oc n b n'. apply init_loop_branched.
    eapply Forall_impl; [exact IH|]. intros c [Hc _] n0 ml sl ch0 n0'. apply Hc.
Qed.

Lemma compiled_has_branches (b : BlockGen) :
  compiled b -> net b <> [] -> has_branches b = true.
Proof.
  intros (c & cfgs & n & n' & H) Hnet. destruct b as [bnet bflags boc].
  rewrite has_branches_unfold.
  pose proof (proj2 (make_branch_branched (Cfgs cfgs)) cfgs eq_refl _ _ _ _ _ H)
    as Hbr.
  simpl in Hbr. rewrite Hbr, andb_true_r.
  by apply negb_true_iff, bool_decide_eq_false.
Qed.

(** ** The shape of the returned container (on trees) *)

Section ShapeFacts.

Context (B : Backend).

#[local] Abbreviation T := (Tensor B).
#[local] Abbreviation tr := (tree (LIFState B)).

Lemma shape_TNone (absent : bool) (lif_slot : tr -> bool) b :
  shape absent lif_slot b TNone = absent.
Proof. by destruct b. Qed.

Lemma slot_accepts_TNone (m : module) :
  slot_shape is_leaf (shape true is_leaf) m (TNone : tr) = true.
Proof. destruct m; simpl; try done. apply shape_TNone. Qed.

Lemma slots_accept_replicate (branch : list module) :
  forall2b (slot_shape is_leaf (shape true is_leaf)) branch
           (replicate (length branch) (TNone : tr)) = true.
Proof.
  induction branch as [|m branch IH]; simpl; [done|].
  by rewrite slot_accepts_TNone, IH.
Qed.

Lemma run_layers_t_shape (branch : list module) :
  Forall (on_block (keeps_shape B)) branch ->
  forall flags (done todo : list tr) Y Y' bs',
    forall2b slot_flag_ok branch flags = true ->
    forall2b (slot_shape is_leaf (shape true is_leaf)) branch todo = true ->
    run_layers_t B (forward_t B) branch flags (length done) Y (TList (done ++ todo))
      = Ok (Y', bs') ->
    exists todo', bs' = TList (done ++ todo') /\
      forall2b (slot_shape is_TState (shape false is_TState)) branch todo' = true.
Proof.
  induction 1 as [|layer branch Hl Hbr IH];
    intros flags done todo Y Y' bs' Hflags Htodo Hrun.
  { destruct todo; [|done]. simpl in Hrun. injection Hrun as <- <-. by exists []. }
  destruct flags as [|f flags]; [done|]. destruct todo as [|s todo]; [done|].
  simpl in Hflags, Htodo.
  apply andb_true_iff in Hflags as [Hf Hflags].
  apply andb_true_iff in Htodo as [Hs Htodo].
  apply andb_true_iff in Hf as [Hf Hnested]. apply bool_decide_eq_true in Hf.
  assert (forall new Y1,
            slot_shape is_TState (shape false is_TState) layer new = true ->
            run_layers_t B (forward_t B) branch flags (S (length done)) Y1
                         (TList (done ++ new :: todo)) = Ok (Y', bs') ->
            exists todo', bs' = TList (done ++ todo') /\
              forall2b (slot_shape is_TState (shape false is_TState))
                       (layer :: branch) todo' = true) as Hnext.
  { intros new Y1 Hnew Hrest.
    replace (S (length done)) with (length (done ++ [new])) in Hrest
      by (rewrite length_app; simpl; lia).
    rewrite (cons_middle new done todo) , app_assoc in Hrest.
    destruct (IH _ _ _ _ _ _ Hflags Htodo Hrest) as (todo' & -> & Hm).
    exists (new :: todo'). split; [by rewrite <- app_assoc|].
    simpl. by rewrite Hnew, Hm. }
  simpl in Hrun. subst f. destruct (stateful layer) eqn:Hst.
  - rewrite list_lookup_middle in Hrun by done. simpl in Hrun.
    apply bind_Ok_inv in Hrun as ([Y1 new] & Hcall & Hrun).
    rewrite decide_True in Hrun by (rewrite length_app; simpl; lia).
    simpl in Hrun.
    rewrite insert_app_r_alt, Nat.sub_diag in Hrun by lia. simpl in Hrun.
    apply (Hnext new Y1); [|done].
    destruct layer; try done; simpl in *.
    + destruct s as [|s0|]; try done.
      * destruct (lif_call B oid Y None) as [[? ?]|]; [|done].
        by injection Hcall as <- <-.
      * destruct (lif_call B oid Y (Some s0)) as [[? ?]|]; [|done].
        by injection Hcall as <- <-.
    + by apply (Hl Hnested Y s Y1 new).
  - apply bind_Ok_inv in Hrun as (Y1 & Hcall & Hrun).
    assert (s = TNone) as ->.
    { destruct layer; try done; simpl in Hs; by destruct s. }
    apply (Hnext TNone Y1); [|done]. by destruct layer.
Qed.

Lemma run_branches_t_shape (net : list (list module)) :
  Forall (Forall (on_block (keeps_shape B))) net ->
  forall flags i X (state : tr) n tes out out_state,
    forall2b (forall2b slot_flag_ok) net flags = true ->
    entries_t B state n tes ->
    forall2b (entry_shape true is_leaf (shape true is_leaf)) net (drop i tes) = true ->
    run_branches_t B (forward_t B) X state n net flags i = Ok (out, out_state) ->
    forall2b (entry_shape false is_TState (shape false is_TState)) net out_state = true.
Proof.
  induction 1 as [|branch net Hbr Hnet IH];
    intros flags i X state n tes out out_state Hflags Htes Hacc Hrun.
  { simpl in Hrun. by injection Hrun as <- <-. }
  destruct flags as [|fl flags]; [done|]. simpl in Hflags.
  apply andb_true_iff in Hflags as [Hfl Hflags].
  destruct (drop i tes) as [|e rest] eqn:Hdrop; [done|]. simpl in Hacc.
  apply andb_true_iff in Hacc as [He Hacc].
  apply drop_cons_inv in Hdrop as [Hi Hrest]. subst rest.
  simpl in Hrun. rewrite (state_next_t_at _ _ _ _ _ Htes), Hi in Hrun.
  simpl in Hrun.
  apply bind_Ok_inv in Hrun as ([Y bs] & Hlay & Hrun).
  apply bind_Ok_inv in Hrun as ([out1 out_state1] & Hrec & [= <- <-]).
  simpl. rewrite (IH _ _ _ _ _ _ _ _ Hflags Htes Hacc Hrec), andb_true_r.
  assert (exists slots, branch_state_or_new_t B branch e = TList slots /\
            forall2b (slot_shape is_leaf (shape true is_leaf)) branch slots = true)
    as (slots & Hbs & Hslots).
  { destruct e as [|s|slots]; simpl in *; [|done|by eauto].
    eexists. split; [done|]. apply slots_accept_replicate. }
  rewrite Hbs in Hlay.
  destruct (run_layers_t_shape branch Hbr fl [] slots X Y bs Hfl Hslots Hlay)
    as (todo' & -> & Hm).
  done.
Qed.

Theorem forward_t_shape (b : BlockGen) : keeps_shape B b.
Proof.
  induction b as [net flags oc Hnet] using BlockGen_nested_ind.
  intros Hflags X t Y t' Hacc Hfwd. rewrite flags_ok_unfold in Hflags.
  simpl in Hfwd.
  apply bind_Ok_inv in Hfwd as ([out out_state] & Hrun & Hfwd).
  apply bind_Ok_inv in Hfwd as (Y0 & _ & [= <- <-]).
  unfold mirrors. simpl.
  destruct t as [|s|entries]; [|done|].
  - eapply (run_branches_t_shape net Hnet flags 0%nat X TNone (length net)
              (replicate (length net) TNone)); [done|done| |exact Hrun].
    rewrite drop_0. clear. induction net as [|branch net IH]; simpl; [done|].
    by rewrite IH.
  - eapply (run_branches_t_shape net Hnet flags 0%nat X (TList entries) (length net)
              entries); [done|done| |exact Hrun].
    by rewrite drop_0.
Qed.

(** *** When the numeric layers do not fail, neither does the forward pass *)

Hypothesis Htotal : total_backend B.

Lemma stack_sum_total (out : list T) : out <> [] -> exists Y, stack_sum B out = Ok Y.
Proof.
  destruct Htotal as (_ & _ & _ & Hshape).
  destruct out as [|Y rest]; [done|]. intros _. simpl.
  rewrite (proj2 (forallb_Forall_true _ rest)); [by eexists|].
  apply Forall_forall. intros. apply Hshape.
Qed.

Lemma call_total (layer : module) (Y : T) :
  stateful layer = false -> exists Y1, call B layer Y = Ok Y1.
Proof.
  destruct Htotal as (Htorch & Hpool & _ & _).
  destruct layer; simpl; intros Hst; try done; try apply Htorch.
  - destruct (Hpool Y kernel_size stride padding) as [A ->]. by eexists.
  - by eexists.
Qed.

Lemma run_layers_t_returns (branch : list module) :
  Forall (on_block (returns_t B)) branch ->
  forall flags (done todo : list tr) Y,
    forall2b slot_flag_ok branch flags = true ->
    forallb branched branch = true ->
    forall2b (slot_shape is_leaf (shape true is_leaf)) branch todo = true ->
    exists Y' bs',
      run_layers_t B (forward_t B) branch flags (length done) Y (TList (done ++ todo))
      = Ok (Y', bs').
Proof.
  destruct Htotal as (_ & _ & Hlif & _).
  induction 1 as [|layer branch Hl Hbr IH];
    intros flags done todo Y Hflags Hbranched Htodo.
  { simpl. by eexists _, _. }
  destruct flags as [|f flags]; [done|]. destruct todo as [|s todo]; [done|].
  simpl in Hflags, Htodo, Hbranched.
  apply andb_true_iff in Hflags as [Hf Hflags].
  apply andb_true_iff in Htodo as [Hs Htodo].
  apply andb_true_iff in Hbranched as [Hb Hbranched].
  apply andb_true_iff in Hf as [Hf Hnested]. apply bool_decide_eq_true in Hf.
  assert (forall new Y1,
            exists Y' bs',
              run_layers_t B (forward_t B) branch flags (S (length done)) Y1
                           (TList (done ++ new :: todo)) = Ok (Y', bs')) as Hnext.
  { intros new Y1.
    replace (S (length done)) with (length (done ++ [new]))
      by (rewrite length_app; simpl; lia).
    rewrite (cons_middle new done todo) , app_assoc. by apply IH. }
  simpl. subst f. destruct (stateful layer) eqn:Hst.
  - rewrite list_lookup_middle by done. simpl.
    assert (exists Y1 new, call_state_t B (forward_t B) layer Y s = Ok (Y1, new))
      as (Y1 & new & ->).
    { destruct layer; try done; simpl in *.
      - destruct s as [|s0|]; try done.
        + destruct (Hlif oid Y None) as [[Y1 s1] ->]. by eexists _, _.
        + destruct (Hlif oid Y (Some s0)) as [[Y1 s1] ->]. by eexists _, _.
      - by apply Hl. }
    simpl. rewrite decide_True by (rewrite length_app; simpl; lia). simpl.
    rewrite insert_app_r_alt, Nat.sub_diag by lia. simpl. apply Hnext.
  - destruct (call_total layer Y Hst) as [Y1 ->]. simpl.
    assert (s = TNone) as ->.
    { destruct layer; try done; simpl in Hs; by destruct s. }
    apply Hnext.
Qed.

Lemma run_branches_t_returns (net : list (list module)) :
  Forall (Forall (on_block (returns_t B))) net ->
  forall flags i X (state : tr) n tes,
    forall2b (forall2b slot_flag_ok) net flags = true ->
    forallb (forallb branched) net = true ->
    entries_t B state n tes ->
    forall2b (entry_shape true is_leaf (shape true is_leaf)) net (drop i tes) = true ->
    exists out out_state,
      run_branches_t B (forward_t B) X state n net flags i = Ok (out, out_state) /\
      length out = length net.
Proof.
  induction 1 as [|branch net Hbr Hnet IH];
    intros flags i X state n tes Hflags Hbranched Htes Hacc.
  { simpl. by eexists _, _. }
  destruct flags as [|fl flags]; [done|]. simpl in Hflags, Hbranched.
  apply andb_true_iff in Hflags as [Hfl Hflags].
  apply andb_true_iff in Hbranched as [Hb Hbranched].
  destruct (drop i tes) as [|e rest] eqn:Hdrop; [done|]. simpl in Hacc.
  apply andb_true_iff in Hacc as [He Hacc].
  apply drop_cons_inv in Hdrop as [Hi Hrest]. subst rest.
  simpl. rewrite (state_next_t_at _ _ _ _ _ Htes), Hi. simpl.
  assert (exists slots, branch_state_or_new_t B branch e = TList slots /\
            forall2b (slot_shape is_leaf (shape true is_leaf)) branch slots = true)
    as (slots & -> & Hslots).
  { destruct e as [|s|slots]; simpl in *; [|done|by eauto].
    eexists. split; [done|]. apply slots_accept_replicate. }
  destruct (run_layers_t_returns branch Hbr fl [] slots X Hfl Hb Hslots)
    as (Y & bs & Hlay).
  simpl in Hlay. rewrite Hlay. simpl.
  destruct (IH flags (S i) X state n tes Hflags Hbranched Htes Hacc)
    as (out & out_state & -> & Hlen).
  simpl. eexists _, _. split; [done|]. simpl. by rewrite Hlen.
Qed.

Theorem forward_t_returns (b : BlockGen) : returns_t B b.
Proof.
  induction b as [net flags oc Hnet] using BlockGen_nested_ind.
  intros Hflags Hbranched X t Hacc.
  rewrite flags_ok_unfold in Hflags. rewrite has_branches_unfold in Hbranched.
  apply andb_true_iff in Hbranched as [Hne Hbranched].
  apply negb_true_iff, bool_decide_eq_false in Hne.
  assert (exists out out_state,
            run_branches_t B (forward_t B) X t (length net) net flags 0
            = Ok (out, out_state) /\ length out = length net)
    as (out & out_state & Hrun & Hlen).
  { unfold accepts in Hacc. simpl in Hacc. destruct t as [|s|entries]; [|done|].
    - apply (run_branches_t_returns net Hnet flags 0%nat X TNone (length net)
               (replicate (length net) TNone)); [done|done|done|].
      rewrite drop_0. clear. induction net as [|branch net IH]; simpl; [done|].
      by rewrite IH.
    - apply (run_branches_t_returns net Hnet flags 0%nat X (TList entries)
               (length net) entries); [done|done|done|].
      by rewrite drop_0. }
  simpl. rewrite Hrun. simpl.
  destruct (stack_sum_total out) as [Y ->].
  { intros ->. by destruct net. }
  simpl. by eexists _, _.
Qed.

End ShapeFacts.

(** ** The shape of the returned container (in the store) *)

Section StoreShape.

Context (B : Backend).

#[local] Abbreviation T := (Tensor B).
#[local] Abbreviation val := (value (LIFState B)).
#[local] Abbreviation tr := (tree (LIFState B)).
#[local] Abbreviation store := (list (list val)).

(** A value is the root of one tree at most. *)
Lemma rep_reps_functional (h : store) :
  (forall v t F, rep B h v t F -> forall t' F', rep B h v t' F' -> t = t' /\ F = F') /\
  (forall vs ts F, reps B h vs ts F ->
     forall ts' F', reps B h vs ts' F' -> ts = ts' /\ F = F').
Proof.
  apply (rep_reps_mutind B h
    (fun v t F _ => forall t' F', rep B h v t' F' -> t = t' /\ F = F')
    (fun vs ts F _ => forall ts' F', reps B h vs ts' F' -> ts = ts' /\ F = F')).
  - intros t' F' H'. by inversion H'.
  - intros s t' F' H'. by inversion H'.
  - intros l vs ts F Hl Hvs IH Hn t' F' H'.
    inversion H' as [| | l0 vs0 ts0 F0 Hl0 Hvs0 Hn0]; subst.
    assert (vs0 = vs) as -> by congruence.
    by destruct (IH _ _ Hvs0) as [-> ->].
  - intros ts' F' H'. by inversion H'.
  - intros v t Fv vs ts F Hv IHv Hvs IHvs Hd ts' F' H'.
    inversion H' as [|v0 t0 Fv0 vs0 ts0 F0 Hv0 Hvs0 Hd0]; subst.
    destruct (IHv _ _ Hv0) as [-> ->]. by destruct (IHvs _ _ Hvs0) as [-> ->].
Qed.

Lemma rep_functional (h : store) v t F t' F' :
  rep B h v t F -> rep B h v t' F' -> t = t' /\ F = F'.
Proof. intros H. by apply (proj1 (rep_reps_functional h) _ _ _ H). Qed.

(** Forward on a compiled block whose incoming container has an acceptable
    shape leaves a container that mirrors the block. *)
Lemma forward_shape (b : BlockGen) X (v : val) (h : store) t F Y v' h' :
  flags_ok b = true -> rep B h v t F -> accepts b t = true ->
  forward B b X v h = Ok (Y, v', h') ->
  exists t' F', rep B h' v' t' F' /\ mirrors b t' = true /\
    forward_t B b X t = Ok (Y, t').
Proof.
  intros Hflags Hrep Hacc Hfwd.
  pose proof (forward_refines B b X v h t F Hrep) as Hsim.
  rewrite Hfwd in Hsim. destruct Hsim as (t' & F' & Ht & Hrep' & _).
  exists t', F'. split_and!; [done| |done].
  by eapply forward_t_shape.
Qed.

(** With numeric layers that do not fail, forward returns on a compiled
    block with at least one branch and a container of an acceptable shape. *)
Lemma forward_returns (b : BlockGen) X (v : val) (h : store) t F :
  total_backend B -> flags_ok b = true -> has_branches b = true ->
  rep B h v t F -> accepts b t = true ->
  exists Y v' h', forward B b X v h = Ok (Y, v', h').
Proof.
  intros Htotal Hflags Hbr Hrep Hacc.
  destruct (forward_t_returns B Htotal b Hflags Hbr X t Hacc) as (Y & t' & Ht).
  pose proof (forward_refines B b X v h t F Hrep) as Hsim.
  destruct (forward B b X v h) as [[[Y1 v1] h1]|e]; [by eexists _, _, _|].
  unfold sim_forward in Hsim. congruence.
Qed.

End StoreShape.

(** ** Shapes compared *)

Lemma forall2b_impl_Forall {A C : Type} (f g : A -> C -> bool) l1 l2 :
  Forall (fun a => forall c, f a c = true -> g a c = true) l1 ->
  forall2b f l1 l2 = true -> forall2b g l1 l2 = true.
Proof.
  intros H. revert l2. induction H as [|a l1 Ha Hl IH]; intros [|c l2]; simpl; try done.
  rewrite !andb_true_iff. intros [? ?]. split; [by apply Ha|by apply IH].
Qed.

Lemma no_lif_unfold net flags oc :
  no_lif (mkBlockGen net flags oc) = forallb (forallb lif_free) net.
Proof. done. Qed.

(** A shape stays a shape when absence is allowed where it was not, and when
    the slots of the spiking cells may hold more; without spiking cells,
    what their slots may hold does not matter. *)
Lemma shape_impl {S : Type} (a a' : bool) (P Q : tree S -> bool) (b : BlockGen) :
  (a = true -> a' = true) ->
  (no_lif b = true \/ forall s, P s = true -> Q s = true) ->
  forall t, shape a P b t = true -> shape a' Q b t = true.
Proof.
  intros Ha. induction b as [net flags oc Hnet] using BlockGen_nested_ind.
  intros Hlif t. rewrite no_lif_unfold in Hlif. simpl.
  destruct t as [|s|entries]; [done|done|].
  apply forall2b_impl_Forall.
  assert (Forall (fun branch => forallb lif_free branch = true \/
                                forall s, P s = true -> Q s = true) net) as Hnet2.
  { destruct Hlif as [Hlif|Hlif].
    - apply forallb_Forall_true in Hlif. eapply Forall_impl; [exact Hlif|]. by left.
    - apply Forall_forall. intros. by right. }
  clear Hlif. induction Hnet as [|branch net Hbr Hnet IH]; [constructor|].
  apply Forall_cons in Hnet2 as [Hbr2 Hnet2]. constructor; [|by apply IH].
  clear IH Hnet Hnet2. intros e. unfold entry_shape.
  destruct e as [|s|slots]; [done|done|].
  apply forall2b_impl_Forall.
  assert (Forall (fun m => lif_free m = true \/
                           forall s, P s = true -> Q s = true) branch) as Hbr3.
  { destruct Hbr2 as [Hbr2|Hbr2].
    - apply forallb_Forall_true in Hbr2. eapply Forall_impl; [exact Hbr2|]. by left.
    - apply Forall_forall. intros. by right. }
  clear Hbr2. induction Hbr as [|m branch Hm Hbr IH]; [constructor|].
  apply Forall_cons in Hbr3 as [Hm3 Hbr3]. constructor; [|by apply IH].
  intros s. destruct m; simpl in *; try done.
  - destruct Hm3 as [?|Hm3]; [done|apply Hm3].
  - apply Hm. destruct Hm3; [by left|by right].
Qed.

Lemma mirrors_accepts {S : Type} (b : BlockGen) (t : tree S) :
  mirrors b t = true -> accepts b t = true.
Proof.
  apply shape_impl; [done|]. right. by intros [].
Qed.

Lemma mirrors_leaves_none {S : Type} (b : BlockGen) (t : tree S) :
  no_lif b = true -> mirrors b t = true -> leaves_none b t = true.
Proof.
  intros Hb. apply shape_impl; [done|by left].
Qed.

Section Select.

Context {A : Type}.

Lemma select_cons (k : nat) (p : list nat) (l : list A) x :
  l !! k = Some x -> select (k :: p) l = x :: select p l.
Proof. intros H. unfold select. simpl. by rewrite H. Qed.

Lemma select_length (p : list nat) (l : list A) :
  Forall (fun k => (k < length l)%nat) p -> length (select p l) = length p.
Proof.
  induction 1 as [|k p Hk Hp IH]; [done|].
  destruct (lookup_lt_is_Some_2 l k Hk) as [x Hx].
  rewrite (select_cons _ _ _ _ Hx). simpl. by rewrite IH.
Qed.

Lemma select_seq_app (pre l : list A) :
  select (seq (length pre) (length l)) (pre ++ l) = l.
Proof.
  revert pre. induction l as [|x l IH]; intros pre; [done|].
  change (seq (length pre) (length (x :: l)))
    with (length pre :: seq (S (length pre)) (length l)).
  rewrite (select_cons _ _ _ x) by (by apply list_lookup_middle). f_equal.
  specialize (IH (pre ++ [x])).
  rewrite length_app, <- app_assoc in IH. simpl in IH.
  by rewrite Nat.add_1_r in IH.
Qed.

Lemma select_seq (l : list A) : select (seq 0 (length l)) l = l.
Proof. apply (select_seq_app [] l). Qed.

Lemma select_Permutation (p : list nat) (l : list A) :
  p ≡ₚ seq 0 (length l) -> select p l ≡ₚ l.
Proof.
  intros Hp. unfold select. rewrite Hp. fold (select (seq 0 (length l)) l).
  by rewrite select_seq.
Qed.

Lemma perm_indices_valid (p : list nat) (n : nat) :
  p ≡ₚ seq 0 n -> Forall (fun k => (k < n)%nat) p.
Proof.
  intros Hp. rewrite Hp. apply Forall_forall. intros k Hk.
  apply elem_of_seq in Hk. lia.
Qed.

Lemma select_replicate (p : list nat) (n : nat) (x : A) :
  Forall (fun k => (k < n)%nat) p -> select p (replicate n x) = replicate (length p) x.
Proof.
  induction 1 as [|k p Hk Hp IH]; [done|].
  rewrite (select_cons k p _ x) by (by apply lookup_replicate_2).
  simpl. by rewrite IH.
Qed.

End Select.

Lemma select_zip {A C : Type} (p : list nat) (l : list A) (k : list C) :
  Forall (fun i => (i < length l)%nat) p -> length k = length l ->
  select p (zip l k) = zip (select p l) (select p k).
Proof.
  intros Hp Hlen. induction Hp as [|i p Hi Hp IH]; [done|].
  destruct (lookup_lt_is_Some_2 l i Hi) as [x Hx].
  destruct (lookup_lt_is_Some_2 k i ltac:(lia)) as [y Hy].
  rewrite (select_cons _ _ _ _ Hx), (select_cons _ _ _ _ Hy).
  rewrite (select_cons i p (zip l k) (x, y)).
  - simpl. by rewrite IH.
  - apply lookup_zip_with_Some. by exists x, y.
Qed.

Section Permute.

Context (B : Backend).

#[local] Abbreviation T := (Tensor B).
#[local] Abbreviation tr := (tree (LIFState B)).

Hypothesis Hexact : exact_arithmetic B.

Lemma foldl_tadd_Permutation (l l' : list T) :
  l ≡ₚ l' -> forall Y, foldl (tadd B) Y l = foldl (tadd B) Y l'.
Proof.
  destruct Hexact as (Hcomm & Hassoc & _).
  induction 1 as [|x l l' Hl IH|x y l|l l' l'' H1 IH1 H2 IH2]; intros Y; simpl.
  - done.
  - apply IH.
  - by rewrite !Hassoc, (Hcomm y x).
  - by rewrite IH1.
Qed.

Lemma forallb_Permutation {A : Type} (f : A -> bool) (l l' : list A) :
  l ≡ₚ l' -> forallb f l = forallb f l'.
Proof.
  induction 1 as [|x l l' Hl IH|x y l|l l' l'' H1 IH1 H2 IH2]; simpl.
  - done.
  - by rewrite IH.
  - by rewrite !andb_assoc, (andb_comm (f y)).
  - by rewrite IH1.
Qed.

Lemma forallb_pointwise {A : Type} (f g : A -> bool) (l : list A) :
  (forall x, f x = g x) -> forallb f l = forallb g l.
Proof. intros H. induction l as [|x l IH]; simpl; [done|]. by rewrite H, IH. Qed.

Lemma same_shape_trans_eq (x y : T) :
  same_shape B x y = true -> forall z, same_shape B y z = same_shape B x z.
Proof.
  destruct Hexact as (_ & _ & Hsym & Htrans). intros Hxy z.
  destruct (same_shape B x z) eqn:Hxz.
  - apply Htrans with x; [by rewrite Hsym|done].
  - destruct (same_shape B y z) eqn:Hyz; [|done].
    rewrite <- Hxz. symmetry. by apply Htrans with y.
Qed.

(** The sum of a stack does not depend on the order of its tensors. *)
Lemma stack_sum_Permutation (l l' : list T) :
  l ≡ₚ l' -> stack_sum B l = stack_sum B l'.
Proof.
  pose proof Hexact as (Hcomm & Hassoc & Hsym & Htrans).
  induction 1 as [|x l l' Hl IH|x y l|l l' l'' H1 IH1 H2 IH2]; simpl.
  - done.
  - by rewrite (forallb_Permutation _ _ _ Hl), (foldl_tadd_Permutation _ _ Hl).
  - rewrite (Hsym y x), (Hcomm y x).
    destruct (same_shape B x y) eqn:Hxy; simpl; [|done].
    by rewrite (forallb_pointwise _ _ l (same_shape_trans_eq x y Hxy)).
  - by rewrite IH1.
Qed.

(** The branches are run independently of each other. *)
Lemma run_branches_t_triples (X : T) (state : tr) (n : nat) tes net :
  entries_t B state n tes ->
  forall flags i,
    run_branches_t B (forward_t B) X state n net flags i
    = run_triples B X (zip (zip net flags) (drop i tes)).
Proof.
  intros Htes. induction net as [|branch net IH]; intros flags i; [done|].
  destruct flags as [|fl flags]; [done|]. simpl.
  rewrite (state_next_t_at _ _ _ _ _ Htes).
  destruct (tes !! i) as [e|] eqn:Hi; simpl.
  - rewrite (drop_S _ _ _ Hi). simpl. by rewrite IH.
  - rewrite drop_ge by (by apply lookup_ge_None). done.
Qed.

Lemma run_triples_lookup (X : T) l out out_state k c :
  run_triples B X l = Ok (out, out_state) -> l !! k = Some c ->
  exists Y bs, out !! k = Some Y /\ out_state !! k = Some bs /\
    branch_t B X c = Ok (Y, bs).
Proof.
  revert out out_state k. induction l as [|c0 l IH]; intros out out_state k; [done|].
  simpl. intros H Hk.
  apply bind_Ok_inv in H as ([Y bs] & Hc & H).
  apply bind_Ok_inv in H as ([out1 st1] & Hrec & [= <- <-]).
  destruct k as [|k]; simpl in *.
  - injection Hk as <-. by exists Y, bs.
  - by apply IH.
Qed.

Lemma run_triples_length (X : T) l out out_state :
  run_triples B X l = Ok (out, out_state) ->
  length out = length l /\ length out_state = length l.
Proof.
  revert out out_state. induction l as [|c0 l IH]; intros out out_state; simpl.
  - by intros [= <- <-].
  - intros H. apply bind_Ok_inv in H as ([Y bs] & Hc & H).
    apply bind_Ok_inv in H as ([out1 st1] & Hrec & [= <- <-]).
    destruct (IH _ _ Hrec). simpl. lia.
Qed.

Lemma run_triples_select (X : T) l out out_state p :
  run_triples B X l = Ok (out, out_state) ->
  Forall (fun k => (k < length l)%nat) p ->
  run_triples B X (select p l) = Ok (select p out, select p out_state).
Proof.
  intros Hrun. induction 1 as [|k p Hk Hp IH]; [done|].
  destruct (lookup_lt_is_Some_2 l k Hk) as [c Hc].
  destruct (run_triples_lookup X l out out_state k c Hrun Hc)
    as (Y & bs & HY & Hbs & Hbr).
  rewrite (select_cons _ _ _ _ Hc), (select_cons _ _ _ _ HY),
    (select_cons _ _ _ _ Hbs).
  simpl. by rewrite Hbr, IH.
Qed.

(** On trees: a block with its branches reordered, given the container with
    its entries reordered the same way, computes the same tensor and returns
    the same entries, reordered. *)
Theorem forward_t_permute (net : list (list module)) (flags : list (list bool)) oc oc'
    (p : list nat) (X : T) (t t2 : tr) Y t' :
  length flags = length net ->
  p ≡ₚ seq 0 (length net) ->
  (t = TNone /\ t2 = TNone) \/
  (exists tes, t = TList tes /\ length tes = length net /\ t2 = TList (select p tes)) ->
  forward_t B (mkBlockGen net flags oc) X t = Ok (Y, t') ->
  exists touts, t' = TList touts /\
    forward_t B (mkBlockGen (select p net) (select p flags) oc') X t2
    = Ok (Y, TList (select p touts)).
Proof.
  intros Hlen Hp Hstate Hfwd.
  pose proof (perm_indices_valid _ _ Hp) as Hvalid.
  assert (length (select p net) = length net) as Hlenp.
  { rewrite select_length by done. by rewrite Hp, length_seq. }
  assert (exists tes, entries_t B t (length net) tes /\ length tes = length net /\
            entries_t B t2 (length net) (select p tes)) as (tes & Ht & Hltes & Ht2).
  { destruct Hstate as [[-> ->]|(tes & -> & Hltes & ->)].
    - exists (replicate (length net) TNone). split_and!; [done|by rewrite length_replicate|].
      simpl. rewrite select_replicate by done. by rewrite Hp, length_seq.
    - by exists tes. }
  simpl in Hfwd.
  apply bind_Ok_inv in Hfwd as ([out out_state] & Hrun & Hfwd).
  apply bind_Ok_inv in Hfwd as (Y0 & Hsum & [= <- <-]).
  exists out_state. split; [done|]. simpl. rewrite Hlenp.
  rewrite (run_branches_t_triples X t (length net) tes net Ht flags 0), drop_0 in Hrun.
  rewrite (run_branches_t_triples X t2 (length net) _ _ Ht2), drop_0.
  rewrite <- !select_zip;
    [|by rewrite length_zip, Hlen, Nat.min_id|by rewrite length_zip, Hlen, Nat.min_id
     |done|done].
  rewrite (run_triples_select X _ out out_state p Hrun)
    by (by rewrite !length_zip, Hlen, Hltes, !Nat.min_id).
  simpl.
  destruct (run_triples_length X _ _ _ Hrun) as [Hlo _].
  rewrite !length_zip, Hlen, Hltes, !Nat.min_id in Hlo.
  rewrite (stack_sum_Permutation (select p out) out), Hsum; [done|].
  apply select_Permutation. by rewrite Hlo.
Qed.

End Permute.

Section PermuteStore.

Context (B : Backend).

#[local] Abbreviation T := (Tensor B).
#[local] Abbreviation val := (value (LIFState B)).
#[local] Abbreviation tr := (tree (LIFState B)).
#[local] Abbreviation store := (list (list val)).

Lemma reps_lookup (h : store) vs ts F i v :
  reps B h vs ts F -> vs !! i = Some v ->
  exists t Fv, ts !! i = Some t /\ rep B h v t Fv.
Proof.
  intros H Hi. destruct (reps_focus B h vs ts F i v H Hi) as (t & Fv & ? & ? & ? & _).
  by exists t, Fv.
Qed.

(** The trees of reordered entries are the reordered trees. *)
Lemma reps_select (h : store) es tes F (p : list nat) :
  reps B h es tes F ->
  Forall (fun k => (k < length es)%nat) p ->
  forall ts2 F2, reps B h (select p es) ts2 F2 -> ts2 = select p tes.
Proof.
  intros Hes. induction 1 as [|k p Hk Hp IH]; intros ts2 F2 H2.
  - by inversion H2.
  - destruct (lookup_lt_is_Some_2 es k Hk) as [v Hv].
    rewrite (select_cons _ _ _ _ Hv) in H2.
    inversion H2 as [|v0 t0 Fv0 vs0 ts0 F0 Hv0 Hvs0 Hd0]; subst.
    destruct (reps_lookup h es tes F k v Hes Hv) as (t & Fv & Ht & Hrep).
    destruct (rep_functional B h v t0 Fv0 t Fv Hv0 Hrep) as [-> _].
    rewrite (select_cons _ _ _ _ Ht). f_equal. by eapply IH.
Qed.

Lemma flags_ok_length net flags oc :
  flags_ok (mkBlockGen net flags oc) = true -> length flags = length net.
Proof.
  rewrite flags_ok_unfold, forall2b_Forall2. intros H.
  symmetry. by eapply Forall2_length.
Qed.

End PermuteStore.

(** ** Lists keep their length *)

Section Lengths.

Context (B : Backend).

#[local] Abbreviation T := (Tensor B).
#[local] Abbreviation val := (value (LIFState B)).
#[local] Abbreviation store := (list (list val)).

Lemma lens_kept_refl (h : store) : lens_kept B h h.
Proof. intros l xs H. by exists xs. Qed.

Lemma lens_kept_trans (h1 h2 h3 : store) :
  lens_kept B h1 h2 -> lens_kept B h2 h3 -> lens_kept B h1 h3.
Proof.
  intros H12 H23 l xs H. destruct (H12 l xs H) as (xs' & H' & Hlen).
  destruct (H23 l xs' H') as (xs'' & H'' & Hlen'). exists xs''. split; [done|lia].
Qed.

Lemma lens_kept_app (h : store) ext : lens_kept B h (h ++ ext).
Proof.
  intros l xs H. exists xs. split; [|done].
  rewrite lookup_app_l; [done|by eapply lookup_lt_Some].
Qed.

Lemma setitem_keeps_lengths (h : store) bs idx v h' :
  setitem B h bs idx v = Ok h' -> lens_kept B h h'.
Proof.
  destruct bs as [| |l]; simpl; try done.
  destruct (h !! l) as [slots|] eqn:Hl; [|done].
  case_decide; [|done]. intros [= <-] l0 xs H0.
  destruct (decide (l0 = l)) as [->|Hne].
  - exists (<[idx := v]> slots). split.
    + apply list_lookup_insert_eq. by eapply lookup_lt_Some.
    + rewrite length_insert. congruence.
  - exists xs. by rewrite list_lookup_insert_ne.
Qed.

Lemma run_layers_keeps_lengths (branch : list module) :
  Forall (on_block (keeps_lengths B)) branch ->
  forall bs flags idx Y (h : store) Y' h',
    run_layers B (forward B) bs branch flags idx Y h = Ok (Y', h') ->
    lens_kept B h h'.
Proof.
  induction 1 as [|layer branch Hl Hbr IH]; intros bs flags idx Y h Y' h'.
  { simpl. intros [= <- <-]. apply lens_kept_refl. }
  destruct flags as [|is_state flags]; simpl.
  { intros [= <- <-]. apply lens_kept_refl. }
  destruct is_state.
  - intros H. apply bind_Ok_inv in H as (old & Hold & H).
    apply bind_Ok_inv in H as ([[Y1 new] h1] & Hcall & H).
    apply bind_Ok_inv in H as (h2 & Hset & H).
    apply lens_kept_trans with h1; [|apply lens_kept_trans with h2].
    + destruct layer; simpl in Hcall; try done.
      * destruct old as [|s|]; [| |done].
        -- destruct (lif_call B oid Y None) as [[? ?]|]; [|done].
           injection Hcall as <- <- <-. apply lens_kept_refl.
        -- destruct (lif_call B oid Y (Some s)) as [[? ?]|]; [|done].
           injection Hcall as <- <- <-. apply lens_kept_refl.
      * by apply (Hl Y old h Y1 new h1).
    + by eapply setitem_keeps_lengths.
    + by eapply IH.
  - intros H. apply bind_Ok_inv in H as (Y1 & _ & H). by eapply IH.
Qed.

Lemma branch_state_or_new_keeps_lengths (h : store) branch e :
  lens_kept B h (branch_state_or_new B h branch e).2.
Proof.
  destruct e; simpl; [apply lens_kept_app|apply lens_kept_refl|apply lens_kept_refl].
Qed.

Lemma run_branches_keeps_lengths (net : list (list module)) :
  Forall (Forall (on_block (keeps_lengths B))) net ->
  forall X state n flags i (h : store) out out_state h',
    run_branches B (forward B) X state n net flags i h = Ok (out, out_state, h') ->
    lens_kept B h h'.
Proof.
  induction 1 as [|branch net Hbr Hnet IH]; intros X state n flags i h out out_state h'.
  { simpl. intros [= <- <- <-]. apply lens_kept_refl. }
  destruct flags as [|fl flags]; simpl.
  { intros [= <- <- <-]. apply lens_kept_refl. }
  intros H. apply bind_Ok_inv in H as ([e|] & _ & H).
  2:{ injection H as <- <- <-. apply lens_kept_refl. }
  pose proof (branch_state_or_new_keeps_lengths h branch e) as H0.
  destruct (branch_state_or_new B h branch e) as [bs h0]. simpl in H0.
  apply bind_Ok_inv in H as ([Y h1] & Hlay & H).
  apply bind_Ok_inv in H as ([[out1 st1] h2] & Hrec & [= <- <- <-]).
  apply lens_kept_trans with h0; [done|].
  apply lens_kept_trans with h1; [by eapply run_layers_keeps_lengths|by eapply IH].
Qed.

Theorem forward_keeps_lengths (b : BlockGen) : keeps_lengths B b.
Proof.
  induction b as [net flags oc Hnet] using BlockGen_nested_ind.
  intros X v h Y v' h'. simpl. intros H.
  apply bind_Ok_inv in H as ([[out out_state] h1] & Hrun & H).
  apply bind_Ok_inv in H as (Y0 & _ & [= <- <- <-]).
  apply lens_kept_trans with h1; [by eapply run_branches_keeps_lengths|].
  apply lens_kept_app.
Qed.

(** With a list of [length es] entries as state, the loop over the branches
    stops after [length es] branches. *)
Lemma run_branches_truncated (X : T) (l : loc) (n n' : nat) (net : list (list module)) :
  forall flags i (h : store) es,
    h !! l = Some es ->
    run_branches B (forward B) X (VList l) n net flags i h
    = run_branches B (forward B) X (VList l) n'
        (take (length es - i) net) (take (length es - i) flags) i h.
Proof.
  induction net as [|branch net IH]; intros flags i h es Hl.
  { by rewrite take_nil. }
  destruct flags as [|fl flags].
  { rewrite take_nil. by destruct (length es - i)%nat. }
  destruct (length es - i)%nat as [|k] eqn:Hk.
  { simpl. rewrite Hl. simpl.
    rewrite (proj2 (lookup_ge_None es i)) by lia. done. }
  simpl. rewrite Hl. simpl. destruct (es !! i) as [e|]; [|done].
  pose proof (branch_state_or_new_keeps_lengths h branch e) as H0.
  destruct (branch_state_or_new B h branch e) as [bs h0]. simpl in H0.
  destruct (run_layers B (forward B) bs branch fl 0 X h0) as [[Y h1]|e0] eqn:Hlay;
    simpl; [|done].
  assert (lens_kept B h h1) as H1.
  { apply lens_kept_trans with h0; [done|].
    eapply run_layers_keeps_lengths; [|exact Hlay].
    apply Forall_forall. intros m _. destruct m; try done.
    apply forward_keeps_lengths. }
  destruct (H1 l es Hl) as (es1 & Hl1 & Hlen1).
  rewrite (IH flags (S i) h1 es1 Hl1).
  by replace (length es1 - S i)%nat with k by lia.
Qed.

End Lengths.

(** ** The block generator, branch by branch *)

Lemma init_loop_snoc make cfgs last :
  forall oc n,
    init_loop make (cfgs ++ [last]) oc n
    = do '(b, n1) <- init_loop make cfgs oc n;
      do '(layer_list, state_layers, channels, n2) <- make last n1;
      Ok (mkBlockGen (net b ++ [layer_list]) (branch_state b ++ [state_layers])
                     (Some channels), n2).
Proof.
  induction cfgs as [|c cfgs IH]; intros oc n; simpl.
  - by destruct (make last n) as [[[[? ?] ?] ?]|].
  - destruct (make c n) as [[[[ll sl] ch] n1]|]; simpl; [|done].
    rewrite IH. destruct (init_loop make cfgs (Some ch) n1) as [[b n2]|]; simpl; [|done].
    by destruct (make last n2) as [[[[? ?] ?] ?]|].
Qed.

Lemma init_loop_out_channels make cfgs :
  forall oc n b n',
    init_loop make cfgs oc n = Ok (b, n') ->
    length (net b) = length cfgs /\
    (cfgs = [] -> out_channels b = oc) /\
    (cfgs <> [] -> exists ch, out_channels b = Some ch).
Proof.
  induction cfgs as [|c cfgs IH]; intros oc n b n'; simpl.
  - intros [= <- <-]. by split_and!.
  - intros H. apply bind_Ok_inv in H as ([[[ll sl] ch] n1] & _ & H).
    apply bind_Ok_inv in H as ([b0 n2] & Hrec & [= <- <-]).
    destruct (IH _ _ _ _ Hrec) as (Hlen & Hnil & Hcons). simpl.
    split_and!; [by rewrite Hlen|done|]. intros _.
    destruct cfgs as [|c' cfgs]; [exists ch; by apply Hnil|by apply Hcons].
Qed.

Lemma branch_loop_Pass block l :
  Gen Pass ∈ l ->
  forall ch n layer_list sl ch' n',
    branch_loop block l ch n = Ok (layer_list, sl, ch', n') ->
    IdentityClass ∈ layer_list.
Proof.
  induction l as [|c l IH]; intros Hin ch n layer_list sl ch' n'.
  { by apply elem_of_nil in Hin. }
  apply elem_of_cons in Hin as [<-|Hin]; simpl.
  - intros H.
    apply bind_Ok_inv in H as ([[[ll sl1] ch2] n2] & _ & [= <- <- <- <-]).
    apply list_elem_of_here.
  - intros H. apply bind_Ok_inv in H as ([[layer ch1] n1] & _ & H).
    apply bind_Ok_inv in H as ([[[ll sl1] ch2] n2] & Hrec & [= <- <- <- <-]).
    apply list_elem_of_further. by eapply IH.
Qed.

(** A configuration with [Pass] in a branch is never compiled. *)
Lemma make_branch_Pass (l : list cfg) (ch : Z) (n : nat) r :
  Gen Pass ∈ l -> _make_branch ch (Cfgs l) n <> Ok r.
Proof.
  intros Hin H. simpl in H.
  apply bind_Ok_inv in H as ([[[ll sl] ch'] n'] & Hloop & H).
  apply bind_Ok_inv in H as (ml & Hml & _).
  apply ModuleList_Ok in Hml.
  pose proof (branch_loop_Pass _ l Hin _ _ _ _ _ _ Hloop) as Hid.
  rewrite Hml in Hid. apply list_elem_of_fmap in Hid as (m & Hm & _). done.
Qed.

Lemma example_block_compiled : compiled example_block.
Proof. exists 4, example_cfgs, 0%nat, 5%nat. reflexivity. Defined.

Lemma stateless_block_compiled : compiled stateless_block.
Proof. exists 2, stateless_cfgs, 0%nat, 3%nat. reflexivity. Defined.

(** ** The claims *)

Section Claims.

Context (B : Backend).

#[local] Abbreviation T := (Tensor B).
#[local] Abbreviation val := (value (LIFState B)).
#[local] Abbreviation tr := (tree (LIFState B)).
#[local] Abbreviation store := (list (list val)).

(** C2. Called with state [None] on a block that [BlockGen.__init__] has
    produced, [forward] returns a state container that mirrors the block: one
    entry per branch, each entry a list with one slot per layer, the slot of
    a nested block again a container that mirrors that block, the slot of a
    spiking cell a state, every other slot [None].  It does return when the
    numeric layers do not fail and the block has a branch. *)
Theorem forward_absent_state_mirrors (b : BlockGen) (X : T) (h : store) :
  compiled b ->
  (total_backend B -> net b <> [] ->
   exists Y v h', forward B b X VNone h = Ok (Y, v, h')) /\
  (forall Y v h',
     forward B b X VNone h = Ok (Y, v, h') ->
     exists t F, rep B h' v t F /\ mirrors b t = true).
Proof.
  intros Hb. pose proof (compiled_flags_ok b Hb) as Hflags.
  assert (accepts b (TNone : tr) = true) as Hacc by (by destruct b).
  split.
  - intros Htotal Hnet.
    apply (forward_returns B b X VNone h TNone ∅); try done; [|constructor].
    by apply compiled_has_branches.
  - intros Y v h' Hfwd.
    destruct (forward_shape B b X VNone h TNone ∅ Y v h' Hflags)
      as (t' & F' & Hrep & Hm & _); [constructor|done|done|].
    by exists t', F'.
Qed.

Lemma run_steps_mirrors (b : BlockGen) (Xs : list T) :
  flags_ok b = true ->
  forall (v : val) (h : store) t F v' h',
    rep B h v t F -> mirrors b t = true ->
    run_steps B b Xs v h = Ok (v', h') ->
    exists t' F', rep B h' v' t' F' /\ mirrors b t' = true.
Proof.
  intros Hb. induction Xs as [|X Xs IH]; intros v h t F v' h' Hrep Hm; simpl.
  - intros [= <- <-]. by exists t, F.
  - intros H. apply bind_Ok_inv in H as ([[Y v1] h1] & Hfwd & Hrest).
    destruct (forward_shape B b X v h t F Y v1 h1 Hb Hrep (mirrors_accepts _ _ Hm) Hfwd)
      as (t1 & F1 & Hrep1 & Hm1 & _).
    by eapply IH.
Qed.

Lemma run_steps_returns (b : BlockGen) (Xs : list T) :
  total_backend B -> flags_ok b = true -> has_branches b = true ->
  forall (v : val) (h : store) t F,
    rep B h v t F -> accepts b t = true ->
    exists v' h', run_steps B b Xs v h = Ok (v', h').
Proof.
  intros Htotal Hflags Hbr.
  induction Xs as [|X Xs IH]; intros v h t F Hrep Hacc; simpl.
  - by eexists _, _.
  - destruct (forward_returns B b X v h t F Htotal Hflags Hbr Hrep Hacc)
      as (Y & v1 & h1 & Hfwd).
    rewrite Hfwd. simpl.
    destruct (forward_shape B b X v h t F Y v1 h1 Hflags Hrep Hacc Hfwd)
      as (t1 & F1 & Hrep1 & Hm1 & _).
    apply (IH v1 h1 t1 F1 Hrep1). by apply mirrors_accepts.
Qed.

(** C8. On a compiled block without a spiking cell at any depth, after any
    positive number of forward calls, each fed the container that the
    previous one returned (the first one [None]), the returned container has
    every list present and every leaf [None].  The calls do return when the
    numeric layers do not fail and the block has a branch. *)
Theorem stateless_leaves_stay_absent (b : BlockGen) (Xs : list T) (h : store) :
  compiled b -> no_lif b = true -> Xs <> [] ->
  (total_backend B -> net b <> [] ->
   exists v h', run_steps B b Xs VNone h = Ok (v, h')) /\
  (forall v h',
     run_steps B b Xs VNone h = Ok (v, h') ->
     exists t F, rep B h' v t F /\ leaves_none b t = true).
Proof.
  intros Hb Hlif HXs. pose proof (compiled_flags_ok b Hb) as Hflags.
  assert (accepts b (TNone : tr) = true) as Hacc by (by destruct b).
  split.
  - intros Htotal Hnet.
    apply (run_steps_returns b Xs Htotal Hflags (compiled_has_branches b Hb Hnet)
             VNone h TNone ∅); [constructor|done].
  - intros v h' Hrun. destruct Xs as [|X Xs]; [done|]. simpl in Hrun.
    apply bind_Ok_inv in Hrun as ([[Y v1] h1] & Hfwd & Hrest).
    destruct (forward_shape B b X VNone h TNone ∅ Y v1 h1 Hflags)
      as (t1 & F1 & Hrep1 & Hm1 & _); [constructor|done|done|].
    destruct (run_steps_mirrors b Xs Hflags v1 h1 t1 F1 v h' Hrep1 Hm1 Hrest)
      as (t & F & Hrep & Hm).
    exists t, F. split; [done|by apply mirrors_leaves_none].
Qed.

(** C9 (as amended). In exact arithmetic, for a compiled block and a
    permutation [p] of its branches, and for incoming containers that are
    trees in the store (no list object at two places), the container of the
    second run holding the entries of the first reordered by [p]: when the
    block returns, the block with its branches reordered returns the same
    tensor, and its returned entries are the returned entries of the first
    run reordered by [p]. *)
Theorem forward_branches_permuted
    (net : list (list module)) (flags : list (list bool)) oc oc'
    (p : list nat) (X : T) (h : store) (v v2 : val) t F t2 F2 Y v' h1 :
  exact_arithmetic B ->
  compiled (mkBlockGen net flags oc) ->
  p ≡ₚ seq 0 (length net) ->
  rep B h v t F -> rep B h v2 t2 F2 ->
  permuted_state B p (length net) h v v2 ->
  forward B (mkBlockGen net flags oc) X v h = Ok (Y, v', h1) ->
  exists v2' h2 touts F' F2',
    forward B (mkBlockGen (select p net) (select p flags) oc') X v2 h
      = Ok (Y, v2', h2) /\
    rep B h1 v' (TList touts) F' /\
    rep B h2 v2' (TList (select p touts)) F2'.
Proof.
  intros Hexact Hb Hp Hrep Hrep2 Hstate Hfwd.
  apply compiled_flags_ok, flags_ok_length in Hb.
  pose proof (perm_indices_valid _ _ Hp) as Hvalid.
  pose proof (forward_refines B (mkBlockGen net flags oc) X v h t F Hrep) as Hsim.
  rewrite Hfwd in Hsim. destruct Hsim as (t' & F' & Ht & Hrep' & _).
  assert ((t = TNone /\ t2 = TNone) \/
          (exists tes, t = TList tes /\ length tes = length net /\
             t2 = TList (select p tes))) as Htrees.
  { destruct Hstate as [[-> ->]|(l & l2 & es & -> & -> & Hl & Hl2 & Hlen)].
    - left. inversion Hrep; inversion Hrep2; done.
    - right.
      inversion Hrep as [| | l0 vs ts F0 Hl0 Hvs Hn0]; subst.
      inversion Hrep2 as [| | l3 vs2 ts2 F3 Hl3 Hvs2 Hn3]; subst.
      assert (vs = es) as -> by congruence.
      assert (vs2 = select p es) as -> by congruence.
      exists ts. split_and!; [done|by rewrite <- (reps_length _ _ _ _ _ Hvs)|].
      f_equal. eapply reps_select; [exact Hvs|by rewrite Hlen|exact Hvs2]. }
  destruct (forward_t_permute B Hexact net flags oc oc' p X t t2 Y t' Hb Hp Htrees Ht)
    as (touts & -> & Ht2).
  pose proof (forward_refines B (mkBlockGen (select p net) (select p flags) oc')
                X v2 h t2 F2 Hrep2) as Hsim2.
  destruct (forward B (mkBlockGen (select p net) (select p flags) oc') X v2 h)
    as [[[Y2 v2'] h2]|e]; unfold sim_forward in Hsim2.
  - destruct Hsim2 as (t2' & F2' & Heq & Hrep2' & _).
    rewrite Ht2 in Heq. injection Heq as <- <-.
    by exists v2', h2, touts, F', F2'.
  - by rewrite Ht2 in Hsim2.
Qed.

(** C3 (as amended). Given a state container that is a list (and a tree in
    the store), [forward] returns a newly created outer list and does not
    write the incoming outer list nor any list outside the incoming
    container; but every incoming branch list is itself the corresponding
    entry of the returned container, so the returned states are written into
    the incoming branch lists, which afterwards hold the new state. *)
Theorem forward_updates_branch_lists_in_place
    (b : BlockGen) (X : T) (h : store) (l : loc) es t F Y v' h' :
  rep B h (VList l) t F -> h !! l = Some es ->
  forward B b X (VList l) h = Ok (Y, v', h') ->
  exists l' out_state t' F',
    v' = VList l' /\ (length h <= l')%nat /\ h' !! l' = Some out_state /\
    h' !! l = Some es /\
    Forall2 (reused B) (take (length out_state) es) out_state /\
    frame B h h' F /\
    rep B h' v' t' F' /\ forward_t B b X t = Ok (Y, t').
Proof.
  intros Hrep Hl Hfwd.
  destruct (forward_list_state B b X h l es t F Y v' h' Hrep Hl Hfwd)
    as (l' & out_state & ? & ? & ? & ? & ? & ?).
  pose proof (forward_refines B b X (VList l) h t F Hrep) as Hsim.
  rewrite Hfwd in Hsim. destruct Hsim as (t' & F' & ? & ? & _).
  exists l', out_state, t', F'. by split_and!.
Qed.

(** C4 (as amended). A state container with fewer entries than the block
    has branches is not rejected: the block behaves as the block of its first
    [length es] branches, the other branches are skipped.  A branch entry
    shorter than its branch is noticed only at a stateful position beyond its
    end, where reading the slot raises [IndexError] (which names no
    position); for a branch without stateful positions the entry is not
    looked at. *)
Theorem short_state_is_not_rejected :
  (forall net flags oc (X : T) (l : loc) (h : store) es,
     h !! l = Some es ->
     forward B (mkBlockGen net flags oc) X (VList l) h
     = forward B (mkBlockGen (take (length es) net) (take (length es) flags) oc)
               X (VList l) h) /\
  (forall fwd (lb : loc) slots layer branch flags idx (Y : T) (h : store),
     h !! lb = Some slots -> (length slots <= idx)%nat ->
     run_layers B fwd (VList lb) (layer :: branch) (true :: flags) idx Y h
     = Raise IndexError) /\
  (forall fwd (bs bs' : val) branch flags idx (Y : T) (h : store),
     Forall (fun f => f = false) flags ->
     run_layers B fwd bs branch flags idx Y h
     = run_layers B fwd bs' branch flags idx Y h).
Proof.
  split_and!.
  - intros net flags oc X l h es Hl. simpl.
    rewrite (run_branches_truncated B X l (length net)
               (length (take (length es) net)) net flags 0 h es Hl).
    by rewrite Nat.sub_0_r.
  - intros fwd lb slots layer branch flags idx Y h Hlb Hlen. simpl.
    rewrite Hlb. by rewrite (proj2 (lookup_ge_None slots idx) Hlen).
  - intros fwd bs bs' branch. induction branch as [|layer branch IH];
      intros flags idx Y h Hflags; [done|].
    destruct flags as [|f flags]; [done|].
    apply Forall_cons in Hflags as [-> Hflags]. simpl.
    destruct (call B layer Y) as [Y1|]; simpl; [|done]. by apply IH.
Qed.

(** C7. An empty branch compiles to an output channel count equal to the
    input channel count; run, it contributes the input tensor to the merge;
    the sum of a stack of one tensor is that tensor, and the output of a
    block with one branch is the output of that branch. *)
Theorem empty_branch_and_single_branch :
  (forall in_channels next,
     _make_branch in_channels (Cfgs []) next = Ok ([], [], in_channels, next)) /\
  (forall fwd (bs : val) flags idx (X : T) (h : store),
     run_layers B fwd bs [] flags idx X h = Ok (X, h)) /\
  (forall (X : T) state n net flags i (h : store) out out_state h' k,
     run_branches B (forward B) X state n net flags i h = Ok (out, out_state, h') ->
     net !! k = Some [] -> (k < length out)%nat -> out !! k = Some X) /\
  (forall Y : T, stack_sum B [Y] = Ok Y) /\
  (forall branch state_flags oc (X : T) (state : val) (h : store),
     forward B (mkBlockGen [branch] [state_flags] oc) X state h
     = do e <- state_next B h state 1 0;
       match e with
       | None => Raise RuntimeError
       | Some e =>
           let '(bs, h0) := branch_state_or_new B h branch e in
           do '(Y, h1) <- run_layers B (forward B) bs branch state_flags 0 X h0;
           Ok (Y, VList (length h1), h1 ++ [[bs]])
       end).
Proof.
  split_and!; try done.
  - intros X state n net. induction net as [|branch net IH];
      intros flags i h out out_state h' k; [done|].
    destruct flags as [|fl flags]; simpl.
    { intros [= <- <- <-] _ Hk. simpl in Hk. lia. }
    intros H. apply bind_Ok_inv in H as ([e|] & _ & H).
    2:{ injection H as <- <- <-. intros _ Hk. simpl in Hk. lia. }
    destruct (branch_state_or_new B h branch e) as [bs h0].
    apply bind_Ok_inv in H as ([Y h1] & Hlay & H).
    apply bind_Ok_inv in H as ([[out1 st1] h2] & Hrec & [= <- <- <-]).
    destruct k as [|k]; simpl.
    + intros [= ->] _. simpl in Hlay. by injection Hlay as <- _.
    + intros Hk Hlen. eapply IH; [exact Hrec|done|lia].
  - intros branch state_flags oc X state h. simpl.
    destruct (state_next B h state 1 0) as [[e|]|]; simpl; try done.
    destruct (branch_state_or_new B h branch e) as [bs h0].
    by destruct (run_layers B (forward B) bs branch state_flags 0 X h0) as [[Y h1]|].
Qed.

End Claims.

(** C1 (as amended). [BlockGen.__init__] never compares the output channel
    counts of the branches: constructing a block from the branches [cfgs]
    and one more branch is constructing the block of [cfgs], compiling the
    new branch on its own, and setting [out_channels] to the count of the
    new branch.  So construction fails only where compiling one branch
    fails, and otherwise completes with the count of the last branch. *)
Theorem BlockGen_init_last_branch (in_channels : Z) (cfgs : list cfg) (last : cfg)
    (next : nat) :
  BlockGen_init in_channels (cfgs ++ [last]) next
  = do '(b, n1) <- BlockGen_init in_channels cfgs next;
    do '(layer_list, state_layers, channels, n2) <- _make_branch in_channels last n1;
    Ok (mkBlockGen (net b ++ [layer_list]) (branch_state b ++ [state_layers])
                   (Some channels), n2).
Proof. apply init_loop_snoc. Qed.

(** C1 as stated fails: two branches that compile from 4 input channels to 8
    and to 9 output channels make a block, without any error, whose
    [out_channels] is 9. *)
Lemma branch_mismatch_compiles_counterexample :
  _make_branch 4 (Cfgs [Gen (Conv 8 3 1)]) 0
    = Ok ([Conv2d 0 4 8 3 1 1], [false], 8, 1%nat) /\
  _make_branch 4 (Cfgs [Gen (Conv 9 3 1)]) 1
    = Ok ([Conv2d 1 4 9 3 1 1], [false], 9, 2%nat) /\
  BlockGen_init 4 [Cfgs [Gen (Conv 8 3 1)]; Cfgs [Gen (Conv 9 3 1)]] 0
    = Ok (mkBlockGen [[Conv2d 0 4 8 3 1 1]; [Conv2d 1 4 9 3 1 1]]
                     [[false]; [false]] (Some 9), 2%nat).
Proof. by split_and!. Qed.

(** C5 (the code departs from it). [Pass.get] returns the class
    [nn.Identity], not an instance of it, and constructs nothing; a block
    with a [Pass] layer cannot be constructed, [nn.ModuleList] refuses the
    class. *)
Theorem Pass_get_returns_the_class (in_channels : Z) (next : nat) :
  get Pass in_channels next = (IdentityClass, in_channels, next) /\
  get LIF in_channels next = (Instance (LIFCell next), in_channels, S next) /\
  get Return in_channels next = (Instance (Storage next), in_channels, S next) /\
  BlockGen_init in_channels [Cfgs [Gen Pass]] next = Raise TypeError.
Proof. by split_and!. Qed.

(** C6 (as amended). With a preset name that is not a key of the registry
    that [_load_cfg] has left, [ModelGen.__init__] fails with
    [KeyError(name)], which carries the requested name only; in the base
    class, whose [_load_cfg] raises, it fails before any lookup. *)
Theorem ModelGen_unknown_preset (default_cfgs : gmap string (list cfg))
    (name : string) (in_channels : Z) (next : nat) :
  default_cfgs !! name = None ->
  ModelGen_init (Ok default_cfgs) (inl name) in_channels next = Raise (KeyError name) /\
  names_in (KeyError name) = [name] /\
  ModelGen_init ModelGen_load_cfg (inl name) in_channels next
    = Raise NotImplementedError.
Proof.
  intros H. split_and!; [|done|done].
  unfold ModelGen_init. simpl. by rewrite H.
Qed.

Lemma ModelGen_unknown_preset_witness :
  ModelGen_init (Ok {[ "tiny"%string := [Gen (Conv 8 3 1); Gen LIF] ]})
                (inl "big"%string) 2 0 = Raise (KeyError "big") /\
  names_in (KeyError "big") = ["big"%string] /\
  ModelGen_init ModelGen_load_cfg (inl "big"%string) 2 0 = Raise NotImplementedError.
Proof.
  apply (ModelGen_unknown_preset
           {[ "tiny"%string := [Gen (Conv 8 3 1); Gen LIF] ]} "big" 2 0).
  vm_compute. reflexivity.
Defined.

(** C6 as stated fails: the registry has the one preset "tiny"; asking for
    "big" raises an exception that does not name "tiny". *)
Lemma unknown_preset_error_counterexample :
  exists e,
    ModelGen_init (Ok {[ "tiny"%string := [Gen (Conv 8 3 1); Gen LIF] ]})
                  (inl "big"%string) 2 0 = Raise e /\
    "tiny"%string ∈ dom ({[ "tiny"%string := [Gen (Conv 8 3 1); Gen LIF] ]}
                          : gmap string (list cfg)) /\
    "tiny"%string ∉ names_in e.
Proof.
  exists (KeyError "big"). split_and!.
  - reflexivity.
  - set_solver.
  - simpl. intros H. apply list_elem_of_singleton in H. discriminate.
Qed.

(** C10. A block constructed from no branch at all has no [out_channels]
    (reading it, as [_make_branch] does for a nested block, raises), and its
    forward pass fails at the merge, whatever the input and the state; a
    constructed block has an [out_channels] exactly when it was given at
    least one branch. *)
Theorem BlockGen_without_branches (B : Backend) :
  (forall in_channels next,
     BlockGen_init in_channels [] next = Ok (mkBlockGen [] [] None, next)) /\
  (forall in_channels next,
     _make_branch in_channels (Cfgs [Cfgs []]) next = Raise AttributeError) /\
  (forall oc (X : Tensor B) state h,
     forward B (mkBlockGen [] [] oc) X state h = Raise RuntimeError) /\
  (forall in_channels cfgs next b next',
     BlockGen_init in_channels cfgs next = Ok (b, next') ->
     length (net b) = length cfgs /\
     (out_channels b = None <-> cfgs = [])).
Proof.
  split_and!; try done.
  intros c cfgs n b n' H.
  destruct (init_loop_out_channels _ cfgs None n b n' H) as (Hlen & Hnil & Hcons).
  split; [done|]. split.
  - intros Hoc. destruct cfgs as [|c0 cfgs]; [done|].
    destruct Hcons as [ch Hch]; [done|congruence].
  - intros ->. by apply Hnil.
Qed.

Lemma ZBackend_total : total_backend ZBackend.
Proof.
  split_and!; simpl; intros; try done; try (by eexists).
  destruct s; by eexists.
Defined.

Lemma forward_absent_state_mirrors_witness :
  (exists Y v h', forward ZBackend example_block 5 VNone [] = Ok (Y, v, h')) /\
  (exists t F,
     rep ZBackend
         [[VNone; VState 11; VList 3%nat]; [VNone; VState 23]; [];
          [VList 1%nat; VList 2%nat]; [VNone]; [VList 0%nat; VList 4%nat]]
         (VList 5%nat) t F /\
     mirrors example_block t = true).
Proof.
  destruct (forward_absent_state_mirrors ZBackend example_block 5 []
              example_block_compiled) as [H1 H2].
  split.
  - apply H1; [exact ZBackend_total|discriminate].
  - apply (H2 45). reflexivity.
Defined.

Lemma stateless_leaves_stay_absent_witness :
  (exists v h', run_steps ZBackend stateless_block [3; 4] VNone [] = Ok (v, h')) /\
  (exists t F,
     rep ZBackend
         [[VNone; VList 6%nat]; [VNone]; []; [VList 1%nat; VList 2%nat]; [VNone];
          [VList 0%nat; VList 4%nat]; [VList 1%nat; VList 2%nat];
          [VList 0%nat; VList 4%nat]]
         (VList 7%nat) t F /\
     leaves_none stateless_block t = true).
Proof.
  destruct (stateless_leaves_stay_absent ZBackend stateless_block [3; 4] []
              stateless_block_compiled) as [H1 H2]; [reflexivity|discriminate|].
  split.
  - apply H1; [exact ZBackend_total|discriminate].
  - apply H2. reflexivity.
Defined.

Lemma ZBackend_exact : exact_arithmetic ZBackend.
Proof.
  split_and!; simpl; intros; try done; lia.
Defined.

Lemma two_branch_block_compiled : compiled two_branch_block.
Proof.
  exists 4, [Cfgs [Gen (Conv 8 3 1)]; Cfgs [Gen LIF; Gen (Conv 8 3 1)]], 0%nat, 3%nat.
  reflexivity.
Defined.

Lemma forward_branches_permuted_witness :
  exists v2' h2 touts F' F2',
    forward ZBackend
      (mkBlockGen (select [1; 0]%nat (net two_branch_block))
                  (select [1; 0]%nat (branch_state two_branch_block)) (Some 8))
      5 (VList 3%nat) two_branch_store = Ok (22, v2', h2) /\
    rep ZBackend
      [[VNone]; [VState 5; VNone]; [VList 0%nat; VList 1%nat];
       [VList 1%nat; VList 0%nat]; [VList 0%nat; VList 1%nat]]
      (VList 4%nat) (TList touts) F' /\
    rep ZBackend h2 v2' (TList (select [1; 0]%nat touts)) F2'.
Proof.
  eapply (forward_branches_permuted ZBackend _ _ _ (Some 8) [1; 0]%nat 5
            two_branch_store (VList 2%nat) (VList 3%nat)).
  - exact ZBackend_exact.
  - exact two_branch_block_compiled.
  - apply perm_swap.
  - build_rep.
  - build_rep.
  - right. exists 2%nat, 3%nat, [VList 0%nat; VList 1%nat]. by split_and!.
  - reflexivity.
Defined.

Lemma shared_entry_block_compiled : compiled shared_entry_block.
Proof.
  exists 1, [Cfgs [Gen LIF; Gen Return]; Cfgs [Gen LIF; Gen (Conv 1 3 1)]],
    0%nat, 4%nat.
  reflexivity.
Defined.

(** C9 as stated fails: with the two branch entries of the incoming
    container being one list object, the block returns 26 and the block with
    its two branches exchanged (the entries exchanged too, which is the same
    container) returns 21. *)
Lemma merge_order_shared_entry_counterexample :
  compiled shared_entry_block /\
  exact_arithmetic ZBackend /\
  [1; 0]%nat ≡ₚ seq 0 (length (net shared_entry_block)) /\
  permuted_state ZBackend [1; 0]%nat 2 shared_entry_store (VList 1%nat) (VList 1%nat) /\
  (exists v' h1,
     forward ZBackend shared_entry_block 5 (VList 1%nat) shared_entry_store
     = Ok (26, v', h1)) /\
  (exists v2' h2,
     forward ZBackend
       (mkBlockGen (select [1; 0]%nat (net shared_entry_block))
                   (select [1; 0]%nat (branch_state shared_entry_block)) (Some 1))
       5 (VList 1%nat) shared_entry_store
     = Ok (21, v2', h2)).
Proof.
  split_and!.
  - exact shared_entry_block_compiled.
  - exact ZBackend_exact.
  - apply perm_swap.
  - right. exists 1%nat, 1%nat, [VList 0%nat; VList 0%nat]. by split_and!.
  - eexists _, _. reflexivity.
  - eexists _, _. reflexivity.
Qed.

Lemma lif_block_compiled : compiled lif_block.
Proof. exists 3, [Cfgs [Gen LIF]], 0%nat, 1%nat. reflexivity. Defined.

(** C3 as stated fails: the container returned by a first call is given to
    a second call, after which the slot of its branch list holds the state
    of the second step. *)
Lemma incoming_state_overwritten_counterexample :
  compiled lif_block /\
  forward ZBackend lif_block 5 VNone [] = Ok (5, VList 1%nat, lif_store) /\
  lif_store !! 0%nat = Some [VState 5] /\
  exists h',
    forward ZBackend lif_block 5 (VList 1%nat) lif_store = Ok (10, VList 2%nat, h') /\
    h' !! 0%nat = Some [VState 10].
Proof.
  split_and!; [exact lif_block_compiled|reflexivity|reflexivity|].
  eexists. split; reflexivity.
Qed.

Lemma forward_updates_branch_lists_in_place_witness :
  exists l' out_state t' F',
    (VList 2%nat : value Z) = VList l' /\ (length lif_store <= l')%nat /\
    [[VState 10]; [VList 0%nat]; [VList 0%nat]] !! l' = Some out_state /\
    [[VState 10]; [VList 0%nat]; [VList 0%nat]] !! 1%nat = Some [VList 0%nat] /\
    Forall2 (reused ZBackend) (take (length out_state) [VList 0%nat]) out_state /\
    frame ZBackend lif_store [[VState 10]; [VList 0%nat]; [VList 0%nat]]
          ({[1%nat]} ∪ (({[0%nat]} ∪ (∅ ∪ ∅)) ∪ ∅)) /\
    rep ZBackend [[VState 10]; [VList 0%nat]; [VList 0%nat]] (VList 2%nat) t' F' /\
    forward_t ZBackend lif_block 5 (TList [TList [TState 5]]) = Ok (10, t').
Proof.
  apply (forward_updates_branch_lists_in_place ZBackend lif_block 5 lif_store 1%nat
           [VList 0%nat] (TList [TList [TState 5]]) _ 10).
  - build_rep.
  - reflexivity.
  - reflexivity.
Defined.

(** C4 as stated fails: the block of two branches, given a container with
    one entry, runs its first branch only and returns; given a container
    whose second entry is shorter than the second branch, it returns too. *)
Lemma short_state_accepted_counterexample :
  compiled two_branch_block /\
  length (net two_branch_block) = 2%nat /\
  (exists v' h',
     forward ZBackend two_branch_block 5 (VList 1%nat) [[VNone]; [VList 0%nat]]
     = Ok (11, v', h')) /\
  (exists v' h',
     forward ZBackend two_branch_block 5 (VList 2%nat)
             [[VNone]; [VNone]; [VList 0%nat; VList 1%nat]]
     = Ok (22, v', h')).
Proof.
  split_and!; [exact two_branch_block_compiled|reflexivity| |];
    eexists _, _; reflexivity.
Qed.

Lemma short_state_is_not_rejected_witness :
  forward ZBackend two_branch_block 5 (VList 1%nat) [[VNone]; [VList 0%nat]]
  = forward ZBackend (mkBlockGen [[Conv2d 0 4 8 3 1 1]] [[false]] (Some 8))
            5 (VList 1%nat) [[VNone]; [VList 0%nat]] /\
  run_layers ZBackend (forward ZBackend) (VList 0%nat) [LIFCell 1; Conv2d 2 4 8 3 1 1]
             [true; false] 1 5 [[VNone]] = Raise IndexError /\
  run_layers ZBackend (forward ZBackend) (VList 0%nat) [Conv2d 0 4 8 3 1 1] [false] 0 5 []
  = run_layers ZBackend (forward ZBackend) VNone [Conv2d 0 4 8 3 1 1] [false] 0 5 [].
Proof.
  destruct (short_state_is_not_rejected ZBackend) as (H1 & H2 & H3).
  split_and!.
  - apply (H1 (net two_branch_block) (branch_state two_branch_block) (Some 8) 5
              1%nat [[VNone]; [VList 0%nat]] [VList 0%nat]).
    reflexivity.
  - apply (H2 (forward ZBackend) 0%nat [VNone]); [reflexivity|simpl; lia].
  - apply H3. repeat constructor.
Defined.

Lemma empty_branch_and_single_branch_witness :
  [23; 11] !! 1%nat = Some 11.
Proof.
  destruct (empty_branch_and_single_branch ZBackend) as (_ & _ & H & _).
  apply (H 11 VNone 2%nat [[BatchNorm2d 2 8; LIFCell 3]; []] [[false; true]; []]
           0%nat [] [23; 11]
           [VList 0%nat; VList 1%nat] [[VNone; VState 23]; []] 1%nat).
  - reflexivity.
  - reflexivity.
  - simpl. lia.
Defined.

Lemma BlockGen_without_branches_witness :
  length (net example_block) = length example_cfgs /\
  (out_channels example_block = None <-> example_cfgs = []).
Proof.
  destruct (BlockGen_without_branches ZBackend) as (_ & _ & _ & H).
  apply (H 4 example_cfgs 0%nat example_block 5%nat). reflexivity.
Defined.

(** ** Induction over a successful construction *)

Section CompileInd.

(** [P l ch n ml ch' n']: the branch configuration [l], with [ch] channels
    coming in and the counter at [n], has given the layers [ml], [ch']
    channels and the counter [n'].  [Q cfgs ch oc n b n']: the loop of
    [__init__] over [cfgs] has given the block [b]. *)
Variable P : list cfg -> Z -> nat -> list module -> Z -> nat -> Prop.
Variable Q : list cfg -> Z -> option Z -> nat -> BlockGen -> nat -> Prop.

Hypothesis Pnil : forall ch n, P [] ch n [] ch n.
Hypothesis Pgen : forall g l ch n m ch1 n1 ml ch' n',
  get g ch n = (Instance m, ch1, n1) -> P l ch1 n1 ml ch' n' ->
  P (Gen g :: l) ch n (m :: ml) ch' n'.
Hypothesis Pblock : forall sub l ch n b n1 och ml ch' n',
  Q sub ch None n b n1 -> out_channels b = Some och -> P l och n1 ml ch' n' ->
  P (Cfgs sub :: l) ch n (Block b :: ml) ch' n'.
Hypothesis Qnil : forall ch oc n, Q [] ch oc n (mkBlockGen [] [] oc) n.
Hypothesis Qcons : forall l cfgs ch oc n ml ch1 n1 b n2,
  P l ch n ml ch1 n1 -> Q cfgs ch (Some ch1) n1 b n2 ->
  Q (Cfgs l :: cfgs) ch oc n
    (mkBlockGen (ml :: net b) (map stateful ml :: branch_state b) (out_channels b)) n2.

Lemma init_loop_ind make ch cfgs :
  Forall (fun c => forall n ml sl ch' n',
            make c n = Ok (ml, sl, ch', n') ->
            exists l, c = Cfgs l /\ sl = map stateful ml /\ P l ch n ml ch' n') cfgs ->
  forall oc n b n', init_loop make cfgs oc n = Ok (b, n') -> Q cfgs ch oc n b n'.
Proof.
  induction 1 as [|c cfgs Hc Hcs IH]; intros oc n b n'; simpl.
  - intros [= <- <-]. apply Qnil.
  - intros H. apply bind_Ok_inv in H as ([[[ml sl] ch1] n1] & Hm & H).
    apply bind_Ok_inv in H as ([b0 n2] & Hrec & [= <- <-]).
    destruct (Hc _ _ _ _ _ Hm) as (l & -> & -> & HP).
    eapply Qcons; [exact HP|]. by eapply IH.
Qed.

Lemma make_branch_ind (c : cfg) :
  (forall l, c = Cfgs l -> forall ch n ml sl ch' n',
     _make_branch ch c n = Ok (ml, sl, ch', n') ->
     sl = map stateful ml /\ P l ch n ml ch' n') /\
  (forall sub, c = Cfgs sub -> forall ch oc n b n',
     init_loop (_make_branch ch) sub oc n = Ok (b, n') -> Q sub ch oc n b n').
Proof.
  induction c as [g|l IH] using cfg_nested_ind; split; try done.
  - intros ? [= <-] ch n ml sl ch' n'. simpl. intros H.
    apply bind_Ok_inv in H as ([[[ll sl0] ch0] n0] & Hloop & H).
    apply bind_Ok_inv in H as (ml0 & Hml & [= <- <- <- <-]).
    apply ModuleList_Ok in Hml as ->.
    revert ch n ml0 sl0 ch0 n0 Hloop.
    induction IH as [|c l0 Hc Hl IHl]; intros ch n ml0 sl0 ch0 n0; simpl.
    + intros [= Hll <- <- <-]. destruct ml0; [|done]. split; [done|apply Pnil].
    + intros H. apply bind_Ok_inv in H as ([[layer ch1] n1] & Hlayer & H).
      apply bind_Ok_inv in H as ([[[ll sl1] ch2] n2] & Hrec & [= Hll <- <- <-]).
      destruct ml0 as [|m ml0]; [done|]. simpl in Hll. injection Hll as -> ->.
      destruct (IHl _ _ _ _ _ _ Hrec) as [-> HP]. split; [done|].
      destruct c as [g|sub].
      * injection Hlayer as Hget. by eapply Pgen.
      * apply bind_Ok_inv in Hlayer as ([b n3] & Hb & Hlayer).
        destruct (out_channels b) as [och|] eqn:Hoc; [|done].
        injection Hlayer as <- <- <-.
        eapply Pblock; [|exact Hoc|exact HP].
        exact (proj2 Hc sub eq_refl _ _ _ _ _ Hb).
  - intros sub [= <-] ch oc n b n'. apply init_loop_ind.
    eapply Forall_impl; [exact IH|]. intros c [Hc _] n0 ml sl ch0 n0' Hm.
    destruct c as [g|l0]; [done|]. exists l0. split; [done|]. by apply Hc.
Qed.

Lemma BlockGen_init_ind ch cfgs n b n' :
  BlockGen_init ch cfgs n = Ok (b, n') -> Q cfgs ch None n b n'.
Proof. exact (proj2 (make_branch_ind (Cfgs cfgs)) cfgs eq_refl ch None n b n'). Qed.

Lemma make_branch_Ok_ind l ch n ml sl ch' n' :
  _make_branch ch (Cfgs l) n = Ok (ml, sl, ch', n') ->
  sl = map stateful ml /\ P l ch n ml ch' n'.
Proof. exact (proj1 (make_branch_ind (Cfgs l)) l eq_refl ch n ml sl ch' n'). Qed.

End CompileInd.

(** ** The layers of a constructed block *)

Lemma block_oids_unfold net flags oc :
  block_oids (mkBlockGen net flags oc) = concat (map layers_oids net).
Proof. done. Qed.

Lemma layers_oids_cons m ml :
  layers_oids (m :: ml) = module_oids m ++ layers_oids ml.
Proof. done. Qed.

Lemma generators_cons c l :
  generators (Cfgs (c :: l)) = generators c ++ generators (Cfgs l).
Proof. done. Qed.

Lemma seq_app_add (n k1 k2 : nat) :
  seq n k1 ++ seq (n + k1) k2 = seq n (k1 + k2).
Proof. by rewrite seq_app. Qed.

Lemma get_oid g ch n m ch1 n1 :
  get g ch n = (Instance m, ch1, n1) -> module_oids m = [n] /\ n1 = S n.
Proof.
  destruct g as [| | [] | | |]; simpl; intros H; by simplify_eq.
Qed.

Lemma get_channels g ch n m ch1 n1 :
  get g ch n = (Instance m, ch1, n1) ->
  layers_channels wired [m] ch = Some ch1.
Proof.
  destruct g as [| | [] | | |]; simpl; intros H; simplify_eq; simpl;
    by rewrite ?decide_True.
Qed.

Lemma layers_channels_cons blk m ml ch ch1 :
  layers_channels blk [m] ch = Some ch1 ->
  layers_channels blk (m :: ml) ch = layers_channels blk ml ch1.
Proof.
  destruct m; simpl; repeat case_decide; try done; try (by intros [= <-]).
  destruct (blk b ch); [|done]. destruct (out_channels b); [|done].
  by intros [= <-].
Qed.

(** X1. one fresh layer object per generator, in the order of the
    configuration.  A block constructed with the allocation counter at
    [next] holds the objects [next], [next + 1], ... in the order of its
    branches and layers, one for every generator of the configuration; no
    object stands at two positions. *)
Theorem BlockGen_init_fresh_layers (in_channels : Z) (cfgs : list cfg)
    (next : nat) (b : BlockGen) (next' : nat) :
  BlockGen_init in_channels cfgs next = Ok (b, next') ->
  next' = (next + length (generators (Cfgs cfgs)))%nat /\
  block_oids b = seq next (length (generators (Cfgs cfgs))) /\
  NoDup (block_oids b).
Proof.
  intros H.
  assert (next' = (next + length (generators (Cfgs cfgs)))%nat /\
          block_oids b = seq next (length (generators (Cfgs cfgs)))) as [H1 H2].
  { revert H. apply BlockGen_init_ind with
      (P := fun l (ch : Z) n ml (ch' : Z) n' =>
              n' = (n + length (generators (Cfgs l)))%nat /\
              layers_oids ml = seq n (length (generators (Cfgs l))))
      (Q := fun cfgs (ch : Z) (oc : option Z) n b n' =>
              n' = (n + length (generators (Cfgs cfgs)))%nat /\
              block_oids b = seq n (length (generators (Cfgs cfgs)))).
    - intros ch n. simpl. split; [lia|done].
    - intros g l ch n m ch1 n1 ml ch' n' Hget [-> Hml].
      apply get_oid in Hget as [Hm ->].
      rewrite generators_cons, layers_oids_cons, Hm, Hml. simpl.
      split; [lia|done].
    - intros sub l ch n b0 n1 och ml ch' n' [-> Hb] _ [-> Hml].
      rewrite generators_cons, layers_oids_cons, length_app, Hml. simpl.
      rewrite Hb, seq_app_add. split; [lia|done].
    - intros ch oc n. simpl. split; [lia|done].
    - intros l cfgs0 ch oc n ml ch1 n1 b0 n2 [-> Hml] [-> Hb].
      rewrite generators_cons, length_app.
      destruct b0 as [bnet bflags boc]. rewrite block_oids_unfold in *. simpl.
      rewrite Hml, Hb, seq_app_add. split; [lia|done]. }
  split_and!; [done..|]. rewrite H2. apply NoDup_seq.
Qed.

(** X2. the mask marks the stateful layers.  In a constructed block,
    every branch has one layer for every element of its configuration, and
    the mask of a branch is [_is_module_stateful] of its layers, position
    by position and at every depth: true at the spiking cells and at the
    nested blocks, false elsewhere. *)
Theorem BlockGen_init_mask (in_channels : Z) (cfgs : list cfg)
    (next : nat) (b : BlockGen) (next' : nat) :
  BlockGen_init in_channels cfgs next = Ok (b, next') ->
  branch_state b = map (map stateful) (net b) /\
  Forall2 (fun c branch => exists l, c = Cfgs l /\ length branch = length l)
          cfgs (net b) /\
  flags_ok b = true.
Proof.
  intros H. split_and!.
  - revert H. apply BlockGen_init_ind with
      (P := fun _ _ _ _ _ _ => True)
      (Q := fun _ _ _ _ b _ => branch_state b = map (map stateful) (net b));
      try done.
    intros l cfgs0 ch oc n ml ch1 n1 b0 n2 _ Hb. simpl. by rewrite Hb.
  - revert H. apply BlockGen_init_ind with
      (P := fun l _ _ ml _ _ => length ml = length l)
      (Q := fun cfgs _ _ _ b _ =>
              Forall2 (fun c branch => exists l, c = Cfgs l /\ length branch = length l)
                      cfgs (net b)).
    + done.
    + intros. simpl. by f_equal.
    + intros. simpl. by f_equal.
    + intros. simpl. constructor.
    + intros l cfgs0 ch oc n ml ch1 n1 b0 n2 Hl Hb. simpl.
      constructor; [by exists l|done].
  - apply compiled_flags_ok. by exists in_channels, cfgs, next, next'.
Qed.

(** X3. the layers are built for the channels that reach them.  In a
    constructed block, at every depth, every convolution and every batch
    normalisation was built for the channel count that reaches it along its
    branch (the input count of the block at the head of a branch, the output
    count of the convolution or nested block before it otherwise), and
    [out_channels] is the count that leaves the last branch. *)
Theorem BlockGen_init_wired (in_channels : Z) (cfgs : list cfg)
    (next : nat) (b : BlockGen) (next' : nat) :
  BlockGen_init in_channels cfgs next = Ok (b, next') ->
  wired b in_channels = true.
Proof.
  intros H.
  enough (branches_wired (layers_channels wired) in_channels (out_channels b)
                         (net b) None = true) by by destruct b.
  revert H. apply BlockGen_init_ind with
    (P := fun _ ch _ ml ch' _ => layers_channels wired ml ch = Some ch')
    (Q := fun _ ch oc _ b _ =>
            branches_wired (layers_channels wired) ch (out_channels b) (net b) oc
            = true).
  - done.
  - intros g l ch n m ch1 n1 ml ch' n' Hget Hml.
    by rewrite (layers_channels_cons _ _ _ _ _ (get_channels _ _ _ _ _ _ Hget)).
  - intros sub l ch n b0 n1 och ml ch' n' Hb Hoc Hml.
    rewrite (layers_channels_cons _ _ _ _ och); [done|].
    simpl. destruct b0 as [bnet bflags boc]. simpl in *. by rewrite Hb, Hoc.
  - intros ch oc n. simpl. by apply bool_decide_eq_true.
  - intros l cfgs0 ch oc n ml ch1 n1 b0 n2 Hml Hb. simpl. by rewrite Hml.
Qed.

Lemma BlockGen_init_example :
  BlockGen_init 4 example_cfgs 0 = Ok (example_block, 5%nat).
Proof. reflexivity. Qed.

Lemma BlockGen_init_fresh_layers_witness :
  5%nat = (0 + length (generators (Cfgs example_cfgs)))%nat /\
  block_oids example_block = seq 0 (length (generators (Cfgs example_cfgs))) /\
  NoDup (block_oids example_block).
Proof.
  apply (BlockGen_init_fresh_layers 4 example_cfgs 0 example_block 5).
  reflexivity.
Defined.

Lemma BlockGen_init_mask_witness :
  branch_state example_block = map (map stateful) (net example_block) /\
  Forall2 (fun c branch => exists l, c = Cfgs l /\ length branch = length l)
          example_cfgs (net example_block) /\
  flags_ok example_block = true.
Proof.
  apply (BlockGen_init_mask 4 example_cfgs 0 example_block 5). reflexivity.
Defined.

Lemma BlockGen_init_wired_witness : wired example_block 4 = true.
Proof.
  apply (BlockGen_init_wired 4 example_cfgs 0 example_block 5). reflexivity.
Defined.

(** ** Which configurations can be built *)

Lemma ModuleList_Instances ml : ModuleList (map Instance ml) = Ok ml.
Proof. induction ml as [|m ml IH]; simpl; [done|]. by rewrite IH. Qed.

Lemma ModuleList_IdentityClass ll :
  IdentityClass ∈ ll -> ModuleList ll = Raise TypeError.
Proof.
  induction ll as [|[m|] ll IH]; simpl.
  - by intros ?%elem_of_nil.
  - intros [?|Hin]%elem_of_cons; [done|]. by rewrite (IH Hin).
  - done.
Qed.

Lemma last_conv_cons ch g gs :
  last_conv ch (g :: gs)
  = last_conv (match g with Conv o _ _ => o | _ => ch end) gs.
Proof. done. Qed.

Lemma branch_loop_flat block gs :
  forall ch n, exists ll sl n',
    branch_loop block (map Gen gs) ch n = Ok (ll, sl, last_conv ch gs, n') /\
    (Pass ∈ gs -> IdentityClass ∈ ll) /\
    (Pass ∉ gs -> exists ml,
       ll = map Instance ml /\ sl = map stateful ml /\
       length ml = length gs /\ n' = (n + length gs)%nat).
Proof.
  induction gs as [|g gs IH]; intros ch n.
  - exists [], [], n. split_and!.
    + done.
    + by intros ?%elem_of_nil.
    + intros _. exists []. split_and!; try done; simpl; lia.
  - change (map Gen (g :: gs)) with (Gen g :: map Gen gs).
    rewrite last_conv_cons.
    assert (exists layer n1,
              get g ch n = (layer, match g with Conv o _ _ => o | _ => ch end, n1) /\
              (g = Pass -> layer = IdentityClass) /\
              (g <> Pass -> exists m, layer = Instance m /\ n1 = S n))
      as (layer & n1 & Hget & HPass & Hinst).
    { destruct g as [| | [] | | |]; simpl; eexists _, _;
        (split_and!; [reflexivity|done|]); try done; intros _; by eexists. }
    destruct (IH (match g with Conv o _ _ => o | _ => ch end) n1)
      as (ll & sl & n' & Hloop & HP & HnP).
    exists (layer :: ll), (_is_module_stateful layer :: sl), n'.
    split_and!.
    + simpl. rewrite Hget. simpl.
      change ((fix loop (l : list cfg) (channels : Z) (next : nat) {struct l} :=
                 _) (map Gen gs) ?c ?k)
        with (branch_loop block (map Gen gs) c k).
      by rewrite Hloop.
    + intros [<-|Hin]%elem_of_cons.
      * rewrite HPass by done. apply elem_of_cons. by left.
      * apply elem_of_cons. right. by apply HP.
    + intros Hnot. apply not_elem_of_cons in Hnot as [Hg Hgs].
      destruct (Hinst (ltac:(congruence))) as (m & -> & ->).
      destruct (HnP Hgs) as (ml & -> & -> & Hlen & ->).
      exists (m :: ml). split_and!; try done; simpl; [by f_equal|lia].
Qed.

(** X4. a branch of plain generators.  A branch configuration without
    nested lists cannot be built when it contains [Pass] ([TypeError]);
    otherwise it gives one layer per generator, the mask of these layers, as
    channel count the [out_channels] of its last [Conv] (the incoming count
    when it has none), and moves the allocation counter by the number of
    generators. *)
Theorem make_branch_flat (in_channels : Z) (gs : list LayerGen) (next : nat) :
  (Pass ∈ gs ->
   _make_branch in_channels (Cfgs (map Gen gs)) next = Raise TypeError) /\
  (Pass ∉ gs ->
   exists ml,
     _make_branch in_channels (Cfgs (map Gen gs)) next
     = Ok (ml, map stateful ml, last_conv in_channels gs, (next + length gs)%nat) /\
     length ml = length gs).
Proof.
  destruct (branch_loop_flat
              (fun ch sub n => init_loop (_make_branch ch) sub None n)
              gs in_channels next) as (ll & sl & n' & Hloop & HP & HnP).
  split.
  - intros Hin. simpl. rewrite Hloop. simpl.
    by rewrite (ModuleList_IdentityClass _ (HP Hin)).
  - intros Hnot. destruct (HnP Hnot) as (ml & -> & -> & Hlen & ->).
    exists ml. split; [|done]. simpl. rewrite Hloop. simpl.
    by rewrite ModuleList_Instances.
Qed.

Lemma make_branch_flat_witness :
  exists ml,
    _make_branch 4 (Cfgs (map Gen [Conv 8 3 1; LIF; Norm])) 0
    = Ok (ml, map stateful ml, last_conv 4 [Conv 8 3 1; LIF; Norm],
          (0 + length [Conv 8 3 1; LIF; Norm])%nat) /\
    length ml = length [Conv 8 3 1; LIF; Norm].
Proof.
  apply (make_branch_flat 4 [Conv 8 3 1; LIF; Norm] 0).
  intros Hin. repeat (apply elem_of_cons in Hin as [Hin|Hin]; [discriminate|]).
  by apply elem_of_nil in Hin.
Defined.






(** ** The model generator and the pooling generator *)

Lemma init_loop_single make c oc n :
  init_loop make [c] oc n
  = do '(ml, sl, ch, n1) <- make c n; Ok (mkBlockGen [ml] [sl] (Some ch), n1).
Proof. simpl. by destruct (make c n) as [[[[ml sl] ch] n1]|e]. Qed.

(** X6. a model is its configuration as the one branch of a block.  For
    a configuration list, or the name of a preset that stands for that list,
    [ModelGen.__init__] (after a [_load_cfg] that has returned) does what
    [_make_branch] does on the list: it fails as [_make_branch] fails, and
    otherwise its block has this one branch and the model's [out_channels]
    is the channel count of the branch. *)
Theorem ModelGen_init_one_branch (default_cfgs : gmap string (list cfg))
    (l : list cfg) (cfg : string + list cfg) (in_channels : Z) (next : nat) :
  match cfg with
  | inl name => default_cfgs !! name = Some l
  | inr l' => l' = l
  end ->
  ModelGen_init (Ok default_cfgs) cfg in_channels next
  = do '(ml, sl, ch, next') <- _make_branch in_channels (Cfgs l) next;
    Ok (mkBlockGen [ml] [sl] (Some ch), ch, next').
Proof.
  intros Hcfg. unfold ModelGen_init. cbn [bind].
  assert (match cfg with
          | inr l0 => Ok l0
          | inl name =>
              match default_cfgs !! name with
              | Some l0 => Ok l0
              | None => Raise (KeyError name)
              end
          end = Ok l) as ->.
  { destruct cfg as [name|l']; [by rewrite Hcfg|by subst]. }
  cbn [bind]. unfold BlockGen_init. rewrite init_loop_single.
  by destruct (_make_branch in_channels (Cfgs l) next) as [[[[ml sl] ch] n']|e].
Qed.

Lemma ModelGen_init_one_branch_witness :
  ModelGen_init (Ok {[ "tiny"%string := [Gen (Conv 8 3 1); Gen LIF] ]})
                (inl "tiny"%string) 2 0
  = do '(ml, sl, ch, next') <- _make_branch 2 (Cfgs [Gen (Conv 8 3 1); Gen LIF]) 0;
    Ok (mkBlockGen [ml] [sl] (Some ch), ch, next').
Proof.
  apply (ModelGen_init_one_branch _ _ (inl "tiny"%string)). reflexivity.
Defined.

(** X7. the pooling generator.  [Pool(type, ...)] raises [ValueError]
    exactly when [type] is none of ["A"], ["M"] and ["S"]; for these three
    its [get] builds a new average, maximum or sum pooling layer with the
    kernel size and stride given (the sum pooling without padding), a layer
    without state, and hands on the channel count. *)
Theorem Pool_init_types (type : string) (kernel_size stride : Z) :
  (Pool_init type kernel_size stride = Raise ValueError
   <-> type ∉ ["A"%string; "M"%string; "S"%string]) /\
  (type ∈ ["A"%string; "M"%string; "S"%string] ->
   exists p,
     Pool_init type kernel_size stride = Ok (Pool p kernel_size stride) /\
     forall in_channels next,
       get (Pool p kernel_size stride) in_channels next
       = (Instance (match p with
                    | AvgPool => AvgPool2d next kernel_size stride
                    | MaxPool => MaxPool2d next kernel_size stride
                    | SumPool => SumPool2d next kernel_size stride 0
                    end), in_channels, S next) /\
       (type = "A"%string <-> p = AvgPool) /\
       (type = "M"%string <-> p = MaxPool) /\
       (type = "S"%string <-> p = SumPool)).
Proof.
  unfold Pool_init. split.
  - rewrite !not_elem_of_cons. repeat case_decide; split; try done; try tauto.
    intros _. split_and!; try done. apply not_elem_of_nil.
  - rewrite !elem_of_cons, elem_of_nil.
    intros [->|[->|[->|[]]]]; simpl; eexists; (split; [reflexivity|]);
      intros c n; (split; [reflexivity|]); split_and!; by split.
Qed.

Lemma Pool_init_types_witness :
  exists p,
    Pool_init "S" 2 2 = Ok (Pool p 2 2) /\
    forall in_channels next,
      get (Pool p 2 2) in_channels next
      = (Instance (match p with
                   | AvgPool => AvgPool2d next 2 2
                   | MaxPool => MaxPool2d next 2 2
                   | SumPool => SumPool2d next 2 2 0
                   end), in_channels, S next) /\
      ("S"%string = "A"%string <-> p = AvgPool) /\
      ("S"%string = "M"%string <-> p = MaxPool) /\
      ("S"%string = "S"%string <-> p = SumPool).
Proof.
  apply (proj2 (Pool_init_types "S" 2 2)).
  apply elem_of_cons. right. apply elem_of_cons. right. apply elem_of_cons. by left.
Defined.


(** ** More on the forward pass *)

Section ForwardFacts.

Context (B : Backend).

#[local] Abbreviation T := (Tensor B).
#[local] Abbreviation val := (value (LIFState B)).
#[local] Abbreviation tr := (tree (LIFState B)).
#[local] Abbreviation store := (list (list val)).

Lemma forward_to_tree (b : BlockGen) (X : T) (v : val) (h : store) t F Y v' h' :
  rep B h v t F -> forward B b X v h = Ok (Y, v', h') ->
  exists t' F', forward_t B b X t = Ok (Y, t') /\ rep B h' v' t' F'.
Proof.
  intros Hrep Hfwd. pose proof (forward_refines B b X v h t F Hrep) as Hsim.
  rewrite Hfwd in Hsim. destruct Hsim as (t' & F' & Ht & Hrep' & _).
  by exists t', F'.
Qed.

Lemma forward_of_tree (b : BlockGen) (X : T) (v : val) (h : store) t F Y t' :
  rep B h v t F -> forward_t B b X t = Ok (Y, t') ->
  exists v' h' F', forward B b X v h = Ok (Y, v', h') /\ rep B h' v' t' F'.
Proof.
  intros Hrep Ht. pose proof (forward_refines B b X v h t F Hrep) as Hsim.
  destruct (forward B b X v h) as [[[Y1 v1] h1]|e]; unfold sim_forward in Hsim.
  - destruct Hsim as (t1 & F1 & Ht1 & Hrep1 & _).
    rewrite Ht in Ht1. injection Ht1 as <- <-. by exists v1, h1, F1.
  - congruence.
Qed.


(** X9. an empty list as state.  Called with a state that is the empty
    list, [forward] raises [RuntimeError] on every block: no branch is run
    and there is nothing to stack. *)
Theorem forward_empty_state_list (b : BlockGen) (X : T) (l : loc) (h : store) :
  h !! l = Some [] -> forward B b X (VList l) h = Raise RuntimeError.
Proof.
  intros Hl. destruct b as [net flags oc]. simpl.
  destruct net as [|branch net]; [done|]. destruct flags as [|fl flags]; [done|].
  simpl. by rewrite Hl.
Qed.

Lemma run_branches_lengths fwd (X : T) state n net :
  forall flags i (h : store) out out_state h',
    run_branches B fwd X state n net flags i h = Ok (out, out_state, h') ->
    length out = length out_state /\ (length out_state <= length net)%nat.
Proof.
  induction net as [|branch net IH]; intros flags i h out out_state h'.
  { simpl. intros [= <- <- <-]. simpl. lia. }
  destruct flags as [|fl flags]; simpl.
  { intros [= <- <- <-]. simpl. lia. }
  intros H. apply bind_Ok_inv in H as ([e|] & _ & H).
  2:{ injection H as <- <- <-. simpl. lia. }
  destruct (branch_state_or_new B h branch e) as [bs h0].
  apply bind_Ok_inv in H as ([Y h1] & _ & H).
  apply bind_Ok_inv in H as ([[out1 st1] h2] & Hrec & [= <- <- <-]).
  destruct (IH _ _ _ _ _ _ Hrec). simpl. lia.
Qed.

Lemma lens_kept_length (h h' : store) : lens_kept B h h' -> (length h <= length h')%nat.
Proof.
  intros H. destruct (decide (length h <= length h')%nat) as [|Hlt]; [done|].
  destruct (lookup_lt_is_Some_2 h (length h')) as [xs Hxs]; [lia|].
  destruct (H _ _ Hxs) as (xs' & Hxs' & _).
  apply lookup_lt_Some in Hxs'. lia.
Qed.

(** X10. forward resizes no list.  Whatever block and state container it
    is given, shared lists included, a forward call that returns has changed
    the length of no list that existed before the call, and what it returns
    is a list that did not exist before, with at least one entry and at most
    one entry per branch. *)
Theorem forward_resizes_no_list (b : BlockGen) (X : T) (v : val) (h : store)
    Y v' h' :
  forward B b X v h = Ok (Y, v', h') ->
  lens_kept B h h' /\
  exists l' out_state,
    v' = VList l' /\ (length h <= l')%nat /\ h' !! l' = Some out_state /\
    (0 < length out_state <= length (net b))%nat.
Proof.
  intros Hfwd. split; [by eapply forward_keeps_lengths|].
  destruct b as [bnet flags oc]. simpl in Hfwd.
  apply bind_Ok_inv in Hfwd as ([[out out_state] h1] & Hrun & Hfwd).
  apply bind_Ok_inv in Hfwd as (Y0 & Hsum & [= <- <- <-]).
  exists (length h1), out_state. split_and!.
  - done.
  - apply lens_kept_length. eapply run_branches_keeps_lengths; [|exact Hrun].
    apply Forall_forall. intros branch _. apply Forall_forall. intros m _.
    destruct m; try done. apply forward_keeps_lengths.
  - by rewrite lookup_app_r, Nat.sub_diag.
  - destruct (run_branches_lengths _ _ _ _ _ _ _ _ _ _ _ Hrun) as [Hlen _].
    rewrite <- Hlen. destruct out; [done|simpl; lia].
  - by destruct (run_branches_lengths _ _ _ _ _ _ _ _ _ _ _ Hrun).
Qed.

(** *** A block without spiking cells does not look at its state *)







(** *** Entries beyond the branches, and entries without content *)

Lemma zip_app_surplus {A C : Type} (l : list A) (k extra : list C) :
  (length l <= length k)%nat -> zip l (k ++ extra) = zip l k.
Proof.
  revert k. induction l as [|a l IH]; intros [|c k] Hlen; simpl in *;
    [done|done|lia|].
  f_equal. apply IH. lia.
Qed.

Lemma forward_t_surplus net flags oc (X : T) (ts extra : list tr) :
  (length net <= length ts)%nat ->
  forward_t B (mkBlockGen net flags oc) X (TList (ts ++ extra))
  = forward_t B (mkBlockGen net flags oc) X (TList ts).
Proof.
  intros Hlen. simpl.
  rewrite (run_branches_t_triples B X (TList (ts ++ extra)) (length net) (ts ++ extra))
    by done.
  rewrite (run_branches_t_triples B X (TList ts) (length net) ts) by done.
  rewrite !drop_0, zip_app_surplus; [done|].
  rewrite length_zip_with. lia.
Qed.

(** X12. entries beyond the branches are ignored.  A state container with
    more entries than the block has branches is taken as the container cut
    down to one entry per branch: forward returns the same tensor and the
    same state container, for the two of them. *)
Theorem forward_ignores_surplus_entries (b : BlockGen) (X : T) (v v2 : val)
    (h h2 : store) (ts extra : list tr) F F2 Y v' h' :
  (length (net b) <= length ts)%nat ->
  rep B h v (TList (ts ++ extra)) F -> rep B h2 v2 (TList ts) F2 ->
  forward B b X v h = Ok (Y, v', h') ->
  exists v2' h2' t' F' F2',
    forward B b X v2 h2 = Ok (Y, v2', h2') /\
    rep B h' v' t' F' /\ rep B h2' v2' t' F2'.
Proof.
  intros Hlen Hrep Hrep2 Hfwd.
  destruct (forward_to_tree b X v h _ F Y v' h' Hrep Hfwd) as (t' & F' & Ht & Hrep').
  destruct b as [bnet flags oc]. rewrite forward_t_surplus in Ht by done.
  destruct (forward_of_tree _ X v2 h2 _ F2 Y t' Hrep2 Ht) as (v2' & h2' & F2' & H2 & Hrep2').
  by exists v2', h2', t', F', F2'.
Qed.




End ForwardFacts.


Lemma forward_empty_state_list_witness :
  forward ZBackend example_block 5 (VList 0%nat) [[]] = Raise RuntimeError.
Proof. apply (forward_empty_state_list ZBackend example_block 5 0%nat [[]]). reflexivity. Defined.

Lemma forward_resizes_no_list_witness :
  lens_kept ZBackend partial_store
    [[VNone; VState 14; VList 4%nat]; [VList 0%nat; VNone]; [VNone; VState 29]; [];
     [VList 2%nat; VList 3%nat]; [VNone]; [VList 0%nat; VList 5%nat]] /\
  exists l' out_state,
    (VList 6%nat : value Z) = VList l' /\ (length partial_store <= l')%nat /\
    [[VNone; VState 14; VList 4%nat]; [VList 0%nat; VNone]; [VNone; VState 29]; [];
     [VList 2%nat; VList 3%nat]; [VNone]; [VList 0%nat; VList 5%nat]] !! l'
    = Some out_state /\
    (0 < length out_state <= length (net example_block))%nat.
Proof.
  apply (forward_resizes_no_list ZBackend example_block 5 (VList 1%nat) partial_store 54).
  reflexivity.
Defined.


Lemma forward_ignores_surplus_entries_witness :
  exists v2' h2' t' F' F2',
    forward ZBackend lif_block 5 (VList 1%nat) [[VNone]; [VList 0%nat]]
    = Ok (5, v2', h2') /\
    rep ZBackend [[VState 5]; [VList 0%nat; VNone]; [VList 0%nat]] (VList 2%nat) t' F' /\
    rep ZBackend h2' v2' t' F2'.
Proof.
  apply (forward_ignores_surplus_entries ZBackend lif_block 5
           (VList 1%nat) (VList 1%nat)
           [[VNone]; [VList 0%nat; VNone]] [[VNone]; [VList 0%nat]]
           [TList [TNone]] [TNone]
           ({[1%nat]} ∪ (({[0%nat]} ∪ (∅ ∪ ∅)) ∪ (∅ ∪ ∅)))
           ({[1%nat]} ∪ (({[0%nat]} ∪ (∅ ∪ ∅)) ∪ ∅))).
  - simpl. lia.
  - build_rep.
  - build_rep.
  - reflexivity.
Defined.


(** ** The ResNet backbone *)

Section ResNetFacts.

Context (B : Backend).

#[local] Abbreviation T := (Tensor B).
#[local] Abbreviation pv := (pyval (LIFState B)).

Variable iadd : T -> T -> result T.
Variable stack : T -> list T -> result T.
Variable slices : T -> result (list T).

Lemma BasicBlock_forward_eq (self : BasicBlock.t B) (x : T) (state : pv) :
  BasicBlock.forward B iadd self x state
  = do out <- BasicBlock.conv1 self x;
    do out <- BasicBlock.bn1 self out;
    do s <- py_getitem B
              (match state with PNone => PTuple [PNone; PNone] | _ => state end) 0;
    do _ <- lif_apply B (BasicBlock.lif1 self) out s;
    Raise TypeError.
Proof.
  unfold BasicBlock.forward. cbv zeta.
  destruct (BasicBlock.conv1 self x) as [out|e]; [|done]. cbn [bind].
  destruct (BasicBlock.bn1 self out) as [out1|e]; [|done]. cbn [bind].
  destruct (py_getitem B _ 0) as [s|e]; [|done]. cbn [bind].
  by destruct (lif_apply B (BasicBlock.lif1 self) out1 s) as [[out2 s']|e].
Qed.

Lemma Bottleneck_forward_eq (self : Bottleneck.t B) (x : T) (state : pv) :
  Bottleneck.forward B iadd self x state
  = do out <- Bottleneck.conv1 self x;
    do out <- Bottleneck.bn1 self out;
    do s <- py_getitem B
              (match state with
               | PNone => PTuple [PNone; PNone; PNone]
               | _ => state
               end) 0;
    do _ <- lif_apply B (Bottleneck.lif1 self) out s;
    Raise TypeError.
Proof.
  unfold Bottleneck.forward. cbv zeta.
  destruct (Bottleneck.conv1 self x) as [out|e]; [|done]. cbn [bind].
  destruct (Bottleneck.bn1 self out) as [out1|e]; [|done]. cbn [bind].
  destruct (py_getitem B _ 0) as [s|e]; [|done]. cbn [bind].
  by destruct (lif_apply B (Bottleneck.lif1 self) out1 s) as [[out2 s']|e].
Qed.

(** X14. the residual blocks stop at their first state assignment.
    [BasicBlock.forward] and [Bottleneck.forward] make [new_state] a tuple
    and assign to its first item: the call runs [conv1], [bn1] and [lif1]
    and, when these have returned, raises [TypeError]; nothing behind the
    assignment is run, and the call never returns. *)
Theorem residual_blocks_raise (x : T) (state : pv) :
  (forall self : BasicBlock.t B,
     BasicBlock.forward B iadd self x state
     = do out <- BasicBlock.conv1 self x;
       do out <- BasicBlock.bn1 self out;
       do s <- py_getitem B
                 (match state with PNone => PTuple [PNone; PNone] | _ => state end) 0;
       do _ <- lif_apply B (BasicBlock.lif1 self) out s;
       Raise TypeError) /\
  (forall self : Bottleneck.t B,
     Bottleneck.forward B iadd self x state
     = do out <- Bottleneck.conv1 self x;
       do out <- Bottleneck.bn1 self out;
       do s <- py_getitem B
                 (match state with
                  | PNone => PTuple [PNone; PNone; PNone]
                  | _ => state
                  end) 0;
       do _ <- lif_apply B (Bottleneck.lif1 self) out s;
       Raise TypeError) /\
  (forall blk : ResNetBackbone.block B,
     exists e, ResNetBackbone.call_block B iadd blk x state = Raise e).
Proof.
  split_and!.
  - intros self. apply BasicBlock_forward_eq.
  - intros self. apply Bottleneck_forward_eq.
  - intros [b|b]; simpl.
    + rewrite BasicBlock_forward_eq.
      destruct (BasicBlock.conv1 b x) as [out|e]; [|by eexists]. cbn [bind].
      destruct (BasicBlock.bn1 b out) as [out1|e]; [|by eexists]. cbn [bind].
      destruct (py_getitem B _ 0) as [s|e]; [|by eexists]. cbn [bind].
      destruct (lif_apply B (BasicBlock.lif1 b) out1 s) as [[out2 s']|e];
        by eexists.
    + rewrite Bottleneck_forward_eq.
      destruct (Bottleneck.conv1 b x) as [out|e]; [|by eexists]. cbn [bind].
      destruct (Bottleneck.bn1 b out) as [out1|e]; [|by eexists]. cbn [bind].
      destruct (py_getitem B _ 0) as [s|e]; [|by eexists]. cbn [bind].
      destruct (lif_apply B (Bottleneck.lif1 b) out1 s) as [[out2 s']|e];
        by eexists.
Qed.

Lemma bind_Raise_ex {A C : Type} (r : result A) (k : A -> result C) :
  (exists e, r = Raise e) -> exists e, bind r k = Raise e.
Proof. intros [e ->]. by exists e. Qed.

Lemma bind_k_Raise_ex {A C : Type} (r : result A) (k : A -> result C) :
  (forall a, exists e, k a = Raise e) -> exists e, bind r k = Raise e.
Proof. intros H. destruct r as [a|e]; simpl; [apply H|by exists e]. Qed.

Lemma call_block_raises (blk : ResNetBackbone.block B) (out : T) (state : pv) :
  exists e, ResNetBackbone.call_block B iadd blk out state = Raise e.
Proof.
  destruct blk as [b|b]; simpl.
  - rewrite BasicBlock_forward_eq.
    repeat (apply bind_k_Raise_ex; intros ?). by eexists.
  - rewrite Bottleneck_forward_eq.
    repeat (apply bind_k_Raise_ex; intros ?). by eexists.
Qed.

Lemma process_layer_raises (x : T) (layer : list (ResNetBackbone.block B)) (state : pv) :
  exists e, ResNetBackbone._process_layer B iadd stack x layer state = Raise e.
Proof.
  unfold ResNetBackbone._process_layer. cbv zeta.
  destruct layer as [|blk rest].
  - simpl. by eexists.
  - apply bind_Raise_ex. cbn [ResNetBackbone.process_loop].
    apply bind_k_Raise_ex. intros s. apply bind_Raise_ex. apply call_block_raises.
Qed.

(** X15. the ResNet backbone never returns.  Called without a state,
    [_process_layer] raises for every layer, with blocks (the first block
    raises) or without (there is nothing to stack), and so
    [ResNetBackbone.forward] raises for every input: with no slice to
    iterate there is nothing to stack, and the first slice does not get past
    [layer1]. *)
Theorem ResNetBackbone_forward_raises (self : ResNetBackbone.t B) :
  (forall (x : T) (layer : list (ResNetBackbone.block B)),
     exists e, ResNetBackbone._process_layer B iadd stack x layer PNone = Raise e) /\
  (forall X : T,
     exists e, ResNetBackbone.forward B iadd stack slices self X = Raise e).
Proof.
  split; [intros x layer; apply process_layer_raises|].
  intros X. unfold ResNetBackbone.forward, ResNetBackbone._forward_impl.
  apply bind_k_Raise_ex. intros [|x xs].
  - simpl. by eexists.
  - apply bind_Raise_ex. cbn [ResNetBackbone.forward_loop].
    do 2 (apply bind_k_Raise_ex; intros ?).
    apply bind_k_Raise_ex. intros [x3 s0].
    apply bind_k_Raise_ex. intros x4.
    apply bind_Raise_ex. apply process_layer_raises.
Qed.

End ResNetFacts.

(** ** The tensor kept by a [Return] layer *)

(** X16. [Storage] keeps the tensor of its latest call.  [forward] hands
    its input on unchanged; after any calls of [forward], [get_storage]
    returns the input of the latest one, and before the first call it raises
    [AttributeError]. *)
Theorem Storage_keeps_latest {T : Type} (Xs : list T) :
  (forall (self : option T) (X : T), (Storage_forward self X).1 = X) /\
  Storage_get_storage (foldl (fun self X => (Storage_forward self X).2) None Xs)
  = match last Xs with
    | Some X => Ok X
    | None => Raise AttributeError
    end.
Proof.
  split; [done|].
  destruct Xs as [|X Xs] using rev_ind; [done|].
  by rewrite foldl_app, last_snoc.
Qed.

(** ** The layers of the ResNet backbone *)

Lemma block_init_fits block inplanes planes stride downsample groups base_width
    dilation b :
  block_init block inplanes planes stride downsample groups base_width dilation = Ok b ->
  (downsample = None /\ stride = 1 /\ inplanes = planes * expansion block) \/
  downsample = Some (conv1x1 inplanes (planes * expansion block) stride,
                     planes * expansion block) ->
  block_fits b inplanes = Some (planes * expansion block).
Proof.
  intros Hb Hds. destruct block; simpl in Hb.
  - unfold BasicBlock_init in Hb. repeat case_decide; try done.
    injection Hb as <-.
    unfold block_fits, main_path, identity_path, conv_fits, conv3x3, conv1x1,
      conv_stride.
    destruct Hds as [(-> & -> & ->)| ->]; cbn;
      repeat (rewrite decide_True by (first [done | lia | split; lia]); cbn);
      first [done | f_equal; lia].
  - unfold Bottleneck_init in Hb. injection Hb as <-.
    unfold block_fits, main_path, identity_path, conv_fits, conv3x3, conv1x1,
      conv_stride.
    destruct Hds as [(-> & -> & ->)| ->]; cbn;
      repeat (rewrite decide_True by (first [done | lia | split; lia]); cbn);
      first [done | f_equal; lia].
Qed.

Lemma more_blocks_fits block k planes groups base_width dilation bs :
  more_blocks block k (planes * expansion block) planes groups base_width dilation
  = Ok bs ->
  length bs = k /\
  layer_fits bs (planes * expansion block) = Some (planes * expansion block).
Proof.
  revert bs. induction k as [|k IH]; intros bs; simpl.
  - by intros [= <-].
  - intros H. apply bind_Ok_inv in H as (b & Hb & H).
    apply bind_Ok_inv in H as (bs0 & Hbs & [= <-]).
    destruct (IH _ Hbs) as [Hlen Hfit]. simpl. split; [by f_equal|].
    rewrite (block_init_fits _ _ _ _ _ _ _ _ _ Hb); [done|]. by left.
Qed.

(** X17. a layer of residual blocks fits together.  When [_make_layer]
    returns, the layer has [max(blocks, 1)] blocks, [inplanes] has become
    [planes * expansion], [dilation] has been multiplied by [stride] exactly
    when [dilate] is set, and the blocks fit: the first one is built for the
    old [inplanes], every block hands [planes * expansion] channels to the
    next, inside a block every convolution and normalisation is built for
    what reaches it, and the [identity] that a block adds has the channels
    and the stride of its [out] (through [downsample] where there is
    one). *)
Theorem make_layer_fits (block : block_class) (groups base_width : Z)
    (inplanes dilation planes blocks stride : Z) (dilate : bool)
    (layer : list res_block) (inplanes' dilation' : Z) :
  _make_layer block groups base_width inplanes dilation planes blocks stride dilate
  = Ok (layer, inplanes', dilation') ->
  length layer = S (Z.to_nat (blocks - 1)) /\
  inplanes' = planes * expansion block /\
  dilation' = (if dilate then dilation * stride else dilation) /\
  layer_fits layer inplanes = Some inplanes'.
Proof.
  unfold _make_layer. intros H.
  destruct (if dilate then (dilation * stride, 1) else (dilation, stride))
    as [dil str] eqn:Hd.
  apply bind_Ok_inv in H as (first & Hfirst & H).
  apply bind_Ok_inv in H as (rest & Hrest & [= <- <- <-]).
  destruct (more_blocks_fits _ _ _ _ _ _ _ Hrest) as [Hlen Hfit].
  split_and!.
  - simpl. by rewrite Hlen.
  - done.
  - by destruct dilate; injection Hd as <- <-.
  - simpl. rewrite (block_init_fits _ _ _ _ _ _ _ _ _ Hfirst); [done|].
    case_decide as Hcase; [by right|]. left. split; [done|].
    split.
    + destruct (decide (str = 1)); [done|]. exfalso. apply Hcase. by left.
    + destruct (decide (inplanes = planes * expansion block)); [done|].
      exfalso. apply Hcase. by right.
Qed.

Lemma make_layer_fits_witness :
  length [mk_Bottleneck (conv1x1 64 64 1) 64 (conv3x3 64 64 2 1 1) 64
                        (conv1x1 64 256 1) 256 (Some (conv1x1 64 256 2, 256)) 2;
          mk_Bottleneck (conv1x1 256 64 1) 64 (conv3x3 64 64 1 1 1) 64
                        (conv1x1 64 256 1) 256 None 1]
  = S (Z.to_nat (2 - 1)) /\
  256 = 64 * expansion BottleneckClass /\
  1 = (if false then 1 * 2 else 1) /\
  layer_fits [mk_Bottleneck (conv1x1 64 64 1) 64 (conv3x3 64 64 2 1 1) 64
                            (conv1x1 64 256 1) 256 (Some (conv1x1 64 256 2, 256)) 2;
              mk_Bottleneck (conv1x1 256 64 1) 64 (conv3x3 64 64 1 1 1) 64
                            (conv1x1 64 256 1) 256 None 1] 64
  = Some 256.
Proof.
  apply (make_layer_fits BottleneckClass 1 64 64 1 64 2 2 false). reflexivity.
Defined.

Lemma BasicBlock_make_layer_dilate (inplanes dilation planes blocks stride : Z) :
  1 <= dilation -> 2 <= stride -> 2 <= blocks ->
  _make_layer BasicBlockClass 1 64 inplanes dilation planes blocks stride true
  = Raise NotImplementedError.
Proof.
  intros Hd Hs Hb. unfold _make_layer. cbn [block_init].
  unfold BasicBlock_init at 1. rewrite decide_False by (intros [?|?]; done).
  case_decide; [done|]. cbn [bind].
  destruct (Z.to_nat (blocks - 1)) as [|k] eqn:Hk; [lia|].
  cbn [more_blocks block_init]. unfold BasicBlock_init at 1.
  rewrite decide_False by (intros [?|?]; done).
  rewrite decide_True by nia. done.
Qed.

(** X18. the basic blocks do not take dilation.  A layer of two or more
    [BasicBlock]s made with [dilate] set and a stride of two or more raises
    [NotImplementedError]; so does the construction of the backbones ["18"]
    and ["34"] whenever [replace_stride_with_dilation] has a true entry. *)
Theorem BasicBlock_layers_reject_dilation :
  (forall inplanes dilation planes blocks stride : Z,
     1 <= dilation -> 2 <= stride -> 2 <= blocks ->
     _make_layer BasicBlockClass 1 64 inplanes dilation planes blocks stride true
     = Raise NotImplementedError) /\
  (forall (type : string) (num_classes : Z) (rswd : list bool),
     type ∈ ["18"; "34"]%string -> length rswd = 3%nat -> true ∈ rswd ->
     ResNetBackbone_init type num_classes (Some rswd) = Raise NotImplementedError).
Proof.
  split; [apply BasicBlock_make_layer_dilate|].
  intros type num_classes rswd Htype Hlen Htrue.
  destruct rswd as [|a [|b [|c [|]]]]; try done.
  assert (a = true \/ b = true \/ c = true) as Habc.
  { repeat (apply elem_of_cons in Htrue as [Htrue|Htrue]; [auto|]).
    by apply elem_of_nil in Htrue. }
  repeat (apply elem_of_cons in Htype as [->|Htype]);
    [| |by apply elem_of_nil in Htype];
    destruct a, b, c; try (by vm_compute); by destruct Habc as [?|[?|?]].
Qed.

Lemma BasicBlock_layers_reject_dilation_witness :
  _make_layer BasicBlockClass 1 64 64 1 128 2 2 true = Raise NotImplementedError /\
  ResNetBackbone_init "18" 1000 (Some [false; true; false]) = Raise NotImplementedError.
Proof.
  destruct BasicBlock_layers_reject_dilation as [Hlayer Hinit]. split.
  - apply Hlayer; lia.
  - apply Hinit; [|done|].
    + apply elem_of_cons. by left.
    + apply elem_of_cons. right. apply elem_of_cons. by left.
Defined.

Lemma ResNetBackbone_cfgs_lookup (type : string) v :
  (type, v) ∈ ResNetBackbone_cfgs ->
  (list_to_map ResNetBackbone_cfgs : gmap string _) !! type = Some v.
Proof.
  intros H. apply elem_of_list_to_map_1; [|done].
  vm_compute. repeat (constructor; [set_solver|]). constructor.
Qed.

(** X19. constructing the backbone.  [ResNetBackbone(type, ...)] raises
    [KeyError(type)] for a type that is not in [cfgs], and [ValueError] for a
    [replace_stride_with_dilation] that has not three entries.  For every
    type of [cfgs], without [replace_stride_with_dilation], and for the
    bottleneck types with any three entries, the construction returns; the
    four layers then have the numbers of blocks of [cfgs], their blocks fit
    one after the other from the 64 channels of the stem to the input of
    [fc], which has [num_classes] outputs. *)
Theorem ResNetBackbone_init_cases (type : string) (num_classes : Z)
    (rswd : option (list bool)) :
  (type ∉ ResNetBackbone_cfgs.*1 ->
   ResNetBackbone_init type num_classes rswd = Raise (KeyError type)) /\
  (type ∈ ResNetBackbone_cfgs.*1 ->
   (exists l, rswd = Some l /\ length l <> 3%nat) ->
   ResNetBackbone_init type num_classes rswd = Raise ValueError) /\
  (forall block layers groups width_per_group,
     (type, (block, layers, groups, width_per_group)) ∈ ResNetBackbone_cfgs ->
     rswd = None \/
     (block = BottleneckClass /\ exists l, rswd = Some l /\ length l = 3%nat) ->
     exists r,
       ResNetBackbone_init type num_classes rswd = Ok r /\
       Z.of_nat <$> [length (rn_layer1 r); length (rn_layer2 r);
                     length (rn_layer3 r); length (rn_layer4 r)] = layers /\
       layer_fits (rn_layer1 r ++ rn_layer2 r ++ rn_layer3 r ++ rn_layer4 r) 64
       = Some (rn_fc r).1 /\
       (rn_fc r).2 = num_classes).
Proof.
  split_and!.
  - intros Hnot. unfold ResNetBackbone_init.
    by rewrite (proj1 (not_elem_of_list_to_map _ _) Hnot).
  - intros Hin (l & -> & Hlen). unfold ResNetBackbone_init.
    apply list_elem_of_fmap in Hin as ([k [[[block layers] groups] w]] & -> & Hin).
    cbn [fst]. rewrite (ResNetBackbone_cfgs_lookup _ _ Hin). cbv zeta.
    by rewrite decide_True.
  - intros block layers groups w Hin Hrswd.
    unfold ResNetBackbone_cfgs in Hin.
    repeat (apply elem_of_cons in Hin as [[= -> -> -> -> ->]|Hin]);
      [..|by apply elem_of_nil in Hin];
      (destruct Hrswd as [->|[Hb (l & -> & Hlen)]];
       [eexists; split; [vm_compute; reflexivity|by vm_compute]
       |try discriminate Hb;
        destruct l as [|a [|b [|c [|]]]]; try done;
        destruct a, b, c;
        (eexists; split; [vm_compute; reflexivity|by vm_compute])]).
Qed.

Lemma ResNetBackbone_init_cases_witness :
  exists r,
    ResNetBackbone_init "50" 1000 None = Ok r /\
    Z.of_nat <$> [length (rn_layer1 r); length (rn_layer2 r);
                  length (rn_layer3 r); length (rn_layer4 r)] = [3; 4; 6; 3] /\
    layer_fits (rn_layer1 r ++ rn_layer2 r ++ rn_layer3 r ++ rn_layer4 r) 64
    = Some (rn_fc r).1 /\
    (rn_fc r).2 = 1000.
Proof.
  apply (proj2 (proj2 (ResNetBackbone_init_cases "50" 1000 None))
           BottleneckClass [3; 4; 6; 3] 1 64); [|by left].
  unfold ResNetBackbone_cfgs. do 2 (apply elem_of_cons; right).
  apply elem_of_cons. by left.
Defined.

(** ** Anchor boxes *)

Lemma flat_map_uniform_length {A C : Type} (g : A -> list C) (n : nat) (l : list A) :
  (forall a, a ∈ l -> length (g a) = n) ->
  length (flat_map g l) = (length l * n)%nat.
Proof.
  induction l as [|a l IH]; intros Hg; simpl; [done|].
  rewrite length_app, Hg, IH; [done| |].
  - intros a' Ha'. apply Hg. apply elem_of_cons. by right.
  - apply elem_of_cons. by left.
Qed.

Lemma flat_map_uniform_lookup {A C : Type} (g : A -> list C) (n : nat) (l : list A)
    (i j : nat) (x : A) :
  (forall a, a ∈ l -> length (g a) = n) ->
  l !! i = Some x -> (j < n)%nat ->
  flat_map g l !! (i * n + j)%nat = g x !! j.
Proof.
  revert i. induction l as [|a l IH]; intros i Hg Hi Hj; [done|].
  assert (length (g a) = n) as Ha by (apply Hg, elem_of_cons; by left).
  simpl. destruct i as [|i]; simpl in *.
  - injection Hi as ->. rewrite lookup_app_l; [done|lia].
  - rewrite lookup_app_r by lia.
    replace (n + i * n + j - length (g a))%nat with (i * n + j)%nat by lia.
    apply IH; [|done..]. intros a' Ha'. apply Hg, elem_of_cons. by right.
Qed.

Lemma concat_replicate_lookup {C : Type} (rows : list C) (m p k : nat) :
  (p < m)%nat -> (k < length rows)%nat ->
  concat (replicate m rows) !! (p * length rows + k)%nat = rows !! k.
Proof.
  revert p. induction m as [|m IH]; intros p Hp Hk; [lia|].
  simpl. destruct p as [|p]; simpl.
  - by rewrite lookup_app_l.
  - rewrite lookup_app_r by lia.
    replace (length rows + p * length rows + k - length rows)%nat
      with (p * length rows + k)%nat by lia.
    apply IH; lia.
Qed.

Lemma concat_replicate_length {C : Type} (rows : list C) (m : nat) :
  length (concat (replicate m rows)) = (m * length rows)%nat.
Proof. induction m as [|m IH]; simpl; [done|]. rewrite length_app, IH. lia. Qed.

Section AnchorFacts.

Context {F R : Type}.

Variable inv_int : nat -> result F.
Variable half : F.
Variable tensor : F -> R.
Variable arange_plus : nat -> F -> R.
Variable tmul_f : R -> F -> R.
Variable fmul_t : F -> R -> R.
Variable fdiv_t : F -> R -> R.
Variable tmul : R -> R -> R.
Variable tdiv : R -> R -> R.
Variable tadd : R -> R -> R.
Variable tneg : R -> R.
Variable tsqrt : R -> R.
Variable tmul_int : R -> nat -> R.
Variable tdiv_int : R -> nat -> R.

#[local] Notation cal_anchors' :=
  (cal_anchors inv_int half tensor arange_plus tmul_f fmul_t fdiv_t tmul tdiv tadd
               tneg tsqrt tmul_int tdiv_int).
#[local] Notation call' :=
  (AnchorGenerator_call inv_int half tensor arange_plus tmul_f fmul_t fdiv_t tmul tdiv
                        tadd tneg tsqrt tmul_int tdiv_int).
#[local] Notation calls' :=
  (AnchorGenerator_calls inv_int half tensor arange_plus tmul_f fmul_t fdiv_t tmul tdiv
                         tadd tneg tsqrt tmul_int tdiv_int).

Lemma centers_lookup (n : nat) (steps : F) (i : nat) :
  (i < n)%nat ->
  centers half arange_plus tmul_f n steps !! i
  = Some (tmul_f (arange_plus i half) steps).
Proof.
  intros Hi. unfold centers. rewrite list_lookup_fmap.
  by rewrite (proj2 (lookup_seq 0 n i i)) by done.
Qed.

Lemma centers_length (n : nat) (steps : F) :
  length (centers half arange_plus tmul_f n steps) = n.
Proof. unfold centers. by rewrite length_map, length_seq. Qed.

(** X20. the layout of the anchor boxes.  When [cal_anchors] returns for
    a feature map of height [H] and width [W], it has made
    [H * W * (len(sizes) + len(ratios) - 1)] boxes, at least one per pixel;
    box [k] of the pixel in row [i] and column [j] is row
    [(i * W + j) * boxes_per_pixel + k] of the result, it is the centre of
    that pixel minus and plus half of a width and a height, and the width
    and the height depend on [k] only. *)
Theorem cal_anchors_layout (sizes ratios : list F) (dims : list nat)
    (in_height in_width : nat) (out : list (list R)) :
  cal_anchors inv_int half tensor arange_plus tmul_f fmul_t fdiv_t tmul tdiv tadd
              tneg tsqrt tmul_int tdiv_int sizes ratios
              (dims ++ [in_height; in_width]) = Ok out ->
  let boxes_per_pixel := (length sizes + length ratios - 1)%nat in
  exists steps_h steps_w ws hs,
    inv_int in_height = Ok steps_h /\ inv_int in_width = Ok steps_w /\
    length ws = boxes_per_pixel /\ length hs = boxes_per_pixel /\
    (0 < boxes_per_pixel)%nat /\
    length out = (in_height * in_width * boxes_per_pixel)%nat /\
    forall i j k wk hk,
      (i < in_height)%nat -> (j < in_width)%nat ->
      ws !! k = Some wk -> hs !! k = Some hk ->
      let cx := tmul_f (arange_plus j half) steps_w in
      let cy := tmul_f (arange_plus i half) steps_h in
      out !! ((i * in_width + j) * boxes_per_pixel + k)%nat
      = Some [tadd cx (tdiv_int (tneg wk) 2); tadd cy (tdiv_int (tneg hk) 2);
              tadd cx (tdiv_int wk 2); tadd cy (tdiv_int hk 2)].
Proof.
  intros Hcal bpp. unfold cal_anchors in Hcal.
  rewrite rev_app_distr in Hcal. simpl in Hcal.
  apply bind_Ok_inv in Hcal as (steps_h & Hsh & Hcal).
  apply bind_Ok_inv in Hcal as (steps_w & Hsw & Hcal).
  apply bind_Ok_inv in Hcal as (r0 & Hr0 & Hcal).
  apply bind_Ok_inv in Hcal as (s0 & Hs0 & Hcal).
  apply bind_Ok_inv in Hcal as (r0' & Hr0' & Hcal).
  apply bind_Ok_inv in Hcal as (s0' & Hs0' & Hcal).
  injection Hcal as <-.
  set (ws := map (fun x => tdiv_int (tmul_int x in_height) in_width)
                 (map (fun s => tmul s (tsqrt r0)) (map tensor sizes)
                  ++ map (fun r => fmul_t s0 (tsqrt r)) (drop 1 (map tensor ratios)))).
  set (hs := map (fun s => tdiv s (tsqrt r0')) (map tensor sizes)
             ++ map (fun r => fdiv_t s0' (tsqrt r)) (drop 1 (map tensor ratios))).
  set (ch := centers half arange_plus tmul_f in_height steps_h).
  set (cw := centers half arange_plus tmul_f in_width steps_w).
  assert (0 < length sizes)%nat as Hns.
  { unfold list_getitem in Hs0. destruct sizes; [done|simpl; lia]. }
  assert (0 < length ratios)%nat as Hnr.
  { unfold list_getitem in Hr0. destruct ratios; [done|simpl; lia]. }
  assert (length ws = bpp) as Hws.
  { unfold ws, bpp. rewrite length_map, length_app, !length_map, length_drop,
      length_map. lia. }
  assert (length hs = bpp) as Hhs.
  { unfold hs, bpp. rewrite length_app, !length_map, length_drop, length_map. lia. }
  assert (length (half_boxes tneg ws hs) = bpp) as Hhb.
  { unfold half_boxes. rewrite length_zip_with. lia. }
  assert (length ch = in_height) as Hch by apply centers_length.
  assert (length cw = in_width) as Hcw by apply centers_length.
  exists steps_h, steps_w, ws, hs. split_and!; try done; [unfold bpp; lia| |].
  - rewrite length_zip_with, length_map, concat_replicate_length, Hhb.
    rewrite (flat_map_uniform_length _ bpp).
    + rewrite length_zip_with.
      rewrite (flat_map_uniform_length _ in_width) by done.
      rewrite (flat_map_uniform_length _ in_width)
        by (intros; by rewrite length_map).
      fold bpp. lia.
    + intros [sx sy] _. by rewrite length_replicate.
  - intros i j k wk hk Hi Hj Hwk Hhk cx cy.
    assert (k < bpp)%nat as Hk by (rewrite <- Hws; by eapply lookup_lt_Some).
    apply lookup_zip_with_Some.
    exists [cx; cy; cx; cy],
      [tdiv_int (tneg wk) 2; tdiv_int (tneg hk) 2; tdiv_int wk 2; tdiv_int hk 2].
    split_and!; [done| |].
    + fold bpp.
      rewrite (flat_map_uniform_lookup _ bpp _ _ _ (cx, cy));
        [by apply lookup_replicate_2
        |intros [sx sy] _; by rewrite length_replicate| |done].
      apply lookup_zip_with_Some. exists cx, cy. split_and!; [done| |].
      * rewrite (flat_map_uniform_lookup _ in_width _ _ _ cy); try done.
        -- by apply centers_lookup.
        -- by apply centers_lookup.
      * rewrite (flat_map_uniform_lookup _ in_width _ _ _ cy); try done.
        -- rewrite list_lookup_fmap. unfold cw. by rewrite centers_lookup.
        -- intros. by rewrite length_map.
        -- by apply centers_lookup.
    + rewrite list_lookup_fmap. rewrite <- Hhb at 1.
      rewrite concat_replicate_lookup; [|nia|lia].
      unfold half_boxes.
      rewrite (proj2 (lookup_zip_with_Some _ ws hs k [tneg wk; tneg hk; wk; hk]));
        [done|]. by exists wk, hk.
Qed.

Lemma calls_cached (sizes ratios : list F) (a : list (list R))
    (shapes : list (list nat)) :
  calls' sizes ratios (Some a) shapes = Ok (replicate (length shapes) a).
Proof.
  induction shapes as [|shape shapes IH]; simpl; [done|]. by rewrite IH.
Qed.

(** X21. the anchors are computed once.  When the first call of an
    [AnchorGenerator] has returned, every later call returns the anchors of
    that first feature map, whatever feature map it is given. *)
Theorem AnchorGenerator_calls_cached (sizes ratios : list F) (shape0 : list nat)
    (shapes : list (list nat)) (a : list (list R)) :
  cal_anchors inv_int half tensor arange_plus tmul_f fmul_t fdiv_t tmul tdiv tadd
              tneg tsqrt tmul_int tdiv_int sizes ratios shape0 = Ok a ->
  AnchorGenerator_calls inv_int half tensor arange_plus tmul_f fmul_t fdiv_t tmul
                        tdiv tadd tneg tsqrt tmul_int tdiv_int sizes ratios None
                        (shape0 :: shapes)
  = Ok (replicate (S (length shapes)) a).
Proof.
  intros Hcal. simpl. unfold AnchorGenerator_call. rewrite Hcal. simpl.
  by rewrite calls_cached.
Qed.

(** X22. when the anchors can be computed.  [cal_anchors] raises
    [ValueError] for a feature map with fewer than two dimensions and
    [IndexError] when [sizes] or [ratios] is empty (the two steps
    [1.0 / in_height] and [1.0 / in_width] having been computed); with two
    dimensions or more, both steps computed and [sizes] and [ratios] not
    empty, it returns. *)
Theorem cal_anchors_returns (sizes ratios : list F) (shape : list nat) :
  ((length shape < 2)%nat -> cal_anchors' sizes ratios shape = Raise ValueError) /\
  (forall dims in_height in_width steps_h steps_w,
     shape = dims ++ [in_height; in_width] ->
     inv_int in_height = Ok steps_h -> inv_int in_width = Ok steps_w ->
     (sizes = [] \/ ratios = [] -> cal_anchors' sizes ratios shape = Raise IndexError) /\
     (sizes <> [] -> ratios <> [] ->
      exists out, cal_anchors' sizes ratios shape = Ok out)).
Proof.
  split.
  - intros Hlen. unfold cal_anchors.
    destruct shape as [|a [|b shape]]; [done|done|simpl in Hlen; lia].
  - intros dims in_height in_width steps_h steps_w -> Hsh Hsw.
    unfold cal_anchors. rewrite rev_app_distr. simpl. rewrite Hsh, Hsw. simpl.
    split.
    + intros [-> | ->]; [|done]. by destruct ratios.
    + intros Hs Hr. destruct sizes as [|s sizes]; [done|].
      destruct ratios as [|r ratios]; [done|]. simpl. by eexists.
Qed.

End AnchorFacts.

Lemma cal_anchors_layout_witness :
  exists out,
    example_cal_anchors [2; 3] [1; 4] [1; 2]%nat = Ok out /\
    exists steps_h steps_w ws hs,
      example_inv 1 = Ok steps_h /\ example_inv 2 = Ok steps_w /\
      length ws = 3%nat /\ length hs = 3%nat /\ (0 < 3)%nat /\
      length out = (1 * 2 * 3)%nat /\
      forall i j k wk hk,
        (i < 1)%nat -> (j < 2)%nat -> ws !! k = Some wk -> hs !! k = Some hk ->
        out !! ((i * 2 + j) * 3 + k)%nat
        = Some [(Z.of_nat j + 0) * steps_w + (- wk) * 2;
                (Z.of_nat i + 0) * steps_h + (- hk) * 2;
                (Z.of_nat j + 0) * steps_w + wk * 2;
                (Z.of_nat i + 0) * steps_h + hk * 2].
Proof.
  eexists. split; [reflexivity|].
  apply (cal_anchors_layout example_inv 0 id (fun i f => Z.of_nat i + f) Z.mul Z.mul
           Z.mul Z.mul Z.mul Z.add Z.opp id (fun x n => x * Z.of_nat n)
           (fun x n => x * Z.of_nat n) [2; 3] [1; 4] [] 1 2).
  reflexivity.
Defined.

Lemma AnchorGenerator_calls_cached_witness :
  example_anchor_calls [2] [1] None [[1; 1]; [3; 3]; [5; 7]]%nat
  = Ok (replicate 3 [[-4; -4; 4; 4]]).
Proof.
  apply (AnchorGenerator_calls_cached example_inv 0 id (fun i f => Z.of_nat i + f)
           Z.mul Z.mul Z.mul Z.mul Z.mul Z.add Z.opp id (fun x n => x * Z.of_nat n)
           (fun x n => x * Z.of_nat n) [2] [1] [1; 1]%nat [[3; 3]; [5; 7]]%nat).
  reflexivity.
Defined.

Lemma cal_anchors_returns_witness :
  example_cal_anchors [2] [1] [7]%nat = Raise ValueError /\
  example_cal_anchors [] [1] [1; 1]%nat = Raise IndexError /\
  exists out, example_cal_anchors [2] [1] [1; 1]%nat = Ok out.
Proof.
  split_and!.
  - apply (proj1 (cal_anchors_returns example_inv 0 id (fun i f => Z.of_nat i + f)
             Z.mul Z.mul Z.mul Z.mul Z.mul Z.add Z.opp id (fun x n => x * Z.of_nat n)
             (fun x n => x * Z.of_nat n) [2] [1] [7]%nat)).
    simpl. lia.
  - apply (proj2 (cal_anchors_returns example_inv 0 id (fun i f => Z.of_nat i + f)
             Z.mul Z.mul Z.mul Z.mul Z.mul Z.add Z.opp id (fun x n => x * Z.of_nat n)
             (fun x n => x * Z.of_nat n) [] [1] [1; 1]%nat) [] 1%nat 1%nat 1 1);
      try reflexivity. by left.
  - apply (proj2 (cal_anchors_returns example_inv 0 id (fun i f => Z.of_nat i + f)
             Z.mul Z.mul Z.mul Z.mul Z.mul Z.add Z.opp id (fun x n => x * Z.of_nat n)
             (fun x n => x * Z.of_nat n) [2] [1] [1; 1]%nat) [] 1%nat 1%nat 1 1);
      try reflexivity; discriminate.
Defined.

(** ** The progress board *)

Section ProgressBoardFacts.

Context {N : Type}.
Variable sum_ : list N -> N.
Variable div_len : N -> nat -> N.
Variable gt : N -> N -> bool.
Variable lt : N -> N -> bool.
Variable get_xlim : list (plt_call N) -> N * N.
Variable get_ylim : list (plt_call N) -> N * N.

#[local] Notation draw' := (draw sum_ div_len gt lt get_xlim get_ylim).
#[local] Notation draws' := (draws sum_ div_len gt lt get_xlim get_ylim).
#[local] Notation mean' := (mean sum_ div_len).

(** What one call of [draw] that returns has done, on a board that
    displays and whose two dictionaries have the same keys. *)
Lemma draw_Ok_inv (self self' : ProgressBoard N) (x y : N) (label : string) :
  display self = true -> dom (raw_points self) = dom (data self) ->
  draw' self x y label = Ok self' ->
  let points := default [] (raw_points self !! label) ++ [(x, y)] in
  let linep := default [] (data self !! label) in
  ls self' = ls self /\ colors self' = colors self /\ display self' = true /\
  every_n self' = every_n self /\
  dom (raw_points self') = dom (data self') /\
  (forall l, l <> label ->
     raw_points self' !! l = raw_points self !! l /\
     data self' !! l = data self !! l) /\
  ((Z.of_nat (length points) <> every_n self /\
    raw_points self' !! label = Some points /\
    data self' !! label = Some linep /\
    lines self' = lines self /\ plt_calls self' = plt_calls self) \/
   (Z.of_nat (length points) = every_n self /\
    raw_points self' !! label = Some [] /\
    data self' !! label = Some (linep ++ [(mean' (points.*1), mean' (points.*2))]) /\
    ((label ∈ (lines self).*1 /\ lines self' = lines self) \/
     ((label ∉ (lines self).*1) /\
      exists linestyle color,
        ls self !! (length (lines self) mod 4)%nat = Some linestyle /\
        colors self !! (length (lines self) mod 4)%nat = Some color /\
        lines self' = lines self ++ [(label, (linestyle, color))] /\
        exists p0,
          plt_calls self' = plt_calls self ++ [axes_plot p0.1 p0.2 linestyle color])))).
Proof.
  intros Hdisp Hdom Hdraw points linep. unfold draw in Hdraw.
  rewrite Hdisp in Hdraw. cbn [negb] in Hdraw.
  set (raw := if decide (label ∈ dom (raw_points self)) then raw_points self
              else <[label := []]> (raw_points self)).
  set (dat := if decide (label ∈ dom (raw_points self)) then data self
              else <[label := []]> (data self)).
  assert ((if decide (label ∈ dom (raw_points self))
           then (raw_points self, data self)
           else (<[label := []]> (raw_points self), <[label := []]> (data self)))
          = (raw, dat)) as Hrd
    by (unfold raw, dat; by destruct (decide (label ∈ dom (raw_points self)))).
  rewrite Hrd in Hdraw. clear Hrd.
  assert (raw !! label = Some (default [] (raw_points self !! label)) /\
          dat !! label = Some (default [] (data self !! label)) /\
          dom raw = dom dat /\
          (forall l, l <> label ->
             raw !! l = raw_points self !! l /\ dat !! l = data self !! l))
    as (Hraw & Hdat & Hdom' & Hother).
  { unfold raw, dat.
    destruct (decide (label ∈ dom (raw_points self))) as [Hin|Hin].
    - pose proof Hin as Hin'. rewrite Hdom in Hin'.
      apply elem_of_dom in Hin as [r ->]. apply elem_of_dom in Hin' as [d ->].
      done.
    - pose proof Hin as Hin'. rewrite Hdom in Hin'.
      apply not_elem_of_dom in Hin as ->. apply not_elem_of_dom in Hin' as ->.
      rewrite !lookup_insert_eq, !dom_insert_L, Hdom. split_and!; try done.
      intros l Hl. by rewrite !lookup_insert_ne. }
  unfold dict_getitem in Hdraw. rewrite Hraw, Hdat in Hdraw. cbn [bind] in Hdraw.
  fold points linep in Hdraw.
  assert (dom (<[label := points]> raw) = dom dat) as Hdom1.
  { rewrite dom_insert_L, Hdom'. apply elem_of_dom_2 in Hdat. set_solver. }
  destruct (decide (Z.of_nat (length points) <> every_n self)) as [Hlen|Hlen].
  { injection Hdraw as <-. cbn. split_and!; try done.
    - intros l Hl. rewrite lookup_insert_ne by done. by apply Hother.
    - left. by rewrite lookup_insert_eq. }
  assert (dom (<[label := []]> (<[label := points]> raw))
          = dom (<[label := linep ++ [(mean' (points.*1), mean' (points.*2))]]> dat))
    as Hdom2.
  { rewrite !dom_insert_L, Hdom'. set_solver. }
  assert (forall l, l <> label ->
            (<[label := []]> (<[label := points]> raw)) !! l = raw_points self !! l /\
            (<[label := linep ++ [(mean' (points.*1), mean' (points.*2))]]> dat) !! l
            = data self !! l) as Hother2.
  { intros l Hl. rewrite !lookup_insert_ne by done. by apply Hother. }
  apply dec_stable in Hlen.
  destruct (decide (label ∈ (lines self).*1)) as [Hline|Hline].
  - destruct (get_xlim _) as [left_ right_].
    apply bind_Ok_inv in Hdraw as (p & _ & Hdraw).
    destruct (get_ylim _) as [bottom top]. injection Hdraw as <-. cbn.
    split_and!; try done. right. rewrite !lookup_insert_eq.
    split_and!; try done. by left.
  - apply bind_Ok_inv in Hdraw as (p0 & _ & Hdraw).
    apply bind_Ok_inv in Hdraw as (linestyle & Hls & Hdraw).
    apply bind_Ok_inv in Hdraw as (color & Hcol & Hdraw).
    injection Hdraw as <-. cbn.
    split_and!; try done. right. rewrite !lookup_insert_eq.
    split_and!; try done. right. split; [done|].
    exists linestyle, color. unfold list_getitem in Hls, Hcol.
    destruct (ls self !! _) as [st|] eqn:Hst; [|done].
    destruct (colors self !! _) as [c|] eqn:Hc; [|done].
    injection Hls as ->. injection Hcol as ->. split_and!; try done. by exists p0.
Qed.

Lemma points_of_snoc (label l : string) (hist : list (N * N * string)) (x y : N) :
  points_of label (hist ++ [(x, y, l)])
  = points_of label hist ++ (if decide (l = label) then [(x, y)] else []).
Proof.
  unfold points_of. rewrite omap_app. simpl. by case_decide.
Qed.

(** An invariant of the boards that display, kept by every call of [draw]
    that returns, is kept by [draws]. *)
Lemma draws_invariant (I : ProgressBoard N -> list (N * N * string) -> Prop) :
  (forall self hist x y label self',
     display self = true -> dom (raw_points self) = dom (data self) ->
     I self hist -> draw' self x y label = Ok self' ->
     I self' (hist ++ [(x, y, label)])) ->
  forall calls self hist self',
    display self = true -> dom (raw_points self) = dom (data self) ->
    I self hist -> draws' self calls = Ok self' ->
    I self' (hist ++ calls).
Proof.
  intros Hstep. induction calls as [|[[x y] label] calls IH];
    intros self hist self' Hdisp Hdom HI Hdraws; simpl in Hdraws.
  - injection Hdraws as <-. by rewrite app_nil_r.
  - apply bind_Ok_inv in Hdraws as (self1 & Hdraw & Hdraws).
    destruct (draw_Ok_inv _ _ _ _ _ Hdisp Hdom Hdraw)
      as (_ & _ & Hdisp1 & _ & Hdom1 & _).
    rewrite (cons_middle _ hist calls), app_assoc.
    apply (IH self1 (hist ++ [(x, y, label)]) self' Hdisp1 Hdom1); [|done].
    exact (Hstep self hist x y label self1 Hdisp Hdom HI Hdraw).
Qed.

Lemma init_display (xlabel ylabel : option string) (ylim : N * N)
    (xscale yscale : string) (ls0 colors0 : list string) (figsize : Z * Z) (e : Z) :
  ProgressBoard_init xlabel ylabel ylim xscale yscale ls0 colors0 figsize true e
  = mk_ProgressBoard ls0 colors0 true e ∅ ∅ []
      [plt_ion; plt_subplots figsize; set_xlabel xlabel; set_ylabel ylabel;
       set_xscale xscale; set_yscale yscale; set_ylim ylim.2 ylim.1].
Proof. done. Qed.

Lemma batch_stable {A : Type} (pts : list A) (p : A) (n i : nat) :
  (S i * n <= length pts)%nat ->
  take n (drop (i * n) (pts ++ [p])) = take n (drop (i * n) pts).
Proof.
  intros Hi. rewrite drop_app_le by lia. apply take_app_le.
  rewrite length_drop. lia.
Qed.

Lemma batches_stable {A C : Type} (f : list A -> C) (pts : list A) (p : A) (n k : nat) :
  (k * n <= length pts)%nat ->
  map (fun i => f (take n (drop (i * n) (pts ++ [p])))) (seq 0 k)
  = map (fun i => f (take n (drop (i * n) pts))) (seq 0 k).
Proof.
  intros Hk. apply map_ext_in. intros i Hi. apply in_seq in Hi.
  rewrite batch_stable; [done|]. nia.
Qed.

(** X23. the board plots the mean of every [every_n] points.  On a board
    that displays, made with [every_n = n >= 1], after any calls of [draw]
    that have returned, the data of a label are the means of the successive
    groups of [n] points drawn under that label, in the order of the calls,
    and its raw points are the points left over, fewer than [n]. *)
Theorem draws_batches (xlabel ylabel : option string) (ylim : N * N)
    (xscale yscale : string) (ls0 colors0 : list string) (figsize : Z * Z)
    (n : nat) (calls : list (N * N * string)) (self' : ProgressBoard N)
    (label : string) :
  (1 <= n)%nat ->
  draws' (ProgressBoard_init xlabel ylabel ylim xscale yscale ls0 colors0 figsize
                             true (Z.of_nat n)) calls = Ok self' ->
  let pts := points_of label calls in
  let k := (length pts / n)%nat in
  default [] (raw_points self' !! label) = drop (k * n) pts /\
  (length (drop (k * n) pts) < n)%nat /\
  default [] (data self' !! label)
  = map (fun i => (mean' ((take n (drop (i * n) pts)).*1),
                   mean' ((take n (drop (i * n) pts)).*2))) (seq 0 k).
Proof.
  intros Hn Hdraws. rewrite init_display in Hdraws.
  pose (I := fun (self : ProgressBoard N) (hist : list (N * N * string)) =>
    every_n self = Z.of_nat n /\
    forall label,
      default [] (raw_points self !! label)
      = drop (length (points_of label hist) / n * n) (points_of label hist) /\
      default [] (data self !! label)
      = map (fun i => (mean' ((take n (drop (i * n) (points_of label hist))).*1),
                       mean' ((take n (drop (i * n) (points_of label hist))).*2)))
            (seq 0 (length (points_of label hist) / n))).
  assert (I self' ([] ++ calls)) as [_ HI].
  { refine (draws_invariant I _ calls _ [] self' _ _ _ Hdraws); [|done|done|].
    - clear -Hn. subst I. cbv beta.
      intros self hist x y l self' Hdisp Hdom [He HI] Hdraw.
      destruct (draw_Ok_inv _ _ _ _ _ Hdisp Hdom Hdraw)
        as (_ & _ & _ & He' & _ & Hother & Hcase).
      split; [congruence|]. intros label.
      rewrite points_of_snoc.
      destruct (decide (l = label)) as [->|Hne].
      2:{ rewrite app_nil_r. destruct (Hother label) as [-> ->]; [done|].
          apply HI. }
      destruct (HI label) as [Hraw Hdat].
      set (pts := points_of label hist) in *.
      set (k := (length pts / n)%nat) in *.
      rewrite Hraw, Hdat in Hcase. rewrite length_app, length_drop in Hcase.
      simpl in Hcase. rewrite He in Hcase.
      pose proof (Nat.div_mod_eq (length pts) n) as Hdm.
      pose proof (Nat.mod_upper_bound (length pts) n ltac:(lia)) as Hmod.
      fold k in Hdm.
      assert (k * n <= length pts)%nat as Hk by lia.
      rewrite length_app. simpl.
      destruct Hcase as [(Hlen & -> & -> & _)|(Hlen & -> & -> & _)]; simpl.
      + assert (((length pts + 1) / n)%nat = k) as ->.
        { symmetry. apply (Nat.div_unique _ _ _ (length pts - k * n + 1)); lia. }
        split; [by rewrite drop_app_le|].
        symmetry.
        apply (batches_stable (fun b => (mean' (b.*1), mean' (b.*2))) pts (x, y) n k Hk).
      + assert (((length pts + 1) / n)%nat = S k) as ->.
        { symmetry. apply (Nat.div_unique _ _ _ 0); lia. }
        split; [symmetry; apply drop_ge; rewrite length_app; simpl; lia|].
        rewrite seq_S, (map_app _ (seq 0 k)). f_equal.
        * symmetry.
          apply (batches_stable (fun b => (mean' (b.*1), mean' (b.*2)))
                                pts (x, y) n k Hk).
        * simpl. rewrite drop_app_le by done.
          rewrite take_ge; [by rewrite !fmap_app|].
          rewrite length_app, length_drop. simpl. lia.
    - split; [done|]. intros l. simpl. rewrite !lookup_empty. simpl.
      by rewrite Nat.Div0.div_0_l. }
  simpl in HI. destruct (HI label) as [Hraw Hdat]. split_and!; [done| |done].
  rewrite length_drop.
  pose proof (Nat.div_mod_eq (length (points_of label calls)) n).
  pose proof (Nat.mod_upper_bound (length (points_of label calls)) n ltac:(lia)). lia.
Qed.

(** X24. the lines take the styles in turn.  On a board that displays,
    after any calls of [draw] that have returned, no label has two lines,
    and the line with number [m], in the order in which the lines were
    made, was plotted with the line style [ls[m % 4]] and the colour
    [colors[m % 4]]. *)
Theorem draws_line_styles (xlabel ylabel : option string) (ylim : N * N)
    (xscale yscale : string) (ls0 colors0 : list string) (figsize : Z * Z)
    (e : Z) (calls : list (N * N * string)) (self' : ProgressBoard N) :
  draws' (ProgressBoard_init xlabel ylabel ylim xscale yscale ls0 colors0 figsize
                             true e) calls = Ok self' ->
  NoDup (lines self').*1 /\
  forall (m : nat) (label linestyle color : string),
    lines self' !! m = Some (label, (linestyle, color)) ->
    ls0 !! (m mod 4)%nat = Some linestyle /\ colors0 !! (m mod 4)%nat = Some color.
Proof.
  intros Hdraws. rewrite init_display in Hdraws.
  pose (I := fun (self : ProgressBoard N) (hist : list (N * N * string)) =>
    ls self = ls0 /\ colors self = colors0 /\ NoDup (lines self).*1 /\
    forall (m : nat) (label linestyle color : string),
      lines self !! m = Some (label, (linestyle, color)) ->
      ls0 !! (m mod 4)%nat = Some linestyle /\
      colors0 !! (m mod 4)%nat = Some color).
  assert (I self' ([] ++ calls)) as (_ & _ & Hnd & Hst); [|done].
  refine (draws_invariant I _ calls _ [] self' _ _ _ Hdraws); [|done|done|].
  - clear. subst I. cbv beta.
    intros self hist x y l self' Hdisp Hdom (Hls & Hcol & Hnd & Hst) Hdraw.
    destruct (draw_Ok_inv _ _ _ _ _ Hdisp Hdom Hdraw)
      as (Hls' & Hcol' & _ & _ & _ & _ & Hcase).
    split; [congruence|]. split; [congruence|].
    destruct Hcase as [(_ & _ & _ & -> & _)|(_ & _ & _ & [[_ ->]|Hnew])]; [done..|].
    destruct Hnew as (Hnotin & st & c & Hs & Hc & -> & _). split.
    + rewrite fmap_app. apply NoDup_app. split_and!; [done| |apply NoDup_singleton].
      intros l' Hl' Hl2. apply list_elem_of_singleton in Hl2. by subst.
    + intros m label linestyle color Hm.
      destruct (decide (m < length (lines self))%nat) as [Hlt|Hge].
      * rewrite lookup_app_l in Hm by done. by eapply Hst.
      * rewrite lookup_app_r in Hm by lia.
        destruct (m - length (lines self))%nat as [|d] eqn:Hd; [|done].
        injection Hm as <- <- <-.
        replace m with (length (lines self)) by lia. by rewrite <- Hls, <- Hcol.
  - subst I. cbv beta. simpl. split_and!; try done. apply NoDup_nil_2.
Qed.

Lemma draw_without_display (self : ProgressBoard N) (x y : N) (label : string) :
  display self = false -> draw' self x y label = Ok self.
Proof. intros H. unfold draw. by rewrite H. Qed.

Lemma draw_returns_small (self : ProgressBoard N) (x y : N) (label : string) :
  display self = true -> dom (raw_points self) = dom (data self) ->
  every_n self < 1 ->
  exists self', draw' self x y label = Ok self'.
Proof.
  intros Hdisp Hdom He. unfold draw. rewrite Hdisp. cbn [negb].
  destruct (decide (label ∈ dom (raw_points self))) as [Hin|Hin].
  - pose proof Hin as Hin'. rewrite Hdom in Hin'.
    apply elem_of_dom in Hin as [r Hr]. apply elem_of_dom in Hin' as [d Hd].
    unfold dict_getitem. rewrite Hr, Hd. cbn [bind].
    rewrite decide_True by (rewrite length_app; simpl; lia). by eexists.
  - unfold dict_getitem. rewrite !lookup_insert_eq. cbn [bind].
    rewrite decide_True by (rewrite length_app; simpl; lia). by eexists.
Qed.

Lemma draws_small (calls : list (N * N * string)) :
  forall (self : ProgressBoard N) (hist : list (N * N * string)),
    display self = true -> dom (raw_points self) = dom (data self) ->
    every_n self < 1 ->
    (forall label,
       default [] (raw_points self !! label) = points_of label hist /\
       default [] (data self !! label) = []) ->
    exists self',
      draws' self calls = Ok self' /\
      lines self' = lines self /\ plt_calls self' = plt_calls self /\
      forall label,
        default [] (raw_points self' !! label) = points_of label (hist ++ calls) /\
        default [] (data self' !! label) = [].
Proof.
  induction calls as [|[[x y] l] calls IH]; intros self hist Hdisp Hdom He HI.
  - exists self. rewrite app_nil_r. by split_and!.
  - destruct (draw_returns_small self x y l Hdisp Hdom He) as (self1 & Hdraw).
    destruct (draw_Ok_inv _ _ _ _ _ Hdisp Hdom Hdraw)
      as (_ & _ & Hdisp1 & He1 & Hdom1 & Hother & Hcase).
    destruct Hcase as [(_ & Hraw & Hdat & Hlines & Hcalls)|(Hlen & _)].
    2:{ rewrite length_app in Hlen. simpl in Hlen. lia. }
    destruct (IH self1 (hist ++ [(x, y, l)]) Hdisp1 Hdom1 ltac:(lia))
      as (self' & Hdraws & Hl' & Hc' & HI').
    { intros label. rewrite points_of_snoc.
      destruct (decide (l = label)) as [->|Hne].
      - rewrite Hraw, Hdat. simpl. by destruct (HI label) as [-> ->].
      - rewrite app_nil_r. destruct (Hother label) as [-> ->]; [done|]. apply HI. }
    exists self'. simpl. rewrite Hdraw. simpl.
    rewrite (cons_middle _ hist calls), app_assoc.
    split_and!; [done|congruence|congruence|done].
Qed.

(** X25. a board that plots nothing.  Without [display], [draw] leaves
    the board as it is.  With [display] and an [every_n] below 1, every call
    of [draw] returns, no line is made and matplotlib is not called, the
    data of every label stay empty and its raw points are all the points
    drawn under it. *)
Theorem draws_without_plot (xlabel ylabel : option string) (ylim : N * N)
    (xscale yscale : string) (ls0 colors0 : list string) (figsize : Z * Z)
    (e : Z) (calls : list (N * N * string)) :
  draws' (ProgressBoard_init xlabel ylabel ylim xscale yscale ls0 colors0 figsize
                             false e) calls
  = Ok (ProgressBoard_init xlabel ylabel ylim xscale yscale ls0 colors0 figsize
                           false e) /\
  (e < 1 ->
   exists self',
     draws' (ProgressBoard_init xlabel ylabel ylim xscale yscale ls0 colors0 figsize
                                true e) calls = Ok self' /\
     lines self' = [] /\
     plt_calls self'
     = plt_calls (ProgressBoard_init xlabel ylabel ylim xscale yscale ls0 colors0
                                     figsize true e) /\
     forall label,
       default [] (raw_points self' !! label) = points_of label calls /\
       default [] (data self' !! label) = []).
Proof.
  split.
  - induction calls as [|[[x y] l] calls IH]; [done|].
    cbn [draws]. by rewrite draw_without_display.
  - intros He. rewrite init_display.
    destruct (draws_small calls
                (mk_ProgressBoard ls0 colors0 true e ∅ ∅ []
                   [plt_ion; plt_subplots figsize; set_xlabel xlabel;
                    set_ylabel ylabel; set_xscale xscale; set_yscale yscale;
                    set_ylim ylim.2 ylim.1]) [])
      as (self' & Hdraws & Hl & Hc & HI); try done.
    by exists self'.
Qed.

End ProgressBoardFacts.

Lemma draws_batches_witness :
  exists self',
    example_draws (example_board true 2) example_calls = Ok self' /\
    let pts := points_of "a" example_calls in
    let k := (length pts / 2)%nat in
    default [] (raw_points self' !! "a"%string) = drop (k * 2) pts /\
    (length (drop (k * 2) pts) < 2)%nat /\
    default [] (data self' !! "a"%string)
    = map (fun i => (mean (foldr Z.add 0) (fun s n => s `div` Z.of_nat n)
                          ((take 2 (drop (i * 2) pts)).*1),
                     mean (foldr Z.add 0) (fun s n => s `div` Z.of_nat n)
                          ((take 2 (drop (i * 2) pts)).*2))) (seq 0 k).
Proof.
  destruct (example_draws (example_board true 2) example_calls) as [self'|e] eqn:H;
    [|by vm_compute in H].
  exists self'. split; [done|].
  apply (draws_batches (foldr Z.add 0) (fun s n => s `div` Z.of_nat n) Z.gtb Z.ltb
           (fun _ => (0, 100)) (fun _ => (0, 100))
           (Some "x"%string) (Some "y"%string) (100, 0) "linear"%string "linear"%string
           ["-"; "--"; "-."; ":"]%string ["C0"; "C1"; "C2"; "C3"]%string (6, 6)
           2 example_calls self' "a"%string); [lia|exact H].
Defined.

Lemma draws_line_styles_witness :
  exists self',
    example_draws (example_board true 2) example_calls = Ok self' /\
    NoDup (lines self').*1 /\
    forall (m : nat) (label linestyle color : string),
      lines self' !! m = Some (label, (linestyle, color)) ->
      ["-"; "--"; "-."; ":"]%string !! (m mod 4)%nat = Some linestyle /\
      ["C0"; "C1"; "C2"; "C3"]%string !! (m mod 4)%nat = Some color.
Proof.
  destruct (example_draws (example_board true 2) example_calls) as [self'|e] eqn:H;
    [|by vm_compute in H].
  exists self'. split; [done|].
  exact (draws_line_styles (foldr Z.add 0) (fun s n => s `div` Z.of_nat n) Z.gtb Z.ltb
           (fun _ => (0, 100)) (fun _ => (0, 100))
           (Some "x"%string) (Some "y"%string) (100, 0) "linear"%string "linear"%string
           ["-"; "--"; "-."; ":"]%string ["C0"; "C1"; "C2"; "C3"]%string (6, 6)
           2 example_calls self' H).
Defined.

Lemma draws_without_plot_witness :
  example_draws (example_board false 2) example_calls = Ok (example_board false 2) /\
  exists self',
    example_draws (example_board true 0) example_calls = Ok self' /\
    lines self' = [] /\
    plt_calls self' = plt_calls (example_board true 0) /\
    forall label,
      default [] (raw_points self' !! label) = points_of label example_calls /\
      default [] (data self' !! label) = [].
Proof.
  destruct (draws_without_plot (foldr Z.add 0) (fun s n => s `div` Z.of_nat n)
              Z.gtb Z.ltb (fun _ => (0, 100)) (fun _ => (0, 100))
              (Some "x"%string) (Some "y"%string) (100, 0) "linear"%string
              "linear"%string ["-"; "--"; "-."; ":"]%string
              ["C0"; "C1"; "C2"; "C3"]%string (6, 6) 0 example_calls) as [_ H0].
  split.
  - apply (draws_without_plot (foldr Z.add 0) (fun s n => s `div` Z.of_nat n)
             Z.gtb Z.ltb (fun _ => (0, 100)) (fun _ => (0, 100))
             (Some "x"%string) (Some "y"%string) (100, 0) "linear"%string
             "linear"%string ["-"; "--"; "-."; ":"]%string
             ["C0"; "C1"; "C2"; "C3"]%string (6, 6) 2 example_calls).
  - apply H0. lia.
Defined.
